(** * Fsa: acceptor construction for ASG, CTC and HMM topologies

    A shallow embedding of the class [Fsa] of [Fsa.py] and of the graph
    rewriting stages it is made of, followed by the properties of the
    builders.

    Conventions of the embedding.
    - Python integers are [Z]; node identifiers are plain integers.
    - A Python [str] that is iterated or indexed is the list of its
      one-character strings; a label is a string, an integer, or (in the HMM
      stages) a list of strings and integers.
    - The float constants [0.] and [1.] are the rationals [0] and [1].
    - An edge is a 4-tuple, a 4-element list or a 5-element list; the shape
      is kept because [edge[4]] and item assignment depend on it.
    - The edge lists given to [_sort_node_num] hold distinct list objects
      (every stage appends freshly built lists), so that an assignment to
      one edge changes that edge only.
    - The lexicon and the state-tying table are read by classes of another
      module; what they hold is given to [run] as [collaborators].
    - Exceptions are values of [res]; the only loop that may run forever
      ([_sort_node_num]) is given fuel and reports [Timeout] when it is
      exhausted. *)

From Stdlib Require Import ZArith QArith Ascii String.
Close Scope Q_scope.
From stdpp Require Import base option list gmap strings pretty.

Open Scope Z_scope.

(** ** Results of fallible code *)

Inductive exn :=
| IndexError | TypeError | KeyError | AttributeError | AssertionError
| NameError     (* [sys.exit(-1)]: the module never imports [sys] *)
| Unsupported.   (* a value outside the label model *)

Inductive res (A : Type) : Type :=
| Ok (a : A)
| Raise (e : exn)
| Timeout.
Arguments Ok {A} a.
Arguments Raise {A} e.
Arguments Timeout {A}.

#[global] Instance res_ret : MRet res := fun A a => Ok a.
#[global] Instance res_bind : MBind res := fun A B f m =>
  match m with
  | Ok a => f a
  | Raise e => Raise e
  | Timeout => Timeout
  end.

(** [for x in xs: body], threading the state. *)
Fixpoint for_each {X S : Type} (body : X → S → res S) (xs : list X) (s : S) : res S :=
  match xs with
  | [] => Ok s
  | x :: xs' => s' ← body x s; for_each body xs' s'
  end.

(** ** Python sequences *)

(** [range(a, b)]. *)
Definition range (a b : Z) : list Z :=
  (λ k : nat, a + Z.of_nat k) <$> seq 0 (Z.to_nat (b - a)).

(** [l[i]], negative indices counting from the end. *)
Definition py_index {A : Type} (l : list A) (i : Z) : res A :=
  let n := Z.of_nat (length l) in
  let j := if bool_decide (i < 0) then n + i else i in
  if bool_decide (0 ≤ j < n) then
    match l !! Z.to_nat j with
    | Some x => Ok x
    | None => Raise IndexError
    end
  else Raise IndexError.

(** [[i for i, x in enumerate(l) if p x]]. *)
Definition indices_where {A : Type} (P : A → Prop) `{∀ x, Decision (P x)}
    (l : list A) : list nat :=
  fst <$> filter (λ ix : nat * A, P ix.2) (imap pair l).

(** [s.split(" ")]: every single space separates, empty pieces are kept. *)
Fixpoint split_space_aux (s : string) (cur : string) : list string :=
  match s with
  | EmptyString => [String.rev cur]
  | String c s' =>
      if Ascii.eqb c " "%char then String.rev cur :: split_space_aux s' EmptyString
      else split_space_aux s' (String c cur)
  end.
Definition split_space (s : string) : list string := split_space_aux s EmptyString.

(** ** Labels, edges, graphs *)

Inductive atom := AStr (s : string) | AInt (z : Z).
Inductive label := LStr (s : string) | LInt (z : Z) | LList (l : list atom).

#[global] Instance atom_eq_dec : EqDecision atom.
Proof. solve_decision. Defined.
#[global] Instance label_eq_dec : EqDecision label.
Proof. solve_decision. Defined.

(** [_SIL], [_EPS] and the blank marker of the CTC builder. *)
Definition _SIL : label := LStr "_".
Definition _EPS : label := LStr "*".
Definition label_blank : label := LStr "blank".

(** The characters of a [str], as labels. *)
Fixpoint chars (s : string) : list label :=
  match s with
  | EmptyString => []
  | String c s' => LStr (String c EmptyString) :: chars s'
  end.

(** [lemma_orig] is a [str] or a [list]. *)
Inductive lemma_t := LemStr (s : string) | LemList (l : list label).

Definition items (l : lemma_t) : list label :=
  match l with
  | LemStr s => chars s
  | LemList l => l
  end.

Inductive shape :=
| Tuple4                         (* (from, to, label, weight) *)
| List4                          (* [from, to, label, weight] *)
| List5 (pos : option string).   (* [from, to, label, weight, pos] *)

Record edge := Edge {
  e_from : Z;
  e_to : Z;
  e_label : label;
  e_weight : Q;
  e_shape : shape
}.

(** [edge[4]]. *)
Definition e_pos (e : edge) : res (option string) :=
  match e_shape e with
  | List5 p => Ok p
  | _ => Raise IndexError
  end.

(** The parameters as [__init__] and [set_params] leave them; for the
    topology ["hmm"], [lemma_orig] is the lower-cased word sequence. *)
Record params := Params {
  fsa_type : string;
  lemma_orig : lemma_t;
  asg_repetition : Z;
  num_labels : Z;
  label_conversion : bool;
  depth : Z;
  allo_num_states : Z
}.

(** The attributes the stages mutate. *)
Record fsa := Fsa {
  num_states : Z;
  edges : list edge;
  lemma : list label;
  final_states : list Z
}.

Definition set_num_states (n : Z) (s : fsa) : fsa :=
  Fsa n (edges s) (lemma s) (final_states s).
Definition set_edges (es : list edge) (s : fsa) : fsa :=
  Fsa (num_states s) es (lemma s) (final_states s).
Definition set_lemma (l : list label) (s : fsa) : fsa :=
  Fsa (num_states s) (edges s) l (final_states s).
Definition set_final_states (fs : list Z) (s : fsa) : fsa :=
  Fsa (num_states s) (edges s) (lemma s) fs.
Definition append_edge (e : edge) (s : fsa) : fsa :=
  set_edges (edges s ++ [e]) s.

(** The object after [__init__]. *)
Definition fsa_init : fsa := Fsa 0 [] [] [].

(** ** ASG: repetition folding *)

Record rep_state := RepState {
  reps : list label;
  rep_count : Z;
  index_old : option label
}.

(** One iteration of the loop of [_check_for_repetitions_for_asg]. *)
Definition rep_step (R N : Z) (st : rep_state) (index : label) : rep_state :=
  let index_t := index in
  if bool_decide (Some index_t = index_old st) then
    if bool_decide (rep_count st < R) then
      RepState (reps st) (rep_count st + 1) (Some index)
    else if bool_decide (rep_count st ≠ 0) then
      RepState (reps st ++ [LInt (N + rep_count st)]) 1 (Some index)
    else
      RepState (reps st) (rep_count st) (Some index)
  else
    let st1 :=
      if bool_decide (rep_count st ≠ 0) then
        RepState (reps st ++ [LInt (N + rep_count st)]) 0 (index_old st)
      else st in
    RepState (reps st1 ++ [index]) (rep_count st1) (Some index).

Definition rep_init : rep_state := RepState [] 0 None.

Definition rep_scan (R N : Z) (l : list label) : rep_state :=
  foldl (rep_step R N) rep_init l.

Definition fold_repetitions (R N : Z) (l : list label) : list label :=
  if bool_decide (R = 0) then l else reps (rep_scan R N l).

Definition _check_for_repetitions_for_asg (p : params) (s : fsa) : fsa :=
  set_lemma (fold_repetitions (asg_repetition p) (num_labels p) (lemma s)) s.

(** ** Shared utilities *)

(** [ord(label)]: defined on one-character strings only. *)
Definition ord (l : label) : res Z :=
  match l with
  | LStr (String c EmptyString) => Ok (Z.of_nat (nat_of_ascii c))
  | _ => Raise TypeError
  end.

Definition convert_label_seq_to_indices (p : params) (s : fsa) : res fsa :=
  label_indices ←
    for_each (λ label label_indices,
        label_index ← ord label;
        if bool_decide (label_index < num_labels p)
        then Ok (label_indices ++ [LInt label_index])
        else Raise AssertionError)
      (items (lemma_orig p)) [];
  Ok (set_lemma label_indices s).

(** The body of the loop of [_adds_loop_edges] for one [state]. The bare
    [except] turns every failure of the first lookup into [None]; the second
    lookup of [edges_included[0]] is outside the [try]. *)
Definition add_loop_edge (state : Z) (s : fsa) : res fsa :=
  let edges_included :=
    indices_where (λ e, e_to e = state ∧ e_label e ≠ _EPS) (edges s) in
  let label_pos :=
    match (i ← py_index edges_included 0;
           e ← py_index (edges s) (Z.of_nat i);
           e_pos e) with
    | Ok pos => pos
    | _ => None
    end in
  i ← py_index edges_included 0;
  e ← py_index (edges s) (Z.of_nat i);
  let edge_n := Edge state state (e_label e) 0 (List5 label_pos) in
  Ok (append_edge edge_n s).

Definition _adds_loop_edges (p : params) (s : fsa) : res fsa :=
  countloops ←
    (if bool_decide (fsa_type p = "asg" ∨ fsa_type p = "ctc") then Ok (num_states s)
     else if bool_decide (fsa_type p = "hmm") then Ok (num_states s - 1)
     else Raise NameError);
  for_each add_loop_edge (range 1 countloops) s.

(** ** ASG: linear chain *)

(** [enumerate(l)]. *)
Definition enumerate {A : Type} (l : list A) : list (Z * A) :=
  imap (λ i x, (Z.of_nat i, x)) l.

Definition _create_states_from_label_for_asg (s : fsa) : fsa :=
  let s1 :=
    foldl (λ s ix, let '(rep_index, rep_label) := ix in
                   append_edge (Edge rep_index (rep_index + 1) rep_label 1 Tuple4) s)
      s (enumerate (lemma s)) in
  set_num_states (Z.of_nat (length (lemma s1)) + 1) s1.

(** ** CTC stages *)

Definition ctc_skip_step (label_index : Z) (s : fsa) : res fsa :=
  cur ← py_index (lemma s) label_index;
  prev ← py_index (lemma s) (label_index - 1);
  if bool_decide (cur ≠ prev) then
    let n := 2 * label_index in
    Ok (append_edge (Edge n (n + 2) cur 1 Tuple4) s)
  else Ok s.

Definition _create_states_from_label_seq_for_ctc (s : fsa) : res fsa :=
  for_each ctc_skip_step (range 0 (Z.of_nat (length (lemma s)))) s.

(** The loop of [_adds_blank_states_for_ctc] carries the local
    [label_blank_idx] next to the object. *)
Definition ctc_blank_step (label_index : Z) (st : Z * fsa) : res (Z * fsa) :=
  let s := st.2 in
  let label_blank_idx := 2 * label_index + 1 in
  let s := append_edge (Edge (label_blank_idx - 1) label_blank_idx label_blank 1 Tuple4) s in
  cur ← py_index (lemma s) label_index;
  let s := append_edge (Edge label_blank_idx (label_blank_idx + 1) cur 1 Tuple4) s in
  Ok (label_blank_idx, s).

Definition _adds_blank_states_for_ctc (s : fsa) : res fsa :=
  st ← for_each ctc_blank_step (range 0 (Z.of_nat (length (lemma s)))) (0, s);
  let '(label_blank_idx, s) := st in
  Ok (set_final_states (final_states s ++ [label_blank_idx + 1]) s).

Definition _adds_last_state_for_ctc (s : fsa) : res fsa :=
  let i := num_states s in
  let s := append_edge (Edge (i - 3) i label_blank 1 Tuple4) s in
  last ← py_index (lemma s) (-1);
  let s := append_edge (Edge i (i + 1) last 1 Tuple4) s in
  let s := append_edge (Edge (i + 1) (i + 2) label_blank 1 Tuple4) s in
  let s := set_num_states (num_states s + 3) s in
  Ok (set_final_states (final_states s ++ [num_states s - 1]) s).

(** ** Final-state merging *)

Definition merge_edge_step (fstate_edge : nat) (s : fsa) : res fsa :=
  e ← py_index (edges s) (Z.of_nat fstate_edge);
  Ok (append_edge (Edge (e_from e) (num_states s - 1) (e_label e) 1 Tuple4) s).

Definition merge_fstate_step (fstate : Z) (s : fsa) : res fsa :=
  let edges_fstate := indices_where (λ e, e_to e = fstate) (edges s) in
  for_each merge_edge_step edges_fstate s.

Definition _make_single_final_state (s : fsa) : res fsa :=
  nothing_to_change ←
    (if bool_decide (length (final_states s) = 1%nat) then
       f ← py_index (final_states s) 0;
       Ok (bool_decide (f = num_states s - 1))
     else Ok false);
  if nothing_to_change : bool then Ok s
  else
    let s := set_num_states (num_states s + 1) s in
    for_each merge_fstate_step (final_states s) s.

(** ** The ASG and CTC branches of [run] *)

(** The first lines of both branches: [self.lemma] is the converted or the
    original sequence. *)
Definition load_lemma (p : params) (s : fsa) : res fsa :=
  if label_conversion p then convert_label_seq_to_indices p s
  else Ok (set_lemma (items (lemma_orig p)) s).

Definition run_asg (p : params) (s : fsa) : res fsa :=
  s ← load_lemma p s;
  let s := set_edges [] s in
  let s := _check_for_repetitions_for_asg p s in
  let s := _create_states_from_label_for_asg s in
  _adds_loop_edges p s.

(** The CTC branch up to, and excluding, [_adds_last_state_for_ctc]. *)
Definition ctc_lattice (p : params) (s : fsa) : res fsa :=
  s ← load_lemma p s;
  let s := set_edges [] s in
  let s := set_final_states [] s in
  let s := set_num_states (2 * (Z.of_nat (length (lemma s)) + 1) - 1) s in
  s ← _create_states_from_label_seq_for_ctc s;
  _adds_blank_states_for_ctc s.

Definition run_ctc (p : params) (s : fsa) : res fsa :=
  s ← ctc_lattice p s;
  s ← _adds_last_state_for_ctc s;
  s ← _adds_loop_edges p s;
  _make_single_final_state s.

(** ** HMM: lemma acceptor *)

Definition is_str (l : label) : bool :=
  match l with LStr _ => true | _ => false end.

(** The inner loop [for i in epsil] for one word. *)
Definition lemma_epsil_step (word_idx start_node end_node : Z) (i : label) (s : fsa) : fsa :=
  let s :=
    if bool_decide (word_idx = 0) then
      let s := append_edge (Edge (start_node - 1) (end_node - 1) i 0 List4) s in
      set_num_states (num_states s + 1) s
    else s in
  let s := append_edge (Edge (start_node + 1) (end_node + 1) i 0 List4) s in
  set_num_states (num_states s + 1) s.

Definition lemma_word_step (epsil : list label) (word_idx : Z) (s : fsa) : res fsa :=
  word ← py_index (lemma s) word_idx;
  if is_str word then
    let start_node := 2 * (word_idx + 1) - 1 in
    let end_node := start_node + 1 in
    let s := append_edge (Edge start_node end_node word 0 List4) s in
    Ok (foldl (λ s i, lemma_epsil_step word_idx start_node end_node i s) s epsil)
  else Raise AssertionError.

Definition _lemma_acceptor_for_hmm_fsa (p : params) (s : fsa) : res fsa :=
  let epsil := [_SIL; _EPS] in
  let s := set_edges [] s in
  let s := set_num_states 0 s in
  let s :=
    match lemma_orig p with
    | LemStr str => set_lemma (LStr <$> split_space str) s
    | LemList l => set_lemma l s
    end in
  for_each (lemma_word_step epsil) (range 0 (Z.of_nat (length (lemma s)))) s.

(** ** Node renumbering *)

(** The dictionary built by [_find_node_edges]: edge index to 0 (node at the
    start), 1 (node at the end) or 2 (node at both); later writes win. *)
Definition _find_node_edges (node : Z) (edges : list edge) : gmap nat Z :=
  let pos_start := indices_where (λ e, e_from e = node) edges in
  let pos_end := indices_where (λ e, e_to e = node) edges in
  let pos_start_end := indices_where (λ e, e_from e = node ∧ e_to e = node) edges in
  let node_dict := foldl (λ d pos, <[pos := 0]> d) ∅ pos_start in
  let node_dict := foldl (λ d pos, <[pos := 1]> d) node_dict pos_end in
  foldl (λ d pos, <[pos := 2]> d) node_dict pos_start_end.

(** [edge[k] = v] for an integer [v]: tuples are immutable, slot 2 is the
    label. The renumbering only ever writes slots 0, 1 and 2. *)
Definition set_item (e : edge) (k : Z) (v : Z) : res edge :=
  match e_shape e with
  | Tuple4 => Raise TypeError
  | _ =>
      if bool_decide (k = 0) then Ok (Edge v (e_to e) (e_label e) (e_weight e) (e_shape e))
      else if bool_decide (k = 1) then Ok (Edge (e_from e) v (e_label e) (e_weight e) (e_shape e))
      else if bool_decide (k = 2) then Ok (Edge (e_from e) (e_to e) (LInt v) (e_weight e) (e_shape e))
      else Raise IndexError
  end.

(** [for edge_key in d.keys(): edges[edge_key][d[edge_key]] = v]. Each key
    names another edge, so the order of the keys is immaterial. *)
Definition assign_all (d : gmap nat Z) (v : Z) (edges : list edge) : res (list edge) :=
  for_each (λ kv edges,
      e ← py_index edges (Z.of_nat kv.1);
      e' ← set_item e kv.2 v;
      Ok (<[kv.1 := e']> edges))
    (map_to_list d) edges.

(** The [while] loop of [_sort_node_num]; one unit of fuel per iteration. *)
Fixpoint sort_loop (fuel : nat) (idx : Z) (edges : list edge) : res (list edge) :=
  match fuel with
  | O => Timeout
  | S fuel' =>
      if bool_decide (idx < Z.of_nat (length edges)) then
        cur_edge ← py_index edges idx;
        let cur_edge_start := e_from cur_edge in
        let cur_edge_end := e_to cur_edge in
        if bool_decide (cur_edge_start > cur_edge_end) then
          let edges_cur_start := _find_node_edges cur_edge_start edges in
          let edges_cur_end := _find_node_edges cur_edge_end edges in
          edges ← assign_all edges_cur_start cur_edge_end edges;
          edges ← assign_all edges_cur_end cur_edge_start edges;
          let idx := 0 in
          sort_loop fuel' (idx + 1) edges
        else sort_loop fuel' (idx + 1) edges
      else Ok edges
  end.

Definition _sort_node_num (fuel : nat) (edges : list edge) : res (list edge) :=
  sort_loop fuel 0 edges.

(** ** HMM: allophone-state acceptor *)

(** [edge_label = []; edge_label.extend(label); edge_label.append(state)]. *)
Definition allo_label (l : label) (state : Z) : res label :=
  match l with
  | LList atoms => Ok (LList (atoms ++ [AInt state]))
  | LStr s =>
      Ok (LList (((λ c, AStr (String c EmptyString)) <$> list_ascii_of_string s)
                 ++ [AInt state]))
  | LInt _ => Raise TypeError
  end.

(** The loop [for state in range(allo_num_states)] for one edge; the state
    is [(num_states_output, edges_output)]. *)
Definition allo_state_step (p : params) (edge_t : edge) (state : Z)
    (st : Z * list edge) : res (Z * list edge) :=
  let '(num_states_output, edges_output) := st in
  edge_label ← allo_label (e_label edge_t) state;
  let edge_score := e_weight edge_t in
  edge_if ← e_pos edge_t;
  let '(edge_start, edge_end, num_states_output) :=
    if bool_decide (state = 0) then
      (e_from edge_t, num_states_output, num_states_output + 1)
    else if bool_decide (state = allo_num_states p - 1) then
      (num_states_output, e_to edge_t, num_states_output + 1)
    else
      (num_states_output - 1, num_states_output, num_states_output) in
  let edge_n := Edge edge_start edge_end edge_label edge_score (List5 edge_if) in
  Ok (num_states_output, edges_output ++ [edge_n]).

Definition allo_edge_step (p : params) (edge_t : edge) (st : Z * list edge)
    : res (Z * list edge) :=
  if bool_decide (e_label edge_t = _SIL ∨ e_label edge_t = _EPS) then
    Ok (st.1, st.2 ++ [edge_t])
  else if bool_decide (allo_num_states p > 1) then
    for_each (allo_state_step p edge_t) (range 0 (allo_num_states p)) st
  else Ok st.

(** The expansion, before [_sort_node_num] is applied to its output. *)
Definition allo_expand (p : params) (s : fsa) : res (Z * list edge) :=
  for_each (allo_edge_step p) (edges s) (num_states s, []).

Definition _allophone_state_acceptor_for_hmm_fsa (fuel : nat) (p : params) (s : fsa)
    : res fsa :=
  st ← allo_expand p s;
  let '(num_states_output, edges_output) := st in
  edges_output ← _sort_node_num fuel edges_output;
  Ok (set_edges edges_output (set_num_states num_states_output s)).

(** ** HMM: phoneme acceptor *)

(** One pronunciation of the lexicon: [{'phon': ..., 'score': ...}]. *)
Record pron := Pron { phon : string; score : Q }.

(** What the two loaders read: the pronunciations of the lexicon file
    ([lexicon.lemmas[w]['phons']]) and the table of the state-tying file
    ([state_tying.allo_map]); [None] when the file does not exist. *)
Record collaborators := Collaborators {
  lexicon_file : option (gmap string (list pron));
  state_tying_file : option (gmap string Z)
}.

(** [d[k]] for a dictionary with string keys: a list is not hashable. *)
Definition dict_get {V : Type} (d : gmap string V) (k : label) : res V :=
  match k with
  | LStr w => match d !! w with Some v => Ok v | None => Raise KeyError end
  | LInt _ => Raise KeyError
  | LList _ => Raise TypeError
  end.

Definition _load_lexicon (c : collaborators) : res (gmap string (list pron)) :=
  match lexicon_file c with
  | Some lexicon => Ok lexicon
  | None => Raise AssertionError
  end.

(** [_find_allo_seq_in_lex]; the dictionary it stores in [self.phon_dict] is
    passed on to the phoneme acceptor. *)
Definition _find_allo_seq_in_lex (lexicon : gmap string (list pron)) (s : fsa)
    : res (gmap string (list pron)) :=
  for_each (λ lemma phon_dict,
      match lemma with
      | LStr w => phons ← dict_get lexicon lemma; Ok (<[w := phons]> phon_dict)
      | _ => Raise AssertionError
      end)
    (lemma s) ∅.

(** [l.sort(key=lambda x: x[0])]: the sort is stable, which determines it. *)
Fixpoint insert_by_start (e : edge) (l : list edge) : list edge :=
  match l with
  | [] => [e]
  | y :: l' =>
      if bool_decide (e_from e ≤ e_from y) then e :: y :: l'
      else y :: insert_by_start e l'
  end.
Definition sort_by_start (l : list edge) : list edge := foldr insert_by_start [] l.

(** First loop: one edge per pronunciation of a word edge. *)
Definition phoneme_replace_step (phon_dict : gmap string (list pron)) (e : edge)
    (edges_phon_t : list edge) : res (list edge) :=
  if bool_decide (e_label e ≠ _SIL ∧ e_label e ≠ _EPS) then
    phon_current ← dict_get phon_dict (e_label e);
    Ok (edges_phon_t ++
          ((λ phons, Edge (e_from e) (e_to e) (LStr (phon phons)) (score phons) List4)
             <$> phon_current))
  else Ok (edges_phon_t ++ [e]).

(** [label.split(" ")]. *)
Definition split_label (l : label) : res (list string) :=
  match l with
  | LStr str => Ok (split_space str)
  | _ => Raise AttributeError
  end.

(** Last loop, for one phoneme of one edge. *)
Definition phoneme_split_phon (e : edge) (phon_seq_len : Z) (ix : Z * string)
    (s : fsa) : res fsa :=
  let '(phon_idx, phon_label) := ix in
  if bool_decide (phon_seq_len = 1) then
    Ok (append_edge
          (Edge (e_from e) (e_to e) (LStr phon_label) (e_weight e)
                (List5 (Some "if"))) s)
  else if bool_decide (phon_seq_len > 1) then
    if bool_decide (phon_idx = 0) then
      let s := append_edge
                 (Edge (e_from e) (num_states s) (LStr phon_label) (e_weight e)
                       (List5 (Some "i"))) s in
      Ok (set_num_states (num_states s + 1) s)
    else if bool_decide (phon_idx = phon_seq_len - 1) then
      Ok (append_edge
            (Edge (num_states s - 1) (e_to e) (LStr phon_label) 0
                  (List5 (Some "f"))) s)
    else
      let s := append_edge
                 (Edge (num_states s - 1) (num_states s) (LStr phon_label) 0
                       (List5 (Some ""))) s in
      Ok (set_num_states (num_states s + 1) s)
  else Raise AssertionError.

(** Last loop, for one edge; the edge list is sorted again after it. *)
Definition phoneme_split_step (e : edge) (s : fsa) : res fsa :=
  s ← (if bool_decide (e_label e ≠ _SIL ∧ e_label e ≠ _EPS) then
         phon_seq ← split_label (e_label e);
         for_each (phoneme_split_phon e (Z.of_nat (length phon_seq)))
           (enumerate phon_seq) s
       else
         Ok (append_edge
               (Edge (e_from e) (e_to e) (e_label e) (e_weight e)
                     (List5 (Some ""))) s));
  Ok (set_edges (sort_by_start (edges s)) s).

(** The two middle parts of the function fill the locals [word_pos] and
    [phon_pos], which are never read; they are left out. *)
Definition _phoneme_acceptor_for_hmm_fsa (fuel : nat)
    (phon_dict : gmap string (list pron)) (s : fsa) : res fsa :=
  edges_phon_t ← for_each (phoneme_replace_step phon_dict) (edges s) [];
  let s := set_edges edges_phon_t s in
  let edges_tt := sort_by_start (edges s) in
  let s := set_edges [] s in
  s ← for_each phoneme_split_step edges_tt s;
  es ← _sort_node_num fuel (edges s);
  Ok (set_edges es s).

(** ** HMM: triphone acceptor *)

(** A label as an element of a list label. A list inside a list is outside
    the label model; it does not occur, since the stage runs on the edges of
    the phoneme acceptor, whose labels are strings. *)
Definition atom_of_label (l : label) : res atom :=
  match l with
  | LStr str => Ok (AStr str)
  | LInt z => Ok (AInt z)
  | LList _ => Raise Unsupported
  end.

(** [_find_prev_next_edge]; of the edge it returns only the label is used,
    and the label is what is returned here. *)
Definition _find_prev_next_edge (cur_edge : edge) (pn_switch : Z) (edges : list edge)
    : res label :=
  if bool_decide (pn_switch = 0 ∨ pn_switch = 1) then
    let cur_node := if bool_decide (pn_switch = 0) then e_from cur_edge else e_to cur_edge in
    let other_node (e : edge) := if bool_decide (pn_switch = 0) then e_to e else e_from e in
    let prev_edge_cand_idx := indices_where (λ e, cur_node = other_node e) edges in
    let prev_edge_cand_idx_len := length prev_edge_cand_idx in
    _ ← (if bool_decide (1 < prev_edge_cand_idx_len)%nat then
           for_each (λ idx (_ : unit),
               e ← py_index edges (Z.of_nat idx);
               if bool_decide (e_label e = _SIL ∨ e_label e = _EPS) then Ok ()
               else Raise AssertionError)
             prev_edge_cand_idx ()
         else Ok ());
    if bool_decide (prev_edge_cand_idx_len = 1%nat) then
      i ← py_index prev_edge_cand_idx 0;
      pn_edge ← py_index edges (Z.of_nat i);
      Ok (e_label pn_edge)
    else Ok (LStr "")
  else Raise AssertionError.

Definition triphone_step (all_edges : list edge) (edge_t : edge) (edges_tri : list edge)
    : res (list edge) :=
  if bool_decide (e_label edge_t = _SIL ∨ e_label edge_t = _EPS) then
    Ok (edges_tri ++ [edge_t])
  else
    prev_label ← _find_prev_next_edge edge_t 0 all_edges;
    next_label ← _find_prev_next_edge edge_t 1 all_edges;
    left ← atom_of_label prev_label;
    centre ← atom_of_label (e_label edge_t);
    right ← atom_of_label next_label;
    pos ← e_pos edge_t;
    Ok (edges_tri ++
          [Edge (e_from edge_t) (e_to edge_t) (LList [left; centre; right])
                (e_weight edge_t) (List5 pos)]).

Definition _triphone_acceptor_for_hmm_fsa (s : fsa) : res fsa :=
  edges_tri ← for_each (triphone_step (edges s)) (edges s) [];
  Ok (set_edges edges_tri s).

(** ** HMM: state tying *)

(** ["%s" % a] and ["%i" % a] for an element of a list label. *)
Definition fmt_s (a : atom) : string :=
  match a with
  | AStr str => str
  | AInt z => pretty z
  end.
Definition fmt_i (a : atom) : res string :=
  match a with
  | AInt z => Ok (pretty z)
  | AStr _ => Raise TypeError
  end.

(** [label[k]]. *)
Definition label_item (l : label) (k : nat) : res atom :=
  match l with
  | LList atoms =>
      match atoms !! k with Some a => Ok a | None => Raise IndexError end
  | LStr str =>
      match list_ascii_of_string str !! k with
      | Some c => Ok (AStr (String c EmptyString))
      | None => Raise IndexError
      end
  | LInt _ => Raise TypeError
  end.

Definition is_int (l : label) : bool :=
  match l with LInt _ => true | _ => false end.

Definition _build_allo_syntax_for_mapping (label : label) (pos : option string)
    : res string :=
  if is_int label then Raise AssertionError else
  allo_start ←
    (if bool_decide (label = _SIL) then Ok "[SILENCE]{#+#}"%string
     else if bool_decide (label = _EPS) then Ok "*"%string
     else
       l0 ← label_item label 0;
       l2 ← label_item label 2;
       l1 ← label_item label 1;
       if bool_decide (l0 = AStr "" ∧ l2 = AStr "") then
         Ok (fmt_s l1 +:+ "{#+#}")
       else if bool_decide (l0 = AStr "") then
         Ok (fmt_s l1 +:+ "{#+" +:+ fmt_s l2 +:+ "}")
       else if bool_decide (l2 = AStr "") then
         Ok (fmt_s l1 +:+ "{" +:+ fmt_s l0 +:+ "+#}")
       else
         Ok (fmt_s l1 +:+ "{" +:+ fmt_s l0 +:+ "+" +:+ fmt_s l2 +:+ "}"));
  let allo_middle :=
    if bool_decide (pos = Some "if"%string) then "@i@f"%string
    else if bool_decide (pos = Some "i"%string) then "@i"%string
    else if bool_decide (pos = Some "f"%string) then "@f"%string
    else ""%string in
  allo_end ←
    (if bool_decide (label = _SIL) then Ok ".0"%string
     else if bool_decide (label = _EPS) then Ok ""%string
     else l3 ← label_item label 3; d ← fmt_i l3; Ok ("." +:+ d));
  Ok (allo_start +:+ allo_middle +:+ allo_end).

Definition _load_state_tying_file (c : collaborators) : res (gmap string Z) :=
  match state_tying_file c with
  | Some allo_map => Ok allo_map
  | None => Raise AssertionError
  end.

Definition state_tying_step (allo_map : gmap string Z) (p : params) (edge_t : edge)
    (es : list edge) : res (list edge) :=
  match e_shape edge_t with
  | List5 pos =>
      let label := e_label edge_t in
      allo_syntax ← _build_allo_syntax_for_mapping label pos;
      allo_id_num ←
        (if bool_decide (label = _EPS) then Ok (LStr "*")
         else match allo_map !! allo_syntax with
              | Some k => Ok (LInt k)
              | None => Raise KeyError
              end);
      if label_conversion p then
        Ok (es ++ [Edge (e_from edge_t) (e_to edge_t) allo_id_num (e_weight edge_t) Tuple4])
      else
        Ok (es ++ [Edge (e_from edge_t) (e_to edge_t) (LStr allo_syntax) (e_weight edge_t)
                        Tuple4])
  | _ => Raise AssertionError
  end.

Definition _state_tying_for_hmm_fsa (c : collaborators) (p : params) (s : fsa) : res fsa :=
  let edges_t := edges s in
  let s := set_edges [] s in
  allo_map ← _load_state_tying_file c;
  es ← for_each (state_tying_step allo_map p) edges_t [];
  Ok (set_edges es s).

(** ** The driver *)

(** [run]; [fuel] bounds each run of the renumbering loop. *)
Definition run_hmm (c : collaborators) (fuel : nat) (p : params) (s : fsa) : res fsa :=
  s ← (if bool_decide (depth p >= 1) then _lemma_acceptor_for_hmm_fsa p s
       else Ok (set_edges [] (set_num_states 0 s)));
  s ← (if bool_decide (depth p >= 2) then
         lexicon ← _load_lexicon c;
         phon_dict ← _find_allo_seq_in_lex lexicon s;
         _phoneme_acceptor_for_hmm_fsa fuel phon_dict s
       else Ok s);
  s ← (if bool_decide (depth p >= 3) then _triphone_acceptor_for_hmm_fsa s else Ok s);
  s ← (if bool_decide (depth p >= 4) then _allophone_state_acceptor_for_hmm_fsa fuel p s
       else Ok s);
  s ← (if bool_decide (depth p >= 5) then _adds_loop_edges p s else Ok s);
  if bool_decide (depth p >= 6) then _state_tying_for_hmm_fsa c p s else Ok s.

Definition run (c : collaborators) (fuel : nat) (p : params) (s : fsa) : res fsa :=
  if bool_decide (fsa_type p = "asg") then run_asg p s
  else if bool_decide (fsa_type p = "ctc") then run_ctc p s
  else if bool_decide (fsa_type p = "hmm") then run_hmm c fuel p s
  else Raise NameError.

(** ** Module-level helpers *)

Definition _check_node_existance (node_num : Z) (edges : list edge) : bool :=
  let node_list :=
    indices_where (λ e, e_from e = node_num ∨ e_to e = node_num) edges in
  if bool_decide (0 < length node_list)%nat then true else false.

(** [word_seq] is a sequence of phoneme strings. *)
Definition _triphone_from_phon (word_seq : list string)
    : res (list (string * string * string)) :=
  for_each (λ allo_index tri_seq,
      tri_l ← (if bool_decide (allo_index ≤ 0) then Ok ""%string
               else py_index word_seq (allo_index - 1));
      tri_r ← (if bool_decide (allo_index >= Z.of_nat (length word_seq) - 1) then Ok ""%string
               else py_index word_seq (allo_index + 1));
      tri_c ← py_index word_seq allo_index;
      let tri := (tri_l, tri_c, tri_r) in
      Ok (tri_seq ++ [tri]))
    (range 0 (Z.of_nat (length word_seq))) [].

(** The defaults of [sil] and [eps] are ['sil'] and ['eps']. *)
Definition _count_all_edges_non_sil_or_eps (edges : list edge) (sil eps : label) : Z :=
  foldl (λ edges_count e,
      if bool_decide (e_label e ≠ sil ∧ e_label e ≠ eps) then edges_count + 1
      else edges_count)
    0 edges.

(** ** Vocabulary of the properties *)

(** No backward edge. *)
Definition edge_ordered (e : edge) : Prop := e_from e ≤ e_to e.

(** An edge of the renumbering's concern: start above end. *)
Definition inverted (e : edge) : Prop := e_from e > e_to e.

(** State [q] has an outgoing edge that is not a self-loop. *)
Definition has_exit (es : list edge) (q : Z) : Prop :=
  ∃ e, e ∈ es ∧ e_from e = q ∧ e_to e ≠ q.

(** The duplicate of [e] that final-state merging points at state [q]. *)
Definition retarget (q : Z) (e : edge) : edge :=
  Edge (e_from e) q (e_label e) 1 Tuple4.

(** No label equals its immediate predecessor. *)
Definition no_adjacent_repeats (l : list label) : Prop :=
  ∀ (i : nat) x y, l !! i = Some x → l !! S i = Some y → x ≠ y.

(** What the folding would have produced had it emitted the pending count. *)
Definition flushed (N : Z) (st : rep_state) : list label :=
  reps st ++ (if bool_decide (rep_count st ≠ 0) then [LInt (N + rep_count st)] else []).

(** The edges the CTC skip stage adds for position [i] of [l]. *)
Definition skip_edges_at (l : list label) (i : Z) : list edge :=
  match py_index l i, py_index l (i - 1) with
  | Ok cur, Ok prev =>
      if bool_decide (cur ≠ prev) then [Edge (2 * i) (2 * i + 2) cur 1 Tuple4] else []
  | _, _ => []
  end.

(** The edges the CTC blank stage adds for position [i] of [l]. *)
Definition blank_edges_at (l : list label) (i : Z) : list edge :=
  match py_index l i with
  | Ok cur =>
      [Edge (2 * i) (2 * i + 1) label_blank 1 Tuple4;
       Edge (2 * i + 1) (2 * i + 2) cur 1 Tuple4]
  | _ => []
  end.

(** The chain of the ASG builder for the folded sequence [w], and the
    self-loops on its states 1 to [length w]. *)
Definition asg_chain (w : list label) : list edge :=
  (λ ix : Z * label, Edge ix.1 (ix.1 + 1) ix.2 1 Tuple4) <$> enumerate w.
Definition asg_loops (w : list label) : list edge :=
  (λ ix : Z * label, Edge (ix.1 + 1) (ix.1 + 1) ix.2 0 (List5 None)) <$> enumerate w.

(** Both endpoints are states of a graph with [n] states. *)
Definition edge_in_range (n : Z) (e : edge) : Prop :=
  0 ≤ e_from e < n ∧ 0 ≤ e_to e < n.

(** A silence or epsilon edge. *)
Definition is_sil_eps (e : edge) : Prop := e_label e = _SIL ∨ e_label e = _EPS.

(** Same endpoints and weight. *)
Definition same_arc (e e' : edge) : Prop :=
  e_from e' = e_from e ∧ e_to e' = e_to e ∧ e_weight e' = e_weight e.

(** The edges the lemma acceptor adds for the word [w] at index [k]. *)
Definition lemma_edges_at (k : nat) (w : label) : list edge :=
  let a := 2 * Z.of_nat k + 1 in
  match k with
  | O => [Edge 1 2 w 0 List4;
          Edge 0 1 _SIL 0 List4; Edge 2 3 _SIL 0 List4;
          Edge 0 1 _EPS 0 List4; Edge 2 3 _EPS 0 List4]
  | S _ => [Edge a (a + 1) w 0 List4;
            Edge (a + 1) (a + 2) _SIL 0 List4; Edge (a + 1) (a + 2) _EPS 0 List4]
  end.

(** The self-loop for state [q]: label and position of the first edge of
    [es] that ends in [q] and is not labelled ["*"]; [None] without one. *)
Definition loop_edge_for (es : list edge) (q : Z) : option edge :=
  match filter (λ e, e_to e = q ∧ e_label e ≠ _EPS) es with
  | e :: _ =>
      Some (Edge q q (e_label e) 0
              (List5 (match e_pos e with Ok pos => pos | _ => None end)))
  | [] => None
  end.

(** The bound of the loop of [_adds_loop_edges]. *)
Definition countloops (p : params) (s : fsa) : Z :=
  if bool_decide (fsa_type p = "hmm") then num_states s - 1 else num_states s.



(** The word list the lemma acceptor works on. *)
Definition words (lo : lemma_t) : list label :=
  match lo with
  | LemStr str => LStr <$> split_space str
  | LemList l => l
  end.

(** Node renumbering in the words of the specification: the first edge with
    [from > to] names two identifiers, which are exchanged at every endpoint
    of every edge (labels untouched); the scan then restarts from the first
    edge, and stops when no edge is inverted. *)
Definition exchange_id (a b q : Z) : Z :=
  if bool_decide (q = a) then b else if bool_decide (q = b) then a else q.

Definition exchange_edge (a b : Z) (e : edge) : edge :=
  Edge (exchange_id a b (e_from e)) (exchange_id a b (e_to e))
       (e_label e) (e_weight e) (e_shape e).

Fixpoint spec_renumbering (fuel : nat) (es : list edge) : res (list edge) :=
  match fuel with
  | O => Timeout
  | S fuel' =>
      match list_find inverted es with
      | None => Ok es
      | Some (_, e) => spec_renumbering fuel' (exchange_edge (e_from e) (e_to e) <$> es)
      end
  end.

(** * Properties *)

(** ** Ranges, indexing, loops *)

Lemma range_empty a b : b ≤ a → range a b = [].
Proof.
  intros Hab. unfold range.
  replace (Z.to_nat (b - a)) with 0%nat by lia. reflexivity.
Qed.

Lemma range_cons a b : a < b → range a b = a :: range (a + 1) b.
Proof.
  intros Hab. unfold range.
  replace (Z.to_nat (b - a)) with (S (Z.to_nat (b - (a + 1)))) by lia.
  cbn [seq fmap list_fmap]. f_equal; [lia|].
  rewrite <- fmap_S_seq, <- list_fmap_compose.
  apply list_fmap_ext. intros _ k _. simpl. lia.
Qed.

Lemma range_snoc a b : a ≤ b → range a (b + 1) = range a b ++ [b].
Proof.
  intros Hab. unfold range.
  replace (Z.to_nat (b + 1 - a)) with (Z.to_nat (b - a) + 1)%nat by lia.
  rewrite seq_app, fmap_app. simpl. do 2 f_equal. lia.
Qed.

Lemma elem_of_range a b i : i ∈ range a b ↔ a ≤ i < b.
Proof.
  unfold range. rewrite list_elem_of_fmap. split.
  - intros (k & -> & Hk). apply elem_of_seq in Hk. lia.
  - intros Hi. exists (Z.to_nat (i - a)). split; [lia|].
    apply elem_of_seq. lia.
Qed.

Lemma length_range a b : length (range a b) = Z.to_nat (b - a).
Proof. unfold range. by rewrite length_fmap, length_seq. Qed.

Lemma py_index_lookup {A} (l : list A) (k : nat) x :
  l !! k = Some x → py_index l (Z.of_nat k) = Ok x.
Proof.
  intros Hk. pose proof (lookup_lt_Some _ _ _ Hk) as Hlt.
  unfold py_index. cbv zeta.
  rewrite (bool_decide_eq_false_2 (Z.of_nat k < 0)) by lia.
  rewrite bool_decide_eq_true_2 by lia.
  by rewrite Nat2Z.id, Hk.
Qed.

Lemma py_index_last {A} (l : list A) x :
  last l = Some x → py_index l (-1) = Ok x.
Proof.
  intros Hl. rewrite last_lookup in Hl.
  pose proof (lookup_lt_Some _ _ _ Hl) as Hlt.
  unfold py_index. cbv zeta.
  rewrite (bool_decide_eq_true_2 (-1 < 0)) by lia.
  rewrite bool_decide_eq_true_2 by lia.
  replace (Z.to_nat (Z.of_nat (length l) + -1)) with (pred (length l)) by lia.
  by rewrite Hl.
Qed.

Lemma py_index_nil {A} (i : Z) : py_index (@nil A) i = Raise IndexError.
Proof.
  unfold py_index. simpl. case_bool_decide; [|done].
  repeat case_bool_decide; done || lia.
Qed.

Lemma py_index_Ok {A} (l : list A) i x :
  py_index l i = Ok x → x ∈ l.
Proof.
  unfold py_index. case_bool_decide; [|done].
  destruct (l !! _) eqn:E; [|done]. intros [= <-].
  by eapply list_elem_of_lookup_2.
Qed.

Lemma for_each_app {X S} (body : X → S → res S) xs ys s :
  for_each body (xs ++ ys) s = (s' ← for_each body xs s; for_each body ys s').
Proof.
  revert s. induction xs as [|x xs IH]; intros s; simpl; [done|].
  destruct (body x s); simpl; auto.
Qed.

(** The indices a comprehension selects are those of the filtered elements,
    in order. *)
Lemma indices_where_lookup {A} (P : A → Prop) `{∀ x, Decision (P x)} (l : list A) :
  Forall2 (λ i x, l !! i = Some x) (indices_where P l) (filter P l).
Proof.
  unfold indices_where.
  induction l as [|x l IH] using rev_ind; [constructor|].
  rewrite imap_app, !filter_app, fmap_app. apply Forall2_app.
  - eapply Forall2_impl; [exact IH|]. intros i y Hi. simpl in Hi.
    by rewrite lookup_app_l by (by eapply lookup_lt_Some).
  - simpl. rewrite !filter_cons, !filter_nil. simpl.
    destruct (decide (P x)); simpl; constructor; [|constructor].
    rewrite Nat.add_0_r. by rewrite list_lookup_middle.
Qed.

(** [edges[idx[0]]] for a comprehension [idx] is the first match. *)
Lemma first_index_where {A} (P : A → Prop) `{∀ x, Decision (P x)} (l : list A) :
  (i ← py_index (indices_where P l) 0; py_index l (Z.of_nat i)) =
  match filter P l with
  | [] => Raise IndexError
  | x :: _ => Ok x
  end.
Proof.
  pose proof (indices_where_lookup P l) as HF.
  destruct HF as [|i x idxs xs Hi HF].
  - by rewrite py_index_nil.
  - change 0 with (Z.of_nat 0). erewrite py_index_lookup by reflexivity.
    simpl. by apply py_index_lookup.
Qed.

(** ** ASG repetition folding *)

Lemma rep_scan_app R N l1 l2 :
  rep_scan R N (l1 ++ l2) = foldl (rep_step R N) (rep_scan R N l1) l2.
Proof. apply foldl_app. Qed.

Lemma rep_step_index_old R N st x : index_old (rep_step R N st x) = Some x.
Proof. unfold rep_step. repeat case_bool_decide; done. Qed.

Lemma rep_scan_index_old R N l : index_old (rep_scan R N l) = last l.
Proof.
  induction l as [|x l _] using rev_ind; [done|].
  rewrite rep_scan_app. simpl. by rewrite rep_step_index_old, last_snoc.
Qed.

Lemma flushed_pending N rs c o :
  c ≠ 0 → flushed N (RepState rs c o) = rs ++ [LInt (N + c)].
Proof. intros Hc. unfold flushed. simpl. by rewrite bool_decide_eq_true_2. Qed.

(** A label that differs from the previous one flushes the pending count
    and is emitted itself. *)
Lemma rep_step_new R N st x :
  index_old st ≠ Some x →
  rep_step R N st x = RepState (flushed N st ++ [x]) 0 (Some x).
Proof.
  intros Hne. unfold rep_step, flushed.
  rewrite bool_decide_eq_false_2 by congruence.
  case_bool_decide as Hc; simpl; [done|].
  rewrite app_nil_r. f_equal. lia.
Qed.

(** [k >= 1] repeats after a freshly emitted label: full chunks of [R] are
    emitted only when a further repeat arrives, the rest stays pending. *)
Lemma rep_run R N x st (k : nat) :
  0 < R → index_old st = Some x → rep_count st = 0 → (1 ≤ k)%nat →
  ∃ q m, Z.of_nat k - 1 = R * q + m ∧ 0 ≤ m < R ∧ 0 ≤ q ∧
    foldl (rep_step R N) st (replicate k x) =
    RepState (reps st ++ replicate (Z.to_nat q) (LInt (N + R))) (m + 1) (Some x).
Proof.
  intros HR Hold Hrc Hk. induction k as [|k IH]; [lia|].
  destruct k as [|k].
  - exists 0, 0. repeat split; try lia. simpl. unfold rep_step.
    rewrite bool_decide_eq_true_2 by done.
    rewrite bool_decide_eq_true_2 by lia.
    rewrite app_nil_r, Hrc. done.
  - destruct IH as (q & m & Hqm & Hm & Hq & IH); [lia|].
    rewrite replicate_S_end, foldl_app, IH. simpl. unfold rep_step. simpl.
    rewrite bool_decide_eq_true_2 by done.
    destruct (decide (m + 1 < R)) as [Hlt|Hge].
    + exists q, (m + 1). repeat split; try lia.
      rewrite bool_decide_eq_true_2 by done. done.
    + exists (q + 1), 0. repeat split; try lia.
      rewrite bool_decide_eq_false_2 by done.
      rewrite bool_decide_eq_true_2 by lia.
      replace (Z.to_nat (q + 1)) with (S (Z.to_nat q)) by lia.
      rewrite replicate_S_end, app_assoc.
      replace (m + 1) with R by lia. done.
Qed.

(** C8. With [asg_repetition = 0] the folding stage leaves the object, and
    so the label sequence, as it was: the folded sequence is the input, and
    every label of the output is a label of the input, so that no synthetic
    repeat label is introduced. *)
Theorem asg_repetition_zero_is_identity (p : params) (s : fsa) :
  asg_repetition p = 0 →
  _check_for_repetitions_for_asg p s = s ∧
  fold_repetitions 0 (num_labels p) (lemma s) = lemma s ∧
  ∀ x, x ∈ lemma (_check_for_repetitions_for_asg p s) → x ∈ lemma s.
Proof.
  intros HR. unfold _check_for_repetitions_for_asg, fold_repetitions.
  rewrite HR. simpl. destruct s; auto.
Qed.

Lemma asg_repetition_zero_is_identity_witness :
  let p := Params "asg" (LemStr "aab") 0 27 false 6 3 in
  let s := Fsa 0 [] (chars "aab") [] in
  _check_for_repetitions_for_asg p s = s ∧
  fold_repetitions 0 (num_labels p) (lemma s) = lemma s ∧
  ∀ x, x ∈ lemma (_check_for_repetitions_for_asg p s) → x ∈ lemma s.
Proof. apply asg_repetition_zero_is_identity. reflexivity. Defined.

(** C10. With [asg_repetition = R > 0], take an input that ends with a run
    of [r >= 1] repeats of its last distinct label [x].  The scan finishes
    with a nonzero pending count [r - R * ((r-1)/R)], between 1 and [R], and
    the output has no label for it: after [x] come only the [(r-1)/R] full
    chunks that a later repeat pushed out.  The missing label is the one a
    further, different label would have flushed.  In particular [[a; a]]
    folds to [[a]]. *)
Theorem asg_trailing_repeats_unflushed (R N : Z) (prefix : list label) (x : label) (r : nat) :
  0 < R → last prefix ≠ Some x → (1 ≤ r)%nat →
  let input := prefix ++ x :: replicate r x in
  let q := (Z.of_nat r - 1) / R in
  let pending := Z.of_nat r - R * q in
  rep_count (rep_scan R N input) = pending ∧
  1 ≤ pending ≤ R ∧
  fold_repetitions R N input =
    flushed N (rep_scan R N prefix) ++ x :: replicate (Z.to_nat q) (LInt (N + R)) ∧
  (∀ y, y ≠ x →
     fold_repetitions R N (input ++ [y]) =
     fold_repetitions R N input ++ [LInt (N + pending); y]) ∧
  fold_repetitions R N [x; x] = [x].
Proof.
  intros HR Hlast Hr input q pending.
  assert (Hscan : rep_scan R N input =
    RepState (flushed N (rep_scan R N prefix) ++ x :: replicate (Z.to_nat q) (LInt (N + R)))
             pending (Some x) ∧ 1 ≤ pending ≤ R).
  { unfold input. rewrite rep_scan_app. simpl.
    rewrite rep_step_new by (by rewrite rep_scan_index_old).
    edestruct (rep_run R N x) as (q' & m & Hqm & Hm & Hq & ->);
      [exact HR|reflexivity|reflexivity|exact Hr|].
    assert (q' = q) as -> by (unfold q; apply Z.div_unique_pos with m; lia).
    simpl. rewrite <- app_assoc. simpl.
    unfold pending. clearbody q. split; [f_equal|]; lia. }
  destruct Hscan as [Hscan Hpend]. clearbody pending q.
  assert (Hfold : fold_repetitions R N input =
    flushed N (rep_scan R N prefix) ++ x :: replicate (Z.to_nat q) (LInt (N + R))).
  { unfold fold_repetitions. rewrite bool_decide_eq_false_2 by lia. by rewrite Hscan. }
  split; [by rewrite Hscan|]. split; [done|]. split; [done|]. split.
  - intros y Hy. rewrite Hfold. unfold fold_repetitions.
    rewrite bool_decide_eq_false_2 by lia.
    rewrite rep_scan_app, Hscan. simpl.
    rewrite rep_step_new by (simpl; congruence).
    rewrite flushed_pending by lia.
    by rewrite <- !app_assoc.
  - unfold fold_repetitions. rewrite bool_decide_eq_false_2 by lia.
    unfold rep_scan. simpl. unfold rep_step. simpl.
    rewrite bool_decide_eq_true_2 by done.
    rewrite bool_decide_eq_true_2 by lia. done.
Qed.

Lemma asg_trailing_repeats_unflushed_witness :
  let a := LStr "a" in
  let b := LStr "b" in
  rep_count (rep_scan 2 27 [b; a; a; a; a]) = 1 ∧
  fold_repetitions 2 27 [b; a; a; a; a] = [b; a; LInt 29] ∧
  fold_repetitions 2 27 [b; a; a; a; a; b] = [b; a; LInt 29; LInt 28; b] ∧
  fold_repetitions 2 27 [a; a] = [a].
Proof.
  cbv zeta.
  destruct (asg_trailing_repeats_unflushed 2 27 [LStr "b"] (LStr "a") 3)
    as (H1 & _ & H3 & H4 & H5); [lia|simpl; congruence|lia|].
  split; [exact H1|]. split; [exact H3|].
  split; [exact (H4 (LStr "b") ltac:(congruence))|exact H5].
Defined.

(** ** CTC: skip edges and blank lattice *)

Lemma py_index_nonneg {A} (l : list A) (i : Z) :
  0 ≤ i < Z.of_nat (length l) →
  ∃ x, l !! Z.to_nat i = Some x ∧ py_index l i = Ok x.
Proof.
  intros Hi. destruct (lookup_lt_is_Some_2 l (Z.to_nat i)) as [x Hx]; [lia|].
  exists x. split; [done|].
  rewrite <- (Z2Nat.id i) by lia. by apply py_index_lookup.
Qed.

Lemma set_edges_app_nil s : set_edges (edges s ++ []) s = s.
Proof. rewrite app_nil_r. by destruct s. Qed.

(** A loop whose body only appends edges, as long as the rest of the object
    stays as it is. *)
Lemma for_each_append_edges (g : Z → list edge) (body : Z → fsa → res fsa)
    (l : list label) (xs : list Z) (s : fsa) :
  (∀ x s, x ∈ xs → lemma s = l → body x s = Ok (set_edges (edges s ++ g x) s)) →
  lemma s = l →
  for_each body xs s = Ok (set_edges (edges s ++ (xs ≫= g)) s).
Proof.
  revert s. induction xs as [|x xs IH]; intros s Hbody Hl; simpl.
  - by rewrite set_edges_app_nil.
  - rewrite Hbody by (done || left). simpl.
    rewrite IH; [|intros; apply Hbody; [by right|done]|done].
    simpl. by rewrite <- app_assoc.
Qed.

Lemma ctc_skip_step_appends (i : Z) (s : fsa) :
  0 ≤ i < Z.of_nat (length (lemma s)) →
  ctc_skip_step i s = Ok (set_edges (edges s ++ skip_edges_at (lemma s) i) s).
Proof.
  intros Hi. destruct (py_index_nonneg (lemma s) i Hi) as (cur & _ & Hcur).
  assert (∃ prev, py_index (lemma s) (i - 1) = Ok prev) as [prev Hprev].
  { destruct (decide (i = 0)) as [->|Hne].
    - destruct (last (lemma s)) as [x|] eqn:E.
      + exists x. by apply py_index_last.
      + apply last_None in E. rewrite E in Hi. simpl in Hi. lia.
    - destruct (py_index_nonneg (lemma s) (i - 1)) as (x & _ & Hx); [lia|eauto]. }
  unfold ctc_skip_step, skip_edges_at. rewrite Hcur, Hprev. simpl.
  case_bool_decide; [done|]. by rewrite set_edges_app_nil.
Qed.

Lemma skip_stage_shape (s : fsa) :
  _create_states_from_label_seq_for_ctc s =
  Ok (set_edges (edges s ++
        (range 0 (Z.of_nat (length (lemma s))) ≫= skip_edges_at (lemma s))) s).
Proof.
  unfold _create_states_from_label_seq_for_ctc.
  apply for_each_append_edges with (l := lemma s); [|done].
  intros i s' Hi Hl. rewrite <- Hl. apply ctc_skip_step_appends.
  apply elem_of_range in Hi. rewrite Hl. lia.
Qed.

Lemma skip_edges_at_from l i e : e ∈ skip_edges_at l i → e_from e = 2 * i ∧ e_to e = 2 * i + 2.
Proof.
  unfold skip_edges_at. destruct (py_index l i); try by intros ?%elem_of_nil.
  destruct (py_index l (i - 1)); try by intros ?%elem_of_nil.
  case_bool_decide; [|by intros ?%elem_of_nil].
  by intros ->%list_elem_of_singleton.
Qed.

Lemma skip_edges_at_0 a rest :
  skip_edges_at (a :: rest) 0 =
  if bool_decide (last (a :: rest) ≠ Some a) then [Edge 0 2 a 1 Tuple4] else [].
Proof.
  destruct (last (a :: rest)) as [x|] eqn:E; [|by apply last_None in E].
  unfold skip_edges_at. change (0 - 1) with (-1).
  rewrite (py_index_last _ _ E).
  change 0 with (Z.of_nat 0). rewrite (py_index_lookup (a :: rest) 0 a) by done.
  simpl. destruct (decide (a = x)) as [->|Hne].
  - by rewrite !bool_decide_eq_false_2 by (intros H; by apply H).
  - by rewrite !bool_decide_eq_true_2 by congruence.
Qed.

(** C9. In the skip-edge stage the check at position 0 compares the first
    label with the last one.  For a sequence that starts with [a], the edge
    [(0, 2, a, 1.)] is among the added edges exactly when the last label
    differs from [a]; when it equals [a] (always so for a sequence of length
    one) no added edge leaves state 0. *)
Theorem ctc_skip_edge_at_position_0 (s : fsa) (a : label) (rest : list label) :
  lemma s = a :: rest →
  ∃ added,
    _create_states_from_label_seq_for_ctc s = Ok (set_edges (edges s ++ added) s) ∧
    (Edge 0 2 a 1 Tuple4 ∈ added ↔ last (a :: rest) ≠ Some a) ∧
    (last (a :: rest) = Some a → ∀ e, e ∈ added → e_from e ≠ 0) ∧
    (rest = [] → added = []).
Proof.
  intros Hl. eexists. split; [apply skip_stage_shape|].
  rewrite Hl. set (n := Z.of_nat (length (a :: rest))).
  assert (Hn : 0 < n) by (unfold n; simpl; lia).
  rewrite (range_cons 0 n Hn), bind_cons, skip_edges_at_0.
  assert (Htail : ∀ e, e ∈ range (0 + 1) n ≫= skip_edges_at (a :: rest) → e_from e ≠ 0).
  { intros e (i & He & Hi)%list_elem_of_bind.
    apply skip_edges_at_from in He as [-> _]. apply elem_of_range in Hi. lia. }
  split; [|split].
  - rewrite elem_of_app. case_bool_decide as Hc; split.
    + done.
    + intros _. left. by left.
    + intros [[]%elem_of_nil|He]. by apply Htail in He.
    + done.
  - intros Hlast e. rewrite bool_decide_eq_false_2 by (intros ?; done).
    simpl. apply Htail.
  - intros ->. rewrite bool_decide_eq_false_2 by (intros ?; done).
    reflexivity.
Qed.

Lemma ctc_skip_edge_at_position_0_witness :
  let s := Fsa 3 [] (chars "a") [] in
  ∃ added,
    _create_states_from_label_seq_for_ctc s = Ok (set_edges (edges s ++ added) s) ∧
    (Edge 0 2 (LStr "a") 1 Tuple4 ∈ added ↔ last [LStr "a"] ≠ Some (LStr "a")) ∧
    (last [LStr "a"] = Some (LStr "a") → ∀ e, e ∈ added → e_from e ≠ 0) ∧
    (@nil label = [] → added = []).
Proof.
  exact (ctc_skip_edge_at_position_0 (Fsa 3 [] (chars "a") []) (LStr "a") [] eq_refl).
Defined.

Lemma ctc_blank_step_appends (i k : Z) (s : fsa) :
  0 ≤ i < Z.of_nat (length (lemma s)) →
  ctc_blank_step i (k, s) =
  Ok (2 * i + 1, set_edges (edges s ++ blank_edges_at (lemma s) i) s).
Proof.
  intros Hi. destruct (py_index_nonneg (lemma s) i Hi) as (cur & _ & Hcur).
  unfold ctc_blank_step, blank_edges_at. simpl. rewrite Hcur. simpl.
  unfold append_edge, set_edges. simpl. rewrite <- app_assoc. simpl.
  replace (2 * i + 1 - 1) with (2 * i) by lia.
  by replace (2 * i + 1 + 1) with (2 * i + 2) by lia.
Qed.

Lemma blank_loop_shape (l : list label) (xs : list Z) (k : Z) (s : fsa) :
  lemma s = l →
  (∀ i, i ∈ xs → 0 ≤ i < Z.of_nat (length l)) →
  for_each ctc_blank_step xs (k, s) =
  Ok (default k ((λ i, 2 * i + 1) <$> last xs),
      set_edges (edges s ++ (xs ≫= blank_edges_at l)) s).
Proof.
  revert k s. induction xs as [|x xs IH]; intros k s Hl Hxs; simpl.
  - by rewrite set_edges_app_nil.
  - rewrite ctc_blank_step_appends by (rewrite Hl; apply Hxs; left). simpl.
    rewrite IH; [|done|intros; apply Hxs; by right]. simpl.
    rewrite Hl, <- app_assoc. f_equal. f_equal.
    rewrite (last_cons x xs). by destruct (last xs).
Qed.

Lemma last_range a b : a < b → last (range a b) = Some (b - 1).
Proof.
  intros Hab. replace b with (b - 1 + 1) at 1 by lia.
  rewrite range_snoc by lia. apply last_snoc.
Qed.

Lemma blank_stage_shape (s : fsa) :
  let n := Z.of_nat (length (lemma s)) in
  _adds_blank_states_for_ctc s =
  Ok (Fsa (num_states s)
          (edges s ++ (range 0 n ≫= blank_edges_at (lemma s)))
          (lemma s)
          (final_states s ++ [if bool_decide (n = 0) then 1 else 2 * n])).
Proof.
  intros n. unfold _adds_blank_states_for_ctc. fold n.
  rewrite (blank_loop_shape (lemma s)); [|done|by intros i ?%elem_of_range].
  simpl. unfold set_final_states. simpl. do 3 f_equal.
  assert (0 ≤ n) by apply Nat2Z.is_nonneg. clearbody n.
  case_bool_decide as Hn.
  - rewrite Hn. by rewrite range_empty.
  - rewrite last_range by lia. cbn [fmap option_fmap option_map default].
    unfold id. f_equal. lia.
Qed.

Lemma length_bind_const {A B} (g : A → list B) (c : nat) (xs : list A) :
  (∀ x, x ∈ xs → length (g x) = c) → length (xs ≫= g) = (c * length xs)%nat.
Proof.
  induction xs as [|x xs IH]; intros Hg; [simpl; lia|].
  rewrite bind_cons, length_app, Hg by left.
  rewrite IH by (intros; apply Hg; by right). simpl. lia.
Qed.

Lemma blank_edges_at_length l i :
  0 ≤ i < Z.of_nat (length l) → length (blank_edges_at l i) = 2%nat.
Proof.
  intros Hi. destruct (py_index_nonneg l i Hi) as (cur & _ & Hcur).
  unfold blank_edges_at. by rewrite Hcur.
Qed.

Lemma skip_edges_at_length l i :
  no_adjacent_repeats l → 1 ≤ i < Z.of_nat (length l) →
  length (skip_edges_at l i) = 1%nat.
Proof.
  intros Hl Hi.
  destruct (py_index_nonneg l i) as (cur & Hc & Hcur); [lia|].
  destruct (py_index_nonneg l (i - 1)) as (prev & Hp & Hprev); [lia|].
  unfold skip_edges_at. rewrite Hcur, Hprev.
  rewrite bool_decide_eq_true_2; [done|].
  intros ->. eapply (Hl (Z.to_nat (i - 1))); [exact Hp| |reflexivity].
  replace (S (Z.to_nat (i - 1))) with (Z.to_nat i) by lia. exact Hc.
Qed.

(** The object when [_adds_last_state_for_ctc] is about to run. *)
Lemma ctc_lattice_shape (p : params) (s0 s1 : fsa) :
  load_lemma p s0 = Ok s1 →
  let l := lemma s1 in
  let n := Z.of_nat (length l) in
  ctc_lattice p s0 =
  Ok (Fsa (2 * (n + 1) - 1)
          ((range 0 n ≫= skip_edges_at l) ++ (range 0 n ≫= blank_edges_at l))
          l
          [if bool_decide (n = 0) then 1 else 2 * n]).
Proof.
  intros Hload l n. unfold ctc_lattice. rewrite Hload. simpl.
  rewrite skip_stage_shape. simpl. rewrite blank_stage_shape. simpl. done.
Qed.

Lemma last_stage_shape (s : fsa) (x : label) :
  last (lemma s) = Some x →
  let i := num_states s in
  _adds_last_state_for_ctc s =
  Ok (Fsa (i + 3)
          (edges s ++ [Edge (i - 3) i label_blank 1 Tuple4;
                       Edge i (i + 1) x 1 Tuple4;
                       Edge (i + 1) (i + 2) label_blank 1 Tuple4])
          (lemma s)
          (final_states s ++ [i + 3 - 1])).
Proof.
  intros Hx i. unfold _adds_last_state_for_ctc. simpl.
  rewrite (py_index_last _ _ Hx). simpl.
  unfold set_final_states, append_edge, set_edges, set_num_states. simpl.
  by rewrite <- !app_assoc.
Qed.

(** C6, as the code has it. For a sequence of [n >= 1] labels without
    adjacent repeats, [num_states] is [2*(n+1) - 1] from the allocation up to
    the three-state extension; the edge count at that point is [3*n] when the
    first label differs from the last and [3*n - 1] when they are equal (the
    check at position 0 wraps around); the extension then adds exactly three
    states. *)
Theorem ctc_counts_before_extension (p : params) (s0 s1 : fsa) :
  load_lemma p s0 = Ok s1 →
  lemma s1 ≠ [] →
  no_adjacent_repeats (lemma s1) →
  let l := lemma s1 in
  let n := Z.of_nat (length l) in
  ∃ s s',
    ctc_lattice p s0 = Ok s ∧
    num_states s = 2 * (n + 1) - 1 ∧
    Z.of_nat (length (edges s)) =
      (if bool_decide (head l = last l) then 3 * n - 1 else 3 * n) ∧
    _adds_last_state_for_ctc s = Ok s' ∧
    num_states s' = num_states s + 3.
Proof.
  intros Hload Hne Hadj l n.
  destruct (lemma s1) as [|a rest] eqn:El; [done|].
  assert (Hlast : ∃ x, last l = Some x).
  { destruct (last l) eqn:E; [eauto|]. by apply last_None in E. }
  destruct Hlast as [x Hx].
  eexists _, _. split; [by apply (ctc_lattice_shape p s0 s1)|].
  rewrite El. fold l n. split; [done|]. split; [|split].
  - cbn [edges]. rewrite length_app.
    rewrite (length_bind_const (blank_edges_at l) 2);
      [|intros i ?%elem_of_range; by apply blank_edges_at_length].
    assert (Hn : 0 < n) by (unfold n, l; simpl; lia).
    rewrite (range_cons 0 n Hn), bind_cons, length_app.
    rewrite (length_bind_const (skip_edges_at l) 1);
      [|intros i ?%elem_of_range; apply skip_edges_at_length; [done|lia]].
    rewrite !length_range. unfold l at 1. rewrite skip_edges_at_0. fold l.
    rewrite Hx. change (head l) with (Some a).
    destruct (decide (x = a)) as [->|Hxa].
    + rewrite bool_decide_eq_false_2 by (intros H; by apply H).
      rewrite bool_decide_eq_true_2 by done. simpl length.
      rewrite ?length_range. lia.
    + rewrite bool_decide_eq_true_2 by congruence.
      rewrite bool_decide_eq_false_2 by congruence. simpl length.
      rewrite ?length_range. lia.
  - apply last_stage_shape with (x := x). exact Hx.
  - done.
Qed.

Lemma ctc_counts_before_extension_witness :
  let p := Params "ctc" (LemStr "ab") 2 256 false 6 3 in
  ∃ s s',
    ctc_lattice p fsa_init = Ok s ∧
    num_states s = 5 ∧
    Z.of_nat (length (edges s)) = 6 ∧
    _adds_last_state_for_ctc s = Ok s' ∧
    num_states s' = num_states s + 3.
Proof.
  intros p.
  refine (ctc_counts_before_extension p fsa_init (set_lemma (chars "ab") fsa_init)
            eq_refl _ _).
  - simpl. discriminate.
  - intros [|[|i]] x y Hx Hy; simpl in *; congruence.
Defined.

(** C6, as stated, fails on ["ab"]: before the extension there are six
    edges, not [2*(n+1) - 1 = 5]. *)
Lemma ctc_edge_count_formula_counterexample :
  ¬ (∀ s, ctc_lattice (Params "ctc" (LemStr "ab") 2 256 false 6 3) fsa_init = Ok s →
          num_states s = 2 * (2 + 1) - 1 ∧
          Z.of_nat (length (edges s)) = 2 * (2 + 1) - 1).
Proof.
  intros H.
  pose proof (H _ ltac:(vm_compute; reflexivity)) as [_ Hc].
  vm_compute in Hc. discriminate.
Qed.

(** ** Final-state merging *)

Lemma filter_none {A} (P : A → Prop) `{∀ x, Decision (P x)} (l : list A) :
  Forall (λ x, ¬ P x) l → filter P l = [].
Proof.
  induction 1 as [|x l Hx _ IH]; [done|]. by rewrite filter_cons_False.
Qed.

Lemma merge_edge_step_lookup (s : fsa) (i : nat) (e : edge) :
  edges s !! i = Some e →
  merge_edge_step i s = Ok (append_edge (retarget (num_states s - 1) e) s).
Proof. intros Hi. unfold merge_edge_step. by rewrite (py_index_lookup _ _ _ Hi). Qed.

Lemma merge_edges_loop (es0 : list edge) (idxs : list nat) (sel : list edge) :
  Forall2 (λ i e, es0 !! i = Some e) idxs sel →
  ∀ s acc, edges s = es0 ++ acc →
    for_each merge_edge_step idxs s =
    Ok (set_edges (edges s ++ (retarget (num_states s - 1) <$> sel)) s).
Proof.
  induction 1 as [|i e idxs sel Hi _ IH]; intros s acc Hs.
  - simpl. by rewrite set_edges_app_nil.
  - cbn [for_each].
    rewrite (merge_edge_step_lookup s i e)
      by (rewrite Hs; by apply lookup_app_l_Some).
    simpl. rewrite (IH _ (acc ++ [retarget (num_states s - 1) e]))
      by (simpl; by rewrite Hs, <- app_assoc).
    simpl. by rewrite <- app_assoc.
Qed.

Lemma merge_fstate_step_shape (fstate : Z) (s : fsa) :
  merge_fstate_step fstate s =
  Ok (set_edges (edges s ++ (retarget (num_states s - 1) <$>
                               filter (λ e, e_to e = fstate) (edges s))) s).
Proof.
  unfold merge_fstate_step.
  apply merge_edges_loop with (es0 := edges s) (acc := []).
  - apply indices_where_lookup.
  - by rewrite app_nil_r.
Qed.

(** The merging loop always completes and only appends. *)
Lemma merge_loop_appends (fs : list Z) (s : fsa) :
  ∃ added, for_each merge_fstate_step fs s = Ok (set_edges (edges s ++ added) s).
Proof.
  revert s. induction fs as [|f fs IH]; intros s; simpl.
  - exists []. by rewrite set_edges_app_nil.
  - rewrite merge_fstate_step_shape. simpl.
    edestruct IH as [added ->]. simpl. rewrite <- app_assoc. eauto.
Qed.

(** When no former final state is the new one, each of them contributes the
    duplicates of the original edges that end in it. *)
Lemma merge_loop_shape (q : Z) (fs : list Z) (es acc : list edge) (s : fsa) :
  num_states s - 1 = q → edges s = es ++ acc →
  Forall (λ e, e_to e = q) acc → Forall (λ f, f ≠ q) fs →
  for_each merge_fstate_step fs s =
  Ok (set_edges (es ++ acc ++
        (fs ≫= λ f, retarget q <$> filter (λ e, e_to e = f) es)) s).
Proof.
  intros Hq. revert acc s Hq.
  induction fs as [|f fs IH]; intros acc s Hq Hs Hacc Hfs; simpl.
  - rewrite app_nil_r, <- Hs. by destruct s.
  - apply Forall_cons in Hfs as [Hf Hfs].
    rewrite merge_fstate_step_shape. simpl.
    assert (Hfil : filter (λ e, e_to e = f) (edges s) = filter (λ e, e_to e = f) es).
    { rewrite Hs, filter_app. rewrite (filter_none _ acc), app_nil_r; [done|].
      eapply Forall_impl; [exact Hacc|]. simpl. intros e He1 He2. congruence. }
    rewrite Hfil, Hq, Hs.
    rewrite (IH (acc ++ (retarget q <$> filter (λ e, e_to e = f) es))).
    + simpl. by rewrite <- !app_assoc.
    + done.
    + simpl. by rewrite <- app_assoc.
    + apply Forall_app. split; [done|]. by apply Forall_fmap, Forall_true.
    + done.
Qed.

Lemma filter_elem_of_cons (f : Z) (fs : list Z) (es : list edge) :
  f ∉ fs →
  filter (λ e, e_to e ∈ f :: fs) es ≡ₚ
  filter (λ e, e_to e = f) es ++ filter (λ e, e_to e ∈ fs) es.
Proof.
  intros Hf. induction es as [|e es IH]; [done|].
  rewrite !filter_cons.
  destruct (decide (e_to e = f)) as [He|He].
  - rewrite decide_True by (rewrite He; left).
    rewrite decide_False by (by rewrite He). simpl. by f_equiv.
  - destruct (decide (e_to e ∈ fs)) as [Hin|Hin].
    + rewrite decide_True by (by right).
      rewrite <- Permutation_middle. by f_equiv.
    + rewrite decide_False; [done|].
      intros [?|?]%elem_of_cons; done.
Qed.

Lemma merged_edges_perm (q : Z) (fs : list Z) (es : list edge) :
  NoDup fs →
  (fs ≫= λ f, retarget q <$> filter (λ e, e_to e = f) es) ≡ₚ
  retarget q <$> filter (λ e, e_to e ∈ fs) es.
Proof.
  induction 1 as [|f fs Hf _ IH].
  - simpl. rewrite (filter_none _ es); [done|].
    apply Forall_forall. intros e _ []%elem_of_nil.
  - rewrite bind_cons, IH, filter_elem_of_cons by done.
    by rewrite fmap_app.
Qed.

Lemma nothing_to_change_decides (s : fsa) :
  (if bool_decide (length (final_states s) = 1%nat) then
     f ← py_index (final_states s) 0;
     Ok (bool_decide (f = num_states s - 1))
   else Ok false) =
  Ok (bool_decide (final_states s = [num_states s - 1])).
Proof.
  destruct (final_states s) as [|f [|g fs]]; cbn [length].
  - rewrite (bool_decide_eq_false_2 (0%nat = 1%nat)) by done.
    by rewrite bool_decide_eq_false_2.
  - rewrite (bool_decide_eq_true_2 (1%nat = 1%nat)) by done.
    change (py_index [f] 0) with (Ok f). simpl. f_equal.
    apply bool_decide_ext. split; [by intros ->|by intros [= ->]].
  - rewrite (bool_decide_eq_false_2 (S (S (length fs)) = 1%nat)) by done.
    by rewrite bool_decide_eq_false_2.
Qed.

Lemma make_single_final_state_noop (s : fsa) :
  final_states s = [num_states s - 1] → _make_single_final_state s = Ok s.
Proof.
  intros Hfs. unfold _make_single_final_state.
  rewrite nothing_to_change_decides. simpl. by rewrite bool_decide_eq_true_2.
Qed.

Lemma make_single_final_state_merges (s : fsa) :
  final_states s ≠ [num_states s - 1] →
  ∃ added,
    _make_single_final_state s =
      Ok (Fsa (num_states s + 1) (edges s ++ added) (lemma s) (final_states s)) ∧
    (NoDup (final_states s) →
     Forall (λ f, 0 ≤ f < num_states s) (final_states s) →
     added = (final_states s ≫= λ f,
                retarget (num_states s) <$> filter (λ e, e_to e = f) (edges s)) ∧
     added ≡ₚ retarget (num_states s) <$>
                filter (λ e, e_to e ∈ final_states s) (edges s)).
Proof.
  intros Hfs. unfold _make_single_final_state.
  rewrite nothing_to_change_decides. simpl.
  rewrite bool_decide_eq_false_2 by done.
  set (s1 := set_num_states (num_states s + 1) s).
  destruct (merge_loop_appends (final_states s1) s1) as [added Hadded].
  exists added. split; [exact Hadded|].
  intros Hnd Hrange.
  assert (Hloop := merge_loop_shape (num_states s) (final_states s1) (edges s) [] s1).
  rewrite Hadded in Hloop. simpl in Hloop.
  assert (added = (final_states s ≫= λ f,
            retarget (num_states s) <$> filter (λ e, e_to e = f) (edges s))) as ->.
  { specialize (Hloop ltac:(lia) ltac:(by rewrite app_nil_r) ltac:(constructor)).
    assert (Forall (λ f, f ≠ num_states s) (final_states s)) as Hne
      by (eapply Forall_impl; [exact Hrange|]; simpl; lia).
    specialize (Hloop Hne). injection Hloop as Hloop.
    by apply app_inv_head in Hloop. }
  split; [done|]. by apply merged_edges_perm.
Qed.

(** C3. Final-state merging is a no-op exactly when the list of final
    states is the single state [num_states - 1].  Otherwise it completes,
    [num_states] grows by one, the old edge list is a prefix of the new one,
    and - the final states being distinct states of the graph - the appended
    edges are, for every edge that ends in a final state, one duplicate with
    the same start and label that ends in the new state (the old
    [num_states]). *)
Theorem final_state_merging_contract (s : fsa) :
  (final_states s = [num_states s - 1] → _make_single_final_state s = Ok s) ∧
  (final_states s ≠ [num_states s - 1] →
   ∃ added,
     _make_single_final_state s =
       Ok (Fsa (num_states s + 1) (edges s ++ added) (lemma s) (final_states s)) ∧
     (NoDup (final_states s) →
      Forall (λ f, 0 ≤ f < num_states s) (final_states s) →
      added = (final_states s ≫= λ f,
                 retarget (num_states s) <$> filter (λ e, e_to e = f) (edges s)) ∧
      added ≡ₚ retarget (num_states s) <$>
                 filter (λ e, e_to e ∈ final_states s) (edges s))).
Proof.
  split; [apply make_single_final_state_noop|apply make_single_final_state_merges].
Qed.

Lemma final_state_merging_contract_witness :
  let e a b l := Edge a b (LStr l) 1 Tuple4 in
  let s := Fsa 7 [e 0 3 "a"; e 3 5 "b"; e 2 5 "c"; e 5 6 "d"] [] [3; 5] in
  ∃ added,
    _make_single_final_state s =
      Ok (Fsa 8 (edges s ++ added) [] [3; 5]) ∧
    added = [e 0 7 "a"; e 3 7 "b"; e 2 7 "c"] ∧
    added ≡ₚ retarget 7 <$> filter (λ e, e_to e ∈ [3; 5]) (edges s).
Proof.
  intros e s.
  destruct (proj2 (final_state_merging_contract s)) as (added & H1 & H2);
    [simpl; congruence|].
  exists added. split; [exact H1|].
  apply H2.
  - simpl. apply NoDup_cons. split; [by intros [= ]%list_elem_of_singleton|].
    apply NoDup_singleton.
  - simpl. repeat constructor; lia.
Defined.

(** ** HMM: lemma acceptor *)

(** One word at position [k]: the word edge and its silence/epsilon pairs;
    the first word also gets the leading pair. *)
Lemma lemma_word_step_shape (k : nat) (w : label) (s : fsa) :
  lemma s !! k = Some w → is_str w →
  ∃ es,
    lemma_word_step [_SIL; _EPS] (Z.of_nat k) s =
      Ok (Fsa (num_states s + (if k is O then 4 else 2)) (edges s ++ es)
              (lemma s) (final_states s)) ∧
    length es = (if k is O then 5 else 3)%nat ∧
    (k = O → es = [Edge 1 2 w 0 List4;
                   Edge 0 1 _SIL 0 List4; Edge 2 3 _SIL 0 List4;
                   Edge 0 1 _EPS 0 List4; Edge 2 3 _EPS 0 List4]).
Proof.
  intros Hw Hstr. unfold lemma_word_step.
  rewrite (py_index_lookup _ _ _ Hw). simpl.
  destruct (is_str w); [|done]. destruct k as [|k].
  - eexists. split; [|split; [|done]].
    + simpl. unfold lemma_epsil_step, append_edge, set_edges, set_num_states. simpl.
      rewrite <- !app_assoc. simpl. do 2 f_equal. lia.
    + done.
  - eexists. split; [|split; [|lia]].
    + cbn [foldl]. unfold lemma_epsil_step.
      rewrite !(bool_decide_eq_false_2 (Z.of_nat (S k) = 0)) by lia.
      unfold append_edge, set_edges, set_num_states. cbn [edges num_states lemma final_states].
      rewrite <- !app_assoc. cbn [app]. do 2 f_equal. lia.
    + done.
Qed.

Lemma lemma_loop_shape (ws : list label) (s : fsa) (k : nat) :
  lemma s = ws → Forall is_str ws → (k ≤ length ws)%nat →
  ∃ es,
    for_each (lemma_word_step [_SIL; _EPS]) (range 0 (Z.of_nat k)) s =
      Ok (Fsa (num_states s + (if k is O then 0 else 2 * Z.of_nat k + 2))
              (edges s ++ es) ws (final_states s)) ∧
    length es = (if k is O then 0 else 3 * k + 2)%nat.
Proof.
  intros Hl Hstr. induction k as [|k IH]; intros Hk.
  - exists []. split; [|done]. simpl. rewrite app_nil_r, Z.add_0_r, <- Hl. by destruct s.
  - destruct IH as (es & Hes & Hlen); [lia|].
    replace (Z.of_nat (S k)) with (Z.of_nat k + 1) by lia.
    rewrite range_snoc, for_each_app, Hes by lia. cbn [mbind res_bind for_each].
    destruct (lookup_lt_is_Some_2 ws k) as [w Hw]; [lia|].
    edestruct (lemma_word_step_shape k w) as (es' & -> & Hlen' & _).
    { exact Hw. }
    { by eapply (Forall_lookup_1 _ _ _ _ Hstr). }
    cbn [mbind res_bind num_states edges lemma final_states].
    exists (es ++ es'). split.
    + rewrite <- app_assoc. do 2 f_equal. destruct k; lia.
    + rewrite length_app, Hlen, Hlen'. destruct k; lia.
Qed.

(** C5, as the code has it. At depth 1, on a non-empty list of words, the
    pipeline ends after the lemma acceptor with [num_states = 2*len + 2] and
    [3*len + 2] edges; for a single word the edges are the word edge from 1
    to 2, the pair of silence and epsilon edges from 0 to 1 and the pair from
    2 to 3. *)
Theorem hmm_depth1_lemma_acceptor
    (c : collaborators) (fuel : nat) (p : params) (s0 : fsa) (ws : list label) :
  fsa_type p = "hmm" → depth p = 1 → lemma_orig p = LemList ws →
  ws ≠ [] → Forall is_str ws →
  ∃ s,
    run c fuel p s0 = Ok s ∧
    num_states s = 2 * Z.of_nat (length ws) + 2 ∧
    Z.of_nat (length (edges s)) = 3 * Z.of_nat (length ws) + 2 ∧
    (∀ w, ws = [w] →
       edges s = [Edge 1 2 w 0 List4;
                  Edge 0 1 _SIL 0 List4; Edge 2 3 _SIL 0 List4;
                  Edge 0 1 _EPS 0 List4; Edge 2 3 _EPS 0 List4]).
Proof.
  intros Hty Hd Hlo Hne Hstr. unfold run, run_hmm. rewrite Hty, Hd.
  rewrite (bool_decide_eq_false_2 ("hmm" = "asg")) by done.
  rewrite (bool_decide_eq_false_2 ("hmm" = "ctc")) by done.
  rewrite (bool_decide_eq_true_2 ("hmm" = "hmm")) by done.
  rewrite (bool_decide_eq_true_2 (1 >= 1)) by lia.
  rewrite !(bool_decide_eq_false_2 (1 >= _)) by lia.
  unfold _lemma_acceptor_for_hmm_fsa. rewrite Hlo. cbn [lemma set_lemma].
  set (s1 := set_lemma ws _).
  destruct (lemma_loop_shape ws s1 (length ws)) as (es & Hes & Hlen); [done..|].
  rewrite Hes. cbn [mbind res_bind]. eexists. split; [done|].
  destruct ws as [|w0 ws]; [done|].
  cbn [num_states edges set_lemma set_num_states set_edges length app] in *.
  change (num_states s1) with 0 in *. change (edges s1) with (@nil edge) in *.
  cbn [app] in *.
  split; [lia|]. split; [lia|].
  intros w [= -> ->].
  destruct (lemma_word_step_shape 0 w s1) as (es' & Hes' & _ & Hshape);
    [reflexivity|by inversion Hstr|].
  change (range 0 (Z.of_nat (S (length [])))) with [0] in Hes.
  cbn [for_each] in Hes. change (Z.of_nat 0) with 0 in Hes'. rewrite Hes' in Hes.
  cbn [mbind res_bind] in Hes. injection Hes as Hes.
  rewrite <- Hes. change (edges s1) with (@nil edge). by rewrite (Hshape eq_refl).
Qed.

Lemma hmm_depth1_lemma_acceptor_witness :
  ∃ s,
    run (Collaborators None None) 0
      (Params "hmm" (LemList [LStr "cat"]) 2 256 false 1 3) fsa_init = Ok s ∧
    num_states s = 4 ∧
    Z.of_nat (length (edges s)) = 5 ∧
    (∀ w, [LStr "cat"] = [w] →
       edges s = [Edge 1 2 w 0 List4;
                  Edge 0 1 _SIL 0 List4; Edge 2 3 _SIL 0 List4;
                  Edge 0 1 _EPS 0 List4; Edge 2 3 _EPS 0 List4]).
Proof.
  refine (hmm_depth1_lemma_acceptor (Collaborators None None) 0
            (Params "hmm" (LemList [LStr "cat"]) 2 256 false 1 3) fsa_init
            [LStr "cat"] eq_refl eq_refl eq_refl _ _).
  - discriminate.
  - repeat constructor.
Defined.

(** C5, as stated, fails: for the one-word sequence [["cat"]] the depth-1
    pipeline ends with [num_states = 4], not [2*len + 1 = 3]. *)
Lemma hmm_depth1_num_states_counterexample :
  ¬ (∀ s,
       run (Collaborators None None) 0
         (Params "hmm" (LemList [LStr "cat"]) 2 256 false 1 3) fsa_init = Ok s →
       num_states s = 2 * Z.of_nat (length [LStr "cat"]) + 1).
Proof.
  intros H.
  pose proof (H _ ltac:(vm_compute; reflexivity)) as Hc.
  vm_compute in Hc. discriminate.
Qed.

(** ** Node renumbering *)

(** More fuel does not change a result that was reached. *)
Lemma sort_loop_more_fuel (fuel k : nat) (idx : Z) (es r : list edge) :
  sort_loop fuel idx es = Ok r → sort_loop (fuel + k) idx es = Ok r.
Proof.
  revert idx es. induction fuel as [|fuel IH]; intros idx es; [done|].
  cbn [sort_loop Nat.add]. case_bool_decide; [|done].
  destruct (py_index es idx) as [cur| |]; cbn [mbind res_bind]; [|done..].
  case_bool_decide; [|apply IH].
  destruct (assign_all _ _ es) as [es1| |]; cbn [mbind res_bind]; [|done..].
  destruct (assign_all _ _ es1) as [es2| |]; cbn [mbind res_bind]; [|done..].
  apply IH.
Qed.

Lemma spec_renumbering_more_fuel (fuel k : nat) (es r : list edge) :
  spec_renumbering fuel es = Ok r → spec_renumbering (fuel + k) es = Ok r.
Proof.
  revert es. induction fuel as [|fuel IH]; intros es; [done|].
  cbn [spec_renumbering Nat.add].
  destruct (list_find inverted es) as [[i e]|]; [apply IH|done].
Qed.

(** C2 (the code departs from the procedure). On edges [1 -> 2, 3 -> 1] the
    loop exchanges 3 and 1 and resumes at the second edge: it returns
    [3 -> 2, 1 -> 3], whose first edge is inverted, where the procedure of
    the specification goes on to [2 -> 3, 1 -> 2].  On [2 -> 2, 2 -> 1] the
    self-loop keeps both endpoints and has its label overwritten by the node
    number 1, where the procedure relabels it to [1 -> 1] and keeps the
    label. *)
Theorem sort_node_num_departs_from_exchange_procedure (fuel : nat) :
  let e a b l := Edge a b (LStr l) 0 (List5 (Some "")) in
  _sort_node_num (4 + fuel) [e 1 2 "a"; e 3 1 "b"] = Ok [e 3 2 "a"; e 1 3 "b"] ∧
  Exists inverted [e 3 2 "a"; e 1 3 "b"] ∧
  spec_renumbering (4 + fuel) [e 1 2 "a"; e 3 1 "b"] = Ok [e 2 3 "a"; e 1 2 "b"] ∧
  _sort_node_num (4 + fuel) [e 2 2 "x"; e 2 1 "y"] =
    Ok [Edge 2 2 (LInt 1) 0 (List5 (Some "")); e 1 2 "y"] ∧
  spec_renumbering (4 + fuel) [e 2 2 "x"; e 2 1 "y"] = Ok [e 1 1 "x"; e 1 2 "y"].
Proof.
  intros e. split; [|split; [|split; [|split]]].
  - apply sort_loop_more_fuel. vm_compute. reflexivity.
  - apply Exists_cons_hd. unfold inverted. simpl. lia.
  - apply spec_renumbering_more_fuel. vm_compute. reflexivity.
  - apply sort_loop_more_fuel. vm_compute. reflexivity.
  - apply spec_renumbering_more_fuel. vm_compute. reflexivity.
Qed.

(** C7 (the code is not idempotent). The output [3 -> 2, 1 -> 3] of the
    first run on [1 -> 2, 3 -> 1] still has an inverted first edge; a second
    run exchanges 3 and 2 and returns [2 -> 3, 1 -> 2]. *)
Theorem sort_node_num_second_run_relabels (fuel : nat) :
  let e a b l := Edge a b (LStr l) 0 (List5 (Some "")) in
  _sort_node_num (4 + fuel) [e 1 2 "a"; e 3 1 "b"] = Ok [e 3 2 "a"; e 1 3 "b"] ∧
  _sort_node_num (4 + fuel) [e 3 2 "a"; e 1 3 "b"] = Ok [e 2 3 "a"; e 1 2 "b"] ∧
  [e 2 3 "a"; e 1 2 "b"] ≠ [e 3 2 "a"; e 1 3 "b"].
Proof.
  intros e. split; [|split].
  - apply sort_loop_more_fuel. vm_compute. reflexivity.
  - apply sort_loop_more_fuel. vm_compute. reflexivity.
  - unfold e. congruence.
Qed.

(** A graph with a two-node cycle keeps the loop busy for ever: every
    exchange inverts the other edge of the cycle. *)
Lemma sort_node_num_cycle_diverges (fuel : nat) :
  let e a b l := Edge a b (LStr l) 0 (List5 (Some "")) in
  _sort_node_num fuel [e 0 1 "x"; e 1 2 "y"; e 2 1 "z"] = Timeout.
Proof.
  intros e. unfold _sort_node_num.
  assert (H : ∀ f,
    sort_loop f 0 [e 0 1 "x"; e 1 2 "y"; e 2 1 "z"] = Timeout ∧
    sort_loop f 1 [e 0 1 "x"; e 1 2 "y"; e 2 1 "z"] = Timeout ∧
    sort_loop f 2 [e 0 1 "x"; e 1 2 "y"; e 2 1 "z"] = Timeout ∧
    sort_loop f 1 [e 0 2 "x"; e 2 1 "y"; e 1 2 "z"] = Timeout).
  { induction f as [|f (H0 & H1 & H2 & H3)]; [done|].
    split; [|split; [|split]].
    - transitivity (sort_loop f 1 [e 0 1 "x"; e 1 2 "y"; e 2 1 "z"]); [|done].
      reflexivity.
    - transitivity (sort_loop f 2 [e 0 1 "x"; e 1 2 "y"; e 2 1 "z"]); [|done].
      reflexivity.
    - transitivity (sort_loop f 1 [e 0 2 "x"; e 2 1 "y"; e 1 2 "z"]); [|done].
      vm_compute. reflexivity.
    - transitivity (sort_loop f 1 [e 0 1 "x"; e 1 2 "y"; e 2 1 "z"]); [|done].
      vm_compute. reflexivity. }
  apply H.
Qed.

(** ** HMM: allophone-state acceptor *)

Lemma allophone_more_fuel (fuel k : nat) (p : params) (s r : fsa) :
  _allophone_state_acceptor_for_hmm_fsa fuel p s = Ok r →
  _allophone_state_acceptor_for_hmm_fsa (fuel + k) p s = Ok r.
Proof.
  unfold _allophone_state_acceptor_for_hmm_fsa.
  destruct (allo_expand p s) as [[n es]| |]; cbn [mbind res_bind]; [|done..].
  unfold _sort_node_num.
  destruct (sort_loop fuel 0 es) as [es'| |] eqn:E; cbn [mbind res_bind]; [|done..].
  intros [= <-]. by rewrite (sort_loop_more_fuel _ _ _ _ _ E).
Qed.

(** With three allophone states the expansion of an edge is the intended
    chain: three sub-edges through two fresh states. *)
Lemma allo_edge_step_three (p : params) (e : edge) (n : Z) (out : list edge)
    (tri : list atom) (pos : option string) :
  allo_num_states p = 3 → e_label e = LList tri → e_shape e = List5 pos →
  allo_edge_step p e (n, out) =
  Ok (n + 2,
      out ++ [Edge (e_from e) n (LList (tri ++ [AInt 0])) (e_weight e) (List5 pos);
              Edge n (n + 1) (LList (tri ++ [AInt 1])) (e_weight e) (List5 pos);
              Edge (n + 1) (e_to e) (LList (tri ++ [AInt 2])) (e_weight e) (List5 pos)]).
Proof.
  intros Hp Hl Hs. unfold allo_edge_step. rewrite Hl, Hp.
  rewrite bool_decide_eq_false_2 by (by intros [|]).
  rewrite bool_decide_eq_true_2 by lia.
  change (range 0 3) with [0; 1; 2]. cbn [for_each].
  unfold allo_state_step, e_pos. rewrite Hl, Hp, Hs. simpl.
  rewrite <- !app_assoc. simpl.
  replace (n + 1 - 1) with n by lia. replace (n + 1 + 1) with (n + 2) by lia. done.
Qed.

Lemma phoneme_more_fuel (fuel k : nat) (phon_dict : gmap string (list pron)) (s r : fsa) :
  _phoneme_acceptor_for_hmm_fsa fuel phon_dict s = Ok r →
  _phoneme_acceptor_for_hmm_fsa (fuel + k) phon_dict s = Ok r.
Proof.
  unfold _phoneme_acceptor_for_hmm_fsa.
  destruct (for_each (phoneme_replace_step phon_dict) (edges s) []) as [es| |];
    cbn [mbind res_bind]; [|done..].
  destruct (for_each phoneme_split_step _ _) as [s1| |]; cbn [mbind res_bind]; [|done..].
  unfold _sort_node_num.
  destruct (sort_loop fuel 0 (edges s1)) as [es'| |] eqn:E; cbn [mbind res_bind]; [|done..].
  intros [= <-]. by rewrite (sort_loop_more_fuel _ _ _ _ _ E).
Qed.

Lemma bind_Ok_mono {A B} (m m' : res A) (f f' : A → res B) (r : B) :
  (∀ a, m = Ok a → m' = Ok a) →
  (∀ a, f a = Ok r → f' a = Ok r) →
  m ≫= f = Ok r → m' ≫= f' = Ok r.
Proof.
  intros Hm Hf. destruct m as [a| |]; cbn [mbind res_bind]; [|done..].
  rewrite (Hm a eq_refl). cbn [mbind res_bind]. apply Hf.
Qed.

(** A run that returned a graph returns the same graph with more fuel. *)
Lemma run_more_fuel (c : collaborators) (fuel k : nat) (p : params) (s r : fsa) :
  run c fuel p s = Ok r → run c (fuel + k) p s = Ok r.
Proof.
  unfold run. repeat case_bool_decide; try done.
  unfold run_hmm.
  apply bind_Ok_mono; [done|]. intros s1.
  apply bind_Ok_mono.
  { intros s2. case_bool_decide; [|done].
    apply bind_Ok_mono; [done|]. intros lexicon.
    apply bind_Ok_mono; [done|]. intros phon_dict.
    apply phoneme_more_fuel. }
  intros s2. apply bind_Ok_mono; [done|]. intros s3.
  apply bind_Ok_mono; [|done].
  intros s4. case_bool_decide; [|done]. apply allophone_more_fuel.
Qed.

(** C4 (the code departs from the claim when [allo_num_states] is not 3).
    The lemma is the one word ["a"], whose only pronunciation in the lexicon
    is the single phoneme ["a"].  At depth 3 the pipeline has four states and
    the triphone edge [1 -> 2] between the silence/epsilon pairs.  At depth 4
    with two allophone states the sub-edges are [1 -> 4] and [5 -> 2]: two
    fresh states instead of one, and no chain; renumbering turns them into
    [1 -> 4] and [2 -> 3].  With one allophone state the edge disappears.
    With four, the two middle sub-edges run in parallel between the same two
    fresh states.  With three the expansion is the chain
    [1 -> 4 -> 5 -> 2]. *)
Theorem allophone_chain_only_for_three_states (fuel : nat) :
  let sil a b := Edge a b _SIL 0 (List5 (Some "")) in
  let eps a b := Edge a b _EPS 0 (List5 (Some "")) in
  let sub a b k := Edge a b (LList [AStr ""; AStr "a"; AStr ""; AInt k]) 0 (List5 (Some "if")) in
  let tri := Edge 1 2 (LList [AStr ""; AStr "a"; AStr ""]) 0 (List5 (Some "if")) in
  let s := Fsa 4 [sil 0 1; eps 0 1; tri; sil 2 3; eps 2 3] [LStr "a"] [] in
  let c := Collaborators (Some {[ "a"%string := [Pron "a" 0] ]}) None in
  let p d k := Params "hmm" (LemStr "a") 2 256 false d k in
  run c (20 + fuel) (p 3 2) fsa_init = Ok s ∧
  run c (20 + fuel) (p 4 2) fsa_init =
    Ok (Fsa 6 [sil 0 1; eps 0 1; sub 1 4 0; sub 2 3 1; sil 3 5; eps 3 5] [LStr "a"] []) ∧
  allo_expand (p 4 2) s =
    Ok (6, [sil 0 1; eps 0 1; sub 1 4 0; sub 5 2 1; sil 2 3; eps 2 3]) ∧
  run c (20 + fuel) (p 4 1) fsa_init =
    Ok (Fsa 4 [sil 0 1; eps 0 1; sil 2 3; eps 2 3] [LStr "a"] []) ∧
  allo_expand (p 4 4) s =
    Ok (6, [sil 0 1; eps 0 1; sub 1 4 0; sub 4 5 1; sub 4 5 2; sub 5 2 3;
            sil 2 3; eps 2 3]) ∧
  allo_expand (p 4 3) s =
    Ok (6, [sil 0 1; eps 0 1; sub 1 4 0; sub 4 5 1; sub 5 2 2; sil 2 3; eps 2 3]).
Proof.
  intros sil eps sub tri s c p. split; [|split; [|split; [|split; [|split]]]].
  - apply run_more_fuel. vm_compute. reflexivity.
  - apply run_more_fuel. vm_compute. reflexivity.
  - vm_compute. reflexivity.
  - apply run_more_fuel. vm_compute. reflexivity.
  - vm_compute. reflexivity.
  - vm_compute. reflexivity.
Qed.

(** ** Self-loops *)

Lemma add_loop_edge_shape (state : Z) (s s' : fsa) :
  add_loop_edge state s = Ok s' →
  ∃ e, s' = append_edge e s ∧ e_from e = state ∧ e_to e = state.
Proof.
  unfold add_loop_edge. cbv zeta.
  destruct (py_index (indices_where _ (edges s)) 0) as [i| |];
    cbn [mbind res_bind]; [|done..].
  destruct (py_index (edges s) (Z.of_nat i)) as [e| |];
    cbn [mbind res_bind]; [|done..].
  intros [= <-]. eexists. split; [reflexivity|done].
Qed.

Lemma loops_shape (xs : list Z) (s s' : fsa) :
  for_each add_loop_edge xs s = Ok s' →
  ∃ loops, s' = set_edges (edges s ++ loops) s ∧
           Forall2 (λ q e, e_from e = q ∧ e_to e = q) xs loops.
Proof.
  revert s. induction xs as [|x xs IH]; intros s; cbn [for_each].
  - intros [= <-]. exists []. split; [by rewrite set_edges_app_nil|constructor].
  - destruct (add_loop_edge x s) as [s1| |] eqn:E1; cbn [mbind res_bind]; [|done..].
    apply add_loop_edge_shape in E1 as (e & -> & He).
    intros (loops & -> & Hloops)%IH.
    exists (e :: loops). split; [|by constructor].
    unfold append_edge, set_edges. simpl. by rewrite <- app_assoc.
Qed.

Lemma adds_loop_edges_shape (p : params) (s s' : fsa) :
  fsa_type p = "asg" ∨ fsa_type p = "ctc" →
  _adds_loop_edges p s = Ok s' →
  ∃ loops, s' = set_edges (edges s ++ loops) s ∧
           Forall2 (λ q e, e_from e = q ∧ e_to e = q) (range 1 (num_states s)) loops.
Proof.
  intros Hty. unfold _adds_loop_edges.
  rewrite bool_decide_eq_true_2 by done. cbn [mbind res_bind].
  apply loops_shape.
Qed.

Lemma loops_are_loops (xs : list Z) (loops : list edge) (e : edge) :
  Forall2 (λ q e, e_from e = q ∧ e_to e = q) xs loops → e ∈ loops →
  e_from e ∈ xs ∧ e_to e = e_from e.
Proof.
  intros HF (i & Hi)%list_elem_of_lookup_1.
  destruct (Forall2_lookup_r _ _ _ _ _ HF Hi) as (q & Hq & <- & ->).
  split; [by eapply list_elem_of_lookup_2|done].
Qed.

Lemma loops_cover (xs : list Z) (loops : list edge) (q : Z) :
  Forall2 (λ q e, e_from e = q ∧ e_to e = q) xs loops → q ∈ xs →
  ∃ e, e ∈ loops ∧ e_from e = q ∧ e_to e = q.
Proof.
  intros HF (i & Hi)%list_elem_of_lookup_1.
  destruct (Forall2_lookup_l _ _ _ _ _ HF Hi) as (e & He & Hq).
  exists e. split; [by eapply list_elem_of_lookup_2|done].
Qed.

(** ** Exits *)

Lemma has_exit_app (es1 es2 : list edge) (q : Z) :
  has_exit (es1 ++ es2) q ↔ has_exit es1 q ∨ has_exit es2 q.
Proof.
  unfold has_exit. split.
  - intros (e & [He|He]%elem_of_app & H); [left|right]; eauto.
  - intros [(e & He & H)|(e & He & H)]; exists e; (split; [|done]);
      apply elem_of_app; auto.
Qed.

Lemma has_exit_loops (xs : list Z) (loops : list edge) (q : Z) :
  Forall2 (λ q e, e_from e = q ∧ e_to e = q) xs loops → ¬ has_exit loops q.
Proof.
  intros HF (e & He & Hfrom & Hto).
  destruct (loops_are_loops _ _ _ HF He) as [_ Heq]. congruence.
Qed.

(** ** ASG: the chain *)

Lemma foldl_append_edges {X} (g : fsa → X → fsa) (f : X → edge) (xs : list X) (s : fsa) :
  (∀ s x, g s x = append_edge (f x) s) →
  foldl g s xs = set_edges (edges s ++ (f <$> xs)) s.
Proof.
  intros Hg. revert s. induction xs as [|x xs IH]; intros s; simpl.
  - by rewrite set_edges_app_nil.
  - rewrite IH, Hg. unfold append_edge, set_edges. simpl. by rewrite <- app_assoc.
Qed.

Lemma asg_chain_shape (s : fsa) :
  _create_states_from_label_for_asg s =
  Fsa (Z.of_nat (length (lemma s)) + 1)
      (edges s ++ ((λ ix : Z * label, Edge ix.1 (ix.1 + 1) ix.2 1 Tuple4)
                     <$> enumerate (lemma s)))
      (lemma s) (final_states s).
Proof.
  unfold _create_states_from_label_for_asg.
  rewrite (foldl_append_edges _ (λ ix : Z * label, Edge ix.1 (ix.1 + 1) ix.2 1 Tuple4))
    by (by intros ? [??]).
  done.
Qed.

Lemma elem_of_asg_chain (l : list label) (e : edge) :
  e ∈ (λ ix : Z * label, Edge ix.1 (ix.1 + 1) ix.2 1 Tuple4) <$> enumerate l ↔
  ∃ (i : nat) x, l !! i = Some x ∧ e = Edge (Z.of_nat i) (Z.of_nat i + 1) x 1 Tuple4.
Proof.
  unfold enumerate. rewrite list_elem_of_fmap. split.
  - intros ([j x] & -> & Hin). apply elem_of_lookup_imap in Hin as (i & y & [= -> ->] & Hi).
    eauto.
  - intros (i & x & Hi & ->). exists (Z.of_nat i, x). split; [done|].
    apply elem_of_lookup_imap. eauto.
Qed.

Lemma run_asg_invariant (p : params) (s0 s : fsa) :
  fsa_type p = "asg" ∨ fsa_type p = "ctc" →
  run_asg p s0 = Ok s →
  0 < num_states s ∧
  Forall edge_ordered (edges s) ∧
  ∀ q, 0 ≤ q < num_states s → (¬ has_exit (edges s) q ↔ q = num_states s - 1).
Proof.
  intros Hty. unfold run_asg.
  destruct (load_lemma p s0) as [s1| |]; cbn [mbind res_bind]; [|done..].
  rewrite asg_chain_shape. cbn [edges lemma set_edges final_states app].
  set (w := lemma (_check_for_repetitions_for_asg p _)).
  intros (loops & -> & HF)%(adds_loop_edges_shape _ _ _ Hty).
  cbn [num_states edges set_edges] in *.
  split; [lia|]. split.
  - apply Forall_app. split.
    + apply Forall_forall. intros e (i & x & _ & ->)%elem_of_asg_chain.
      unfold edge_ordered. simpl. lia.
    + apply Forall_forall. intros e He.
      destruct (loops_are_loops _ _ _ HF He) as [_ Heq].
      unfold edge_ordered. lia.
  - intros q Hq. rewrite has_exit_app. split.
    + intros Hno. destruct (decide (q = Z.of_nat (length w))) as [->|Hne]; [lia|].
      exfalso. apply Hno. left.
      destruct (lookup_lt_is_Some_2 w (Z.to_nat q)) as [x Hx]; [lia|].
      exists (Edge q (q + 1) x 1 Tuple4). split; [|simpl; lia].
      apply elem_of_asg_chain. exists (Z.to_nat q), x. split; [done|].
      by rewrite Z2Nat.id by lia.
    + intros -> [(e & (i & x & Hi & ->)%elem_of_asg_chain & Hfrom & _)|Hloop].
      * apply lookup_lt_Some in Hi. simpl in Hfrom. lia.
      * by eapply has_exit_loops.
Qed.

(** ** CTC: the whole graph *)

Lemma blank_edges_at_elem (l : list label) (i : Z) (e : edge) :
  e ∈ blank_edges_at l i →
  (e_from e = 2 * i ∧ e_to e = 2 * i + 1) ∨ (e_from e = 2 * i + 1 ∧ e_to e = 2 * i + 2).
Proof.
  unfold blank_edges_at. destruct (py_index l i); try by intros ?%elem_of_nil.
  intros [->|[->|[]%elem_of_nil]%elem_of_cons]%elem_of_cons; simpl; auto.
Qed.

Lemma blank_exits (l : list label) (q : Z) :
  0 ≤ q < 2 * Z.of_nat (length l) →
  has_exit (range 0 (Z.of_nat (length l)) ≫= blank_edges_at l) q.
Proof.
  intros Hq. set (i := q / 2).
  assert (Hi : 0 ≤ i < Z.of_nat (length l)).
  { unfold i. split; [apply Z.div_pos; lia|apply Z.div_lt_upper_bound; lia]. }
  assert (Hqi : q = 2 * i ∨ q = 2 * i + 1).
  { unfold i. pose proof (Z.div_mod q 2 ltac:(lia)).
    pose proof (Z.mod_pos_bound q 2 ltac:(lia)). lia. }
  clearbody i.
  destruct (py_index_nonneg l i Hi) as (cur & _ & Hcur).
  assert (Hin : ∀ e, e ∈ blank_edges_at l i →
            e ∈ range 0 (Z.of_nat (length l)) ≫= blank_edges_at l).
  { intros e He. apply list_elem_of_bind. exists i. split; [done|].
    by apply elem_of_range. }
  unfold blank_edges_at in Hin. rewrite Hcur in Hin.
  destruct Hqi as [->| ->].
  - eexists. split; [apply Hin; left|]. simpl. lia.
  - eexists. split; [apply Hin; right; left|]. simpl. lia.
Qed.

Lemma ctc_lattice_edges_bound (l : list label) (e : edge) :
  let n := Z.of_nat (length l) in
  e ∈ (range 0 n ≫= skip_edges_at l) ++ (range 0 n ≫= blank_edges_at l) →
  e_from e < e_to e ∧ 0 ≤ e_from e ≤ 2 * n - 1.
Proof.
  intros n [(i & He & Hi)%list_elem_of_bind|(i & He & Hi)%list_elem_of_bind]%elem_of_app;
    apply elem_of_range in Hi.
  - apply skip_edges_at_from in He as [-> ->]. lia.
  - apply blank_edges_at_elem in He as [[-> ->]|[-> ->]]; lia.
Qed.

Lemma elem_of_merged (q : Z) (fs : list Z) (es : list edge) (e' : edge) :
  e' ∈ (fs ≫= λ f, retarget q <$> filter (λ e, e_to e = f) es) ↔
  ∃ e, e' = retarget q e ∧ e ∈ es ∧ e_to e ∈ fs.
Proof.
  rewrite list_elem_of_bind. split.
  - intros (f & (e & -> & [He Hin]%list_elem_of_filter)%list_elem_of_fmap & Hf).
    exists e. split; [done|]. split; [done|]. by rewrite He.
  - intros (e & -> & He & Hf). exists (e_to e). split; [|done].
    apply list_elem_of_fmap. exists e. split; [done|].
    by apply list_elem_of_filter.
Qed.

Lemma last_stage_raises_on_empty (s : fsa) :
  lemma s = [] → ∀ s', _adds_last_state_for_ctc s ≠ Ok s'.
Proof.
  intros Hl s'. unfold _adds_last_state_for_ctc. cbn [lemma append_edge set_edges].
  rewrite Hl, py_index_nil. done.
Qed.

Lemma run_ctc_invariant (p : params) (s0 s : fsa) :
  fsa_type p = "asg" ∨ fsa_type p = "ctc" →
  run_ctc p s0 = Ok s →
  0 < num_states s ∧
  Forall edge_ordered (edges s) ∧
  ∀ q, 0 ≤ q < num_states s → (¬ has_exit (edges s) q ↔ q = num_states s - 1).
Proof.
  intros Hty. unfold run_ctc.
  destruct (ctc_lattice p s0) as [s2| |] eqn:Hlat; cbn [mbind res_bind]; [|done..].
  assert (Hload : ∃ s1, load_lemma p s0 = Ok s1).
  { unfold ctc_lattice in Hlat. destruct (load_lemma p s0); [eauto|done..]. }
  destruct Hload as [s1 Hload].
  rewrite (ctc_lattice_shape p s0 s1 Hload) in Hlat. injection Hlat as <-.
  set (l := lemma s1). set (n := Z.of_nat (length l)).
  set (lattice := (range 0 n ≫= skip_edges_at l) ++ (range 0 n ≫= blank_edges_at l)).
  destruct (last l) as [x|] eqn:Hlast; cycle 1.
  { apply last_None in Hlast.
    destruct (_adds_last_state_for_ctc _) as [s3| |] eqn:E; cbn [mbind res_bind]; [|done..].
    by apply last_stage_raises_on_empty in E. }
  assert (Hn : 1 ≤ n).
  { unfold n. destruct l; [done|]. simpl. lia. }
  rewrite bool_decide_eq_false_2 by lia.
  rewrite (last_stage_shape _ x) by done.
  cbn [mbind res_bind num_states edges lemma final_states app].
  destruct (_adds_loop_edges p _) as [s4| |] eqn:Hloops; cbn [mbind res_bind]; [|done..].
  apply (adds_loop_edges_shape _ _ _ Hty) in Hloops as (loops & -> & HF).
  cbn [num_states edges set_edges] in HF |- *.
  set (N := 2 * (n + 1) - 1 + 3) in *.
  set (last3 := [Edge (2 * (n + 1) - 1 - 3) (2 * (n + 1) - 1) label_blank 1 Tuple4;
                 Edge (2 * (n + 1) - 1) (2 * (n + 1) - 1 + 1) x 1 Tuple4;
                 Edge (2 * (n + 1) - 1 + 1) (2 * (n + 1) - 1 + 2) label_blank 1 Tuple4]) in *.
  set (E := (lattice ++ last3) ++ loops).
  set (s5 := set_edges E _).
  destruct (make_single_final_state_merges s5) as (added & -> & Hadded).
  { simpl. intros [=]. }
  destruct Hadded as [Hadded _].
  { simpl. apply NoDup_cons. split; [|apply NoDup_singleton].
    intros ?%list_elem_of_singleton. lia. }
  { simpl. repeat constructor; lia. }
  cbn [num_states edges final_states s5 set_edges] in Hadded.
  intros [= <-]. cbn [num_states edges s5 set_edges].
  replace (2 * n + (N - 1 - 2 * n)) with (N - 1) in * by lia.
  assert (HE : ∀ e, e ∈ E → e_from e ≤ e_to e ∧ 0 ≤ e_from e ≤ N - 1).
  { intros e [[He|He]%elem_of_app|He]%elem_of_app.
    - apply ctc_lattice_edges_bound in He. fold n in He. lia.
    - unfold last3 in He.
      apply elem_of_cons in He as [->|He]; [simpl; lia|].
      apply elem_of_cons in He as [->|He]; [simpl; lia|].
      apply list_elem_of_singleton in He as ->. simpl. lia.
    - destruct (loops_are_loops _ _ _ HF He) as [Hr Heq].
      apply elem_of_range in Hr. lia. }
  assert (Hmerged : ∀ e', e' ∈ added ↔
            ∃ e, e' = retarget N e ∧ e ∈ E ∧ e_to e ∈ [2 * n; N - 1]).
  { intros e'. rewrite Hadded. apply elem_of_merged. }
  assert (Hloop_exit : ∀ q, q = 2 * n ∨ q = N - 1 → has_exit added q).
  { intros q Hq.
    destruct (loops_cover _ _ q HF) as (e & He & Hfrom & Hto).
    { apply elem_of_range. lia. }
    exists (retarget N e). split; [|simpl; lia].
    apply Hmerged. exists e. split; [done|]. split.
    - apply elem_of_app. by right.
    - rewrite Hto. destruct Hq as [-> | ->]; [left|right; left]. }
  split; [lia|]. split.
  - apply Forall_app. split; apply Forall_forall; intros e He.
    + apply HE in He. unfold edge_ordered. lia.
    + apply Hmerged in He as (e0 & -> & He0 & _). apply HE in He0.
      unfold edge_ordered. simpl. lia.
  - intros q Hq. rewrite has_exit_app. split.
    + intros Hno. destruct (decide (q = N)) as [->|Hne]; [lia|]. exfalso.
      destruct (decide (q = 2 * n ∨ q = N - 1)) as [Hq'|Hq'].
      { apply Hno. right. by apply Hloop_exit. }
      apply Hno. left. unfold E. rewrite !has_exit_app. left.
      destruct (decide (q < 2 * n)) as [Hlt|Hge].
      * left. unfold lattice. rewrite has_exit_app. right.
        apply blank_exits. fold l n. lia.
      * right. unfold last3.
        destruct (decide (q = 2 * (n + 1) - 1)) as [->|Hq''].
        -- eexists. split; [right; left|]. simpl. lia.
        -- eexists. split; [right; right; left|]. simpl. lia.
    + intros Hq' [(e & He & Hfrom & _)|(e & He & Hfrom & _)].
      * apply HE in He. lia.
      * apply Hmerged in He as (e0 & -> & He0 & _). apply HE in He0.
        simpl in Hfrom. lia.
Qed.

(** C1. Every graph that [run] returns for the topology ["asg"] or ["ctc"]
    has at least one state, has no backward edge, and has exactly one state
    without an outgoing edge other than a self-loop: the last one,
    [num_states - 1].  (The label sequence need not be assumed non-empty:
    the CTC builder raises on the empty sequence, and the ASG builder then
    returns the one-state graph.) *)
Theorem asg_ctc_graph_invariant
    (c : collaborators) (fuel : nat) (p : params) (s0 s : fsa) :
  fsa_type p = "asg" ∨ fsa_type p = "ctc" →
  run c fuel p s0 = Ok s →
  0 < num_states s ∧
  Forall edge_ordered (edges s) ∧
  ∀ q, 0 ≤ q < num_states s → (¬ has_exit (edges s) q ↔ q = num_states s - 1).
Proof.
  intros Hty. unfold run. destruct Hty as [Hty|Hty]; rewrite Hty.
  - rewrite bool_decide_eq_true_2 by done. apply run_asg_invariant. by left.
  - rewrite bool_decide_eq_false_2 by done.
    rewrite bool_decide_eq_true_2 by done. apply run_ctc_invariant. by right.
Qed.

Lemma asg_ctc_graph_invariant_witness :
  ∃ s,
    run (Collaborators None None) 0
      (Params "ctc" (LemStr "ab") 2 256 false 6 3) fsa_init = Ok s ∧
    num_states s = 9 ∧
    0 < num_states s ∧
    Forall edge_ordered (edges s) ∧
    ∀ q, 0 ≤ q < num_states s → (¬ has_exit (edges s) q ↔ q = num_states s - 1).
Proof.
  eexists. split; [vm_compute; reflexivity|]. split; [reflexivity|].
  apply (asg_ctc_graph_invariant (Collaborators None None) 0
           (Params "ctc" (LemStr "ab") 2 256 false 6 3) fsa_init).
  - right. reflexivity.
  - vm_compute. reflexivity.
Defined.

(** ** The builders do return a graph *)

Lemma add_loop_edge_total (state : Z) (s : fsa) :
  (∃ e, e ∈ edges s ∧ e_to e = state ∧ e_label e ≠ _EPS) →
  ∃ e', add_loop_edge state s = Ok (append_edge e' s).
Proof.
  intros (e & He & Hto & Hlab).
  pose proof (indices_where_lookup
                (λ e, e_to e = state ∧ e_label e ≠ _EPS) (edges s)) as HF.
  assert (Hsel : e ∈ filter (λ e, e_to e = state ∧ e_label e ≠ _EPS) (edges s))
    by (by apply list_elem_of_filter).
  unfold add_loop_edge. cbv zeta.
  destruct HF as [|i x idxs sel Hi _].
  - by apply elem_of_nil in Hsel.
  - change (py_index (i :: idxs) 0) with (Ok i). cbn [mbind res_bind].
    rewrite (py_index_lookup _ _ _ Hi). cbn [mbind res_bind]. eauto.
Qed.

Lemma loops_total (xs : list Z) (s : fsa) :
  (∀ q, q ∈ xs → ∃ e, e ∈ edges s ∧ e_to e = q ∧ e_label e ≠ _EPS) →
  ∃ s', for_each add_loop_edge xs s = Ok s'.
Proof.
  revert s. induction xs as [|x xs IH]; intros s Hs; cbn [for_each]; [eauto|].
  destruct (add_loop_edge_total x s) as [e' ->]; [apply Hs; left|].
  cbn [mbind res_bind]. apply IH. intros q Hq.
  destruct (Hs q) as (e & He & H); [by right|].
  exists e. split; [|done]. simpl. apply elem_of_app. by left.
Qed.

(** The folded sequence holds labels of the input and integers only. *)
Lemma rep_scan_elem (R N : Z) (l : list label) (x : label) :
  x ∈ reps (rep_scan R N l) → x ∈ l ∨ ∃ k, x = LInt k.
Proof.
  induction l as [|y l IH] using rev_ind; [by intros ?%elem_of_nil|].
  rewrite rep_scan_app. cbn [foldl]. rewrite elem_of_app.
  unfold rep_step. repeat case_bool_decide; cbn [reps];
    rewrite ?elem_of_app, ?list_elem_of_singleton;
    intuition (subst; eauto).
Qed.

Lemma fold_repetitions_no_eps (R N : Z) (l : list label) :
  _EPS ∉ l → _EPS ∉ fold_repetitions R N l.
Proof.
  intros Hl. unfold fold_repetitions. case_bool_decide; [done|].
  intros [?|[k ?]]%rep_scan_elem; done.
Qed.

(** On a sequence that loads and holds no ["*"], the ASG builder returns a
    graph, and so does the CTC builder when the sequence is not empty. *)
Lemma run_returns (c : collaborators) (fuel : nat) (p : params) (s0 s1 : fsa) :
  fsa_type p = "asg" ∨ (fsa_type p = "ctc" ∧ lemma s1 ≠ []) →
  load_lemma p s0 = Ok s1 →
  _EPS ∉ lemma s1 →
  ∃ s, run c fuel p s0 = Ok s.
Proof.
  intros Hty Hload Heps. unfold run. destruct Hty as [Hty|[Hty Hne]]; rewrite Hty.
  - rewrite bool_decide_eq_true_2 by done. unfold run_asg. rewrite Hload.
    cbn [mbind res_bind]. rewrite asg_chain_shape. unfold _adds_loop_edges.
    rewrite bool_decide_eq_true_2 by (by left). cbn [mbind res_bind].
    apply loops_total. cbn [num_states edges lemma set_edges app].
    set (w := lemma (_check_for_repetitions_for_asg p _)).
    assert (Hw : _EPS ∉ w) by (by apply fold_repetitions_no_eps).
    intros q Hq%elem_of_range.
    destruct (lookup_lt_is_Some_2 w (Z.to_nat (q - 1))) as [x Hx]; [lia|].
    exists (Edge (q - 1) q x 1 Tuple4). split; [|split; [done|]].
    + apply elem_of_asg_chain. exists (Z.to_nat (q - 1)), x. split; [done|].
      rewrite Z2Nat.id by lia. f_equal. lia.
    + simpl. intros ->. apply Hw. by eapply list_elem_of_lookup_2.
  - rewrite bool_decide_eq_false_2 by done.
    rewrite bool_decide_eq_true_2 by done. unfold run_ctc.
    rewrite (ctc_lattice_shape p s0 s1 Hload). cbn [mbind res_bind].
    set (l := lemma s1) in *. set (n := Z.of_nat (length l)).
    destruct (last l) as [x|] eqn:Hlast; [|by apply last_None in Hlast].
    assert (Hn : 1 ≤ n) by (unfold n; destruct l; [done|simpl; lia]).
    rewrite (bool_decide_eq_false_2 (n = 0)) by lia.
    rewrite (last_stage_shape _ x) by done. cbn [mbind res_bind].
    unfold _adds_loop_edges.
    rewrite (bool_decide_eq_true_2 (_ ∨ _)) by (by right).
    cbn [mbind res_bind num_states edges].
    edestruct loops_total as [s4 ->]; cycle 1.
    { cbn [mbind res_bind].
      destruct (decide (final_states s4 = [num_states s4 - 1])) as [Hf|Hf].
      - rewrite (make_single_final_state_noop s4 Hf). eauto.
      - destruct (make_single_final_state_merges s4 Hf) as (added & -> & _). eauto. }
    cbn [edges]. intros q Hq%elem_of_range.
    destruct (decide (q ≤ 2 * n)) as [Hle|Hgt].
    + set (i := (q - 1) / 2).
      assert (Hi : 0 ≤ i < n).
      { unfold i. split; [apply Z.div_pos; lia|apply Z.div_lt_upper_bound; lia]. }
      assert (Hqi : q = 2 * i + 1 ∨ q = 2 * i + 2).
      { unfold i. pose proof (Z.div_mod (q - 1) 2 ltac:(lia)).
        pose proof (Z.mod_pos_bound (q - 1) 2 ltac:(lia)). lia. }
      clearbody i.
      destruct (py_index_nonneg l i Hi) as (cur & Hcur' & Hcur).
      assert (Hin : ∀ e, e ∈ blank_edges_at l i →
                e ∈ ((range 0 n ≫= skip_edges_at l) ++ (range 0 n ≫= blank_edges_at l)) ++
                    [Edge (2 * (n + 1) - 1 - 3) (2 * (n + 1) - 1) label_blank 1 Tuple4;
                     Edge (2 * (n + 1) - 1) (2 * (n + 1) - 1 + 1) x 1 Tuple4;
                     Edge (2 * (n + 1) - 1 + 1) (2 * (n + 1) - 1 + 2) label_blank 1 Tuple4]).
      { intros e He. apply elem_of_app. left. apply elem_of_app. right.
        apply list_elem_of_bind. exists i. split; [done|]. by apply elem_of_range. }
      unfold blank_edges_at in Hin. rewrite Hcur in Hin.
      destruct Hqi as [-> | ->].
      * eexists. split; [apply Hin; left|]. split; [simpl; lia|done].
      * eexists. split; [apply Hin; right; left|]. split; [simpl; lia|].
        simpl. intros ->. apply Heps. by eapply list_elem_of_lookup_2.
    + assert (Hq3 : q = 2 * (n + 1) - 1 ∨ q = 2 * (n + 1) - 1 + 1 ∨ q = 2 * (n + 1) - 1 + 2)
        by lia.
      destruct Hq3 as [-> |[-> | ->]].
      * eexists. split; [apply elem_of_app; right; left|]. split; [done|done].
      * eexists. split; [apply elem_of_app; right; right; left|]. split; [done|].
        simpl. intros ->. apply Heps. rewrite last_lookup in Hlast.
        by eapply list_elem_of_lookup_2.
      * eexists. split; [apply elem_of_app; right; right; right; left|].
        split; [done|done].
Qed.

(** * Further properties of the code *)

(** ** Label conversion *)

Lemma convert_loop_spec (N : Z) (xs acc r : list label) :
  for_each (λ label label_indices,
      label_index ← ord label;
      if bool_decide (label_index < N)
      then Ok (label_indices ++ [LInt label_index])
      else Raise AssertionError) xs acc = Ok r ↔
  ∃ ks, Forall2 (λ x k, ord x = Ok k ∧ k < N) xs ks ∧ r = acc ++ (LInt <$> ks).
Proof.
  revert acc. induction xs as [|x xs IH]; intros acc; cbn [for_each].
  - split.
    + intros [= <-]. exists []. split; [constructor|by rewrite app_nil_r].
    + intros (ks & ->%Forall2_nil_inv_l & ->). by rewrite app_nil_r.
  - destruct (ord x) as [k| |] eqn:Hk; cbn [mbind res_bind].
    + case_bool_decide as Hlt.
      * split.
        -- intros (ks & HF & ->)%IH. exists (k :: ks). split; [by constructor|].
           by rewrite <- app_assoc.
        -- intros (ks & HF & ->).
           apply Forall2_cons_inv_l in HF as (k' & ks' & [Hk' _] & HF & ->).
           rewrite Hk in Hk'. injection Hk' as <-.
           apply IH. exists ks'. split; [done|]. by rewrite <- app_assoc.
      * split; [done|]. intros (ks & HF & _).
        apply Forall2_cons_inv_l in HF as (k' & ks' & [Hk' ?] & _).
        rewrite Hk in Hk'. injection Hk' as <-. lia.
    + split; [done|]. intros (ks & HF & _).
      apply Forall2_cons_inv_l in HF as (k' & ks' & [Hk' _] & _). congruence.
    + split; [done|]. intros (ks & HF & _).
      apply Forall2_cons_inv_l in HF as (k' & ks' & [Hk' _] & _). congruence.
Qed.

Lemma ord_range (x : label) (k : Z) : ord x = Ok k → 0 ≤ k < 256.
Proof.
  destruct x as [[|c [|??]]| |]; try done. intros [= <-].
  pose proof (nat_ascii_bounded c). lia.
Qed.

(** X1. Label conversion returns exactly when every label is a
    one-character string whose code is below [num_labels]; it then replaces
    the sequence, label by label, by these codes, and touches nothing else.
    Every index it stores lies in [0, num_labels) and below 256. *)
Theorem convert_label_seq_to_indices_spec (p : params) (s s' : fsa) :
  convert_label_seq_to_indices p s = Ok s' ↔
  ∃ ks, Forall2 (λ x k, ord x = Ok k ∧ 0 ≤ k < 256 ∧ k < num_labels p)
          (items (lemma_orig p)) ks ∧
        s' = Fsa (num_states s) (edges s) (LInt <$> ks) (final_states s).
Proof.
  unfold convert_label_seq_to_indices.
  destruct (for_each _ (items (lemma_orig p)) []) as [r| |] eqn:E; cbn [mbind res_bind].
  - apply convert_loop_spec in E as (ks & HF & ->). split.
    + intros [= <-]. exists ks. split; [|done].
      eapply Forall2_impl; [exact HF|]. intros x k [Hk ?].
      pose proof (ord_range _ _ Hk). done.
    + intros (ks' & HF' & ->). unfold set_lemma. do 2 f_equal. simpl. f_equal.
      clear -HF HF'. revert ks' HF'.
      induction HF as [|x k xs ks [Hk _] _ IH]; intros ks' HF'.
      * by apply Forall2_nil_inv_l in HF' as ->.
      * apply Forall2_cons_inv_l in HF' as (k' & ks'' & [Hk' _] & HF' & ->).
        rewrite Hk in Hk'. injection Hk' as <-. f_equal. by apply IH.
  - split; [done|]. intros (ks & HF & _).
    assert (∃ r, for_each (λ label label_indices,
        label_index ← ord label;
        if bool_decide (label_index < num_labels p)
        then Ok (label_indices ++ [LInt label_index])
        else Raise AssertionError) (items (lemma_orig p)) [] = Ok r) as [r Hr].
    { eexists. apply convert_loop_spec. exists ks. split; [|done].
      eapply Forall2_impl; [exact HF|]. by intros x k (? & _ & ?). }
    rewrite Hr in E. done.
  - split; [done|]. intros (ks & HF & _).
    assert (∃ r, for_each (λ label label_indices,
        label_index ← ord label;
        if bool_decide (label_index < num_labels p)
        then Ok (label_indices ++ [LInt label_index])
        else Raise AssertionError) (items (lemma_orig p)) [] = Ok r) as [r Hr].
    { eexists. apply convert_loop_spec. exists ks. split; [|done].
      eapply Forall2_impl; [exact HF|]. by intros x k (? & _ & ?). }
    rewrite Hr in E. done.
Qed.

(** ** More on repetition folding *)

Lemma no_adjacent_repeats_snoc (l : list label) (x : label) :
  no_adjacent_repeats (l ++ [x]) → no_adjacent_repeats l ∧ last l ≠ Some x.
Proof.
  intros H. split.
  - intros i a b Ha Hb. apply (H i); by apply lookup_app_l_Some.
  - rewrite last_lookup. intros Hl. destruct l as [|y l]; [done|].
    simpl in Hl. apply (H (length l) x x); [by apply lookup_app_l_Some|..|done].
    change (S (length l)) with (length (y :: l)). by rewrite list_lookup_middle.
Qed.

Lemma rep_scan_no_repeats (R N : Z) (l : list label) :
  no_adjacent_repeats l → rep_scan R N l = RepState l 0 (last l).
Proof.
  induction l as [|x l IH] using rev_ind; [done|].
  intros [Hl Hx]%no_adjacent_repeats_snoc.
  rewrite rep_scan_app, IH by done. cbn [foldl].
  rewrite rep_step_new by done. unfold flushed. simpl.
  by rewrite app_nil_r, last_snoc.
Qed.

(** X2. A sequence in which no label repeats its predecessor is left as
    it is by the folding, whatever [asg_repetition] is. *)
Theorem fold_repetitions_without_repeats (R N : Z) (l : list label) :
  no_adjacent_repeats l → fold_repetitions R N l = l.
Proof.
  intros Hl. unfold fold_repetitions. case_bool_decide; [done|].
  by rewrite rep_scan_no_repeats.
Qed.

Lemma fold_repetitions_without_repeats_witness :
  fold_repetitions 2 27 (chars "abab") = chars "abab".
Proof.
  apply fold_repetitions_without_repeats.
  intros [|[|[|[|i]]]] x y Hx Hy; simpl in *; congruence.
Defined.

Lemma rep_scan_length (R N : Z) (l : list label) :
  (length (reps (rep_scan R N l)) +
   (if bool_decide (rep_count (rep_scan R N l) ≠ 0%Z) then 1%nat else 0%nat)
   ≤ length l)%nat.
Proof.
  induction l as [|x l IH] using rev_ind; [simpl; lia|].
  rewrite rep_scan_app, length_app. cbn [foldl length].
  destruct (rep_scan R N l) as [rs rc old]. cbn [reps rep_count] in IH.
  unfold rep_step. cbn [reps rep_count index_old].
  destruct (decide (rc = 0)) as [Hrc|Hrc];
    [rewrite (bool_decide_eq_false_2 (rc ≠ 0)) in IH |- * by (intros H'; by apply H')
    |rewrite (bool_decide_eq_true_2 (rc ≠ 0)) in IH |- * by done];
    repeat case_bool_decide; cbn [reps rep_count]; rewrite ?length_app; simpl;
    repeat case_bool_decide; cbn [rep_count] in *; lia.
Qed.

Lemma rep_scan_keeps (R N : Z) (l : list label) :
  ∀ x, x ∈ l → x ∈ reps (rep_scan R N l).
Proof.
  induction l as [|y l IH] using rev_ind; [by intros ? ?%elem_of_nil|].
  intros x. rewrite rep_scan_app. cbn [foldl].
  pose proof (rep_scan_index_old R N l) as Hold.
  assert (Hlast : last l = Some y → y ∈ reps (rep_scan R N l)).
  { intros Hy. apply IH. rewrite last_lookup in Hy. by eapply list_elem_of_lookup_2. }
  destruct (rep_scan R N l) as [rs rc old]. cbn [reps index_old] in *. subst old.
  intros [Hx| ->%list_elem_of_singleton]%elem_of_app.
  - specialize (IH x Hx). unfold rep_step. cbn [reps rep_count index_old].
    repeat case_bool_decide; cbn [reps]; rewrite ?elem_of_app; auto.
  - unfold rep_step. cbn [reps rep_count index_old].
    case_bool_decide as Heq.
    + assert (y ∈ rs) by (apply Hlast; congruence).
      repeat case_bool_decide; cbn [reps]; rewrite ?elem_of_app; auto.
    + case_bool_decide; cbn [reps]; rewrite ?elem_of_app, ?list_elem_of_singleton; auto.
Qed.

Lemma rep_scan_head (R N : Z) (l : list label) :
  head (reps (rep_scan R N l)) = head l.
Proof.
  induction l as [|y l IH] using rev_ind; [done|].
  rewrite rep_scan_app. cbn [foldl].
  pose proof (rep_scan_index_old R N l) as Hold.
  pose proof (rep_scan_length R N l) as Hlen.
  destruct (rep_scan R N l) as [rs rc old]. cbn [reps rep_count index_old] in *. subst old.
  destruct l as [|z l].
  - destruct rs; [|simpl in Hlen; lia].
    case_bool_decide; [simpl in Hlen; lia|].
    unfold rep_step. cbn [reps rep_count index_old].
    rewrite bool_decide_eq_false_2 by done.
    by rewrite bool_decide_eq_false_2 by (intros H'; by apply H').
  - destruct rs as [|r rs]; [done|]. simpl in IH.
    unfold rep_step. cbn [reps rep_count index_old].
    repeat case_bool_decide; done.
Qed.

(** X3. Folding never lengthens the sequence, keeps every label that
    occurs in it, and starts with the same label. *)
Theorem fold_repetitions_keeps_labels (R N : Z) (l : list label) :
  (length (fold_repetitions R N l) ≤ length l)%nat ∧
  (∀ x, x ∈ l → x ∈ fold_repetitions R N l) ∧
  head (fold_repetitions R N l) = head l.
Proof.
  unfold fold_repetitions. case_bool_decide; [done|].
  split; [|split].
  - pose proof (rep_scan_length R N l). lia.
  - apply rep_scan_keeps.
  - apply rep_scan_head.
Qed.

(** ** The ASG graph *)

Lemma range_app (a b c : Z) : a ≤ b ≤ c → range a c = range a b ++ range b c.
Proof.
  intros [Hab Hbc].
  replace c with (b + Z.of_nat (Z.to_nat (c - b))) by lia.
  induction (Z.to_nat (c - b)) as [|n IH].
  - simpl. rewrite Z.add_0_r, (range_empty b b), app_nil_r by lia. done.
  - replace (b + Z.of_nat (S n)) with (b + Z.of_nat n + 1) by lia.
    rewrite !range_snoc, IH, app_assoc by lia. done.
Qed.

Lemma add_loop_edge_first (q : Z) (s : fsa) (e : edge) (rest : list edge) :
  filter (λ e, e_to e = q ∧ e_label e ≠ _EPS) (edges s) = e :: rest →
  add_loop_edge q s =
  Ok (append_edge
        (Edge q q (e_label e) 0
              (List5 (match e_pos e with Ok pos => pos | _ => None end))) s).
Proof.
  intros Hsel.
  pose proof (indices_where_lookup (λ e, e_to e = q ∧ e_label e ≠ _EPS) (edges s)) as HF.
  rewrite Hsel in HF. unfold add_loop_edge. cbv zeta.
  apply Forall2_cons_inv_r in HF as (i & idxs & Hi & _ & ->).
  change (py_index (i :: idxs) 0) with (Ok i). cbn [mbind res_bind].
  rewrite (py_index_lookup _ _ _ Hi). cbn [mbind res_bind]. done.
Qed.

Lemma add_loop_edge_none (q : Z) (s : fsa) :
  filter (λ e, e_to e = q ∧ e_label e ≠ _EPS) (edges s) = [] →
  add_loop_edge q s = Raise IndexError.
Proof.
  intros Hsel.
  pose proof (indices_where_lookup (λ e, e_to e = q ∧ e_label e ≠ _EPS) (edges s)) as HF.
  rewrite Hsel in HF. unfold add_loop_edge. cbv zeta.
  apply Forall2_nil_inv_r in HF as ->. by rewrite py_index_nil.
Qed.

Lemma asg_chain_snoc (w : list label) (x : label) :
  asg_chain (w ++ [x]) =
  asg_chain w ++ [Edge (Z.of_nat (length w)) (Z.of_nat (length w) + 1) x 1 Tuple4].
Proof.
  unfold asg_chain, enumerate. rewrite imap_app, fmap_app. simpl.
  by rewrite Nat.add_0_r.
Qed.

Lemma asg_loops_snoc (w : list label) (x : label) :
  asg_loops (w ++ [x]) =
  asg_loops w ++ [Edge (Z.of_nat (length w) + 1) (Z.of_nat (length w) + 1) x 0 (List5 None)].
Proof.
  unfold asg_loops, enumerate. rewrite imap_app, fmap_app. simpl.
  by rewrite Nat.add_0_r.
Qed.

(** The candidates of [_adds_loop_edges] for state [q] among the chain. *)
Lemma asg_chain_candidates (w : list label) (q : Z) :
  1 ≤ q →
  filter (λ e, e_to e = q ∧ e_label e ≠ _EPS) (asg_chain w) =
  match w !! Z.to_nat (q - 1) with
  | Some x => if decide (x ≠ _EPS) then [Edge (q - 1) q x 1 Tuple4] else []
  | None => []
  end.
Proof.
  intros Hq. induction w as [|x w IH] using rev_ind; [done|].
  rewrite asg_chain_snoc, filter_app, IH.
  destruct (decide (Z.to_nat (q - 1) < length w)%nat) as [Hlt|Hge].
  - rewrite lookup_app_l by done.
    rewrite filter_cons_False, filter_nil, app_nil_r by (simpl; lia). done.
  - rewrite (lookup_ge_None_2 w) by lia. simpl.
    destruct (decide (Z.to_nat (q - 1) = length w)) as [Heq|Hne].
    + rewrite <- Heq, list_lookup_middle by done.
      rewrite filter_cons. simpl.
      replace (Z.of_nat (Z.to_nat (q - 1))) with (q - 1) by lia.
      replace (q - 1 + 1) with q by lia.
      destruct (decide (x ≠ _EPS)).
      * by rewrite decide_True.
      * rewrite decide_False; [done|]. intros [_ ?]. done.
    + rewrite lookup_ge_None_2 by (rewrite length_app; simpl; lia).
      rewrite filter_cons_False; [done|]. simpl. lia.
Qed.

Lemma asg_loops_candidates (w : list label) (q : Z) :
  Z.of_nat (length w) < q →
  filter (λ e, e_to e = q ∧ e_label e ≠ _EPS) (asg_loops w) = [].
Proof.
  intros Hq. apply filter_none. apply Forall_forall.
  intros e Hin [Hto _]. unfold asg_loops, enumerate in Hin.
  apply list_elem_of_fmap in Hin as ([i x] & -> & Hin).
  apply elem_of_lookup_imap in Hin as (j & y & [= -> ->] & Hj).
  apply lookup_lt_Some in Hj. simpl in Hto. lia.
Qed.

(** The first [k] self-loops, when the first [k] labels are not ["*"]. *)
Lemma asg_loops_prefix (w : list label) (s : fsa) (k : nat) :
  edges s = asg_chain w → (k ≤ length w)%nat → _EPS ∉ take k w →
  for_each add_loop_edge (range 1 (Z.of_nat k + 1)) s =
  Ok (set_edges (asg_chain w ++ asg_loops (take k w)) s).
Proof.
  intros Hs. induction k as [|k IH]; intros Hk Heps.
  - simpl. rewrite app_nil_r, <- Hs. by destruct s.
  - destruct (lookup_lt_is_Some_2 w k) as [x Hx]; [lia|].
    rewrite (take_S_r _ _ _ Hx) in Heps |- *.
    apply not_elem_of_app in Heps as [Heps Hxe].
    replace (Z.of_nat (S k) + 1) with (Z.of_nat k + 1 + 1) by lia.
    rewrite range_snoc, for_each_app, IH by (done || lia).
    cbn [mbind res_bind for_each].
    erewrite add_loop_edge_first; cycle 1.
    { cbn [edges set_edges]. rewrite filter_app, asg_chain_candidates by lia.
      replace (Z.to_nat (Z.of_nat k + 1 - 1)) with k by lia. rewrite Hx.
      rewrite decide_True by (intros ->; apply Hxe; by left).
      rewrite asg_loops_candidates by (rewrite length_take; lia). done. }
    cbn [mbind res_bind e_label e_pos e_shape].
    rewrite asg_loops_snoc, length_take, Nat.min_l by lia.
    unfold append_edge, set_edges. simpl. by rewrite <- app_assoc.
Qed.

(** X4. On a sequence that holds no ["*"] the ASG builder returns the chain
    over the folded sequence [w] followed by one self-loop per state 1 to
    [length w]: the loop on state [i+1] carries the label of the edge from
    [i], has weight 0 and position [None]; there are [length w + 1] states. *)
Theorem asg_graph_shape (c : collaborators) (fuel : nat) (p : params) (s0 s1 : fsa) :
  fsa_type p = "asg" → load_lemma p s0 = Ok s1 → _EPS ∉ lemma s1 →
  let w := fold_repetitions (asg_repetition p) (num_labels p) (lemma s1) in
  run c fuel p s0 =
  Ok (Fsa (Z.of_nat (length w) + 1) (asg_chain w ++ asg_loops w) w (final_states s1)).
Proof.
  intros Hty Hload Heps w. unfold run, run_asg.
  rewrite Hty, bool_decide_eq_true_2, Hload by done. cbn [mbind res_bind].
  rewrite asg_chain_shape. unfold _adds_loop_edges.
  rewrite Hty, (bool_decide_eq_true_2 (_ ∨ _)) by (by left). cbn [mbind res_bind].
  cbn [num_states edges lemma set_edges final_states app].
  change (lemma (_check_for_repetitions_for_asg p (set_edges [] s1))) with w.
  rewrite <- (Nat2Z.id (length w)) at 2.
  erewrite (asg_loops_prefix w _ (length w)); [|done|lia|].
  - by rewrite Nat2Z.id, firstn_all.
  - rewrite firstn_all. by apply fold_repetitions_no_eps.
Qed.

Lemma asg_graph_shape_witness :
  run (Collaborators None None) 0 (Params "asg" (LemStr "aab") 2 27 false 6 3) fsa_init =
  Ok (Fsa 4
        [Edge 0 1 (LStr "a") 1 Tuple4; Edge 1 2 (LInt 28) 1 Tuple4;
         Edge 2 3 (LStr "b") 1 Tuple4;
         Edge 1 1 (LStr "a") 0 (List5 None); Edge 2 2 (LInt 28) 0 (List5 None);
         Edge 3 3 (LStr "b") 0 (List5 None)]
        [LStr "a"; LInt 28; LStr "b"] []).
Proof.
  refine (asg_graph_shape (Collaborators None None) 0
            (Params "asg" (LemStr "aab") 2 27 false 6 3) fsa_init
            (set_lemma (chars "aab") fsa_init) eq_refl eq_refl _).
  simpl. intros H. repeat (apply elem_of_cons in H as [H|H]; [done|]).
  by apply elem_of_nil in H.
Defined.

Lemma for_each_raise {A S : Type} (f : A → S → res S) (l1 l2 : list A) (s s' : S) (x : A) (e : exn) :
  for_each f l1 s = Ok s' → f x s' = Raise e →
  for_each f (l1 ++ x :: l2) s = Raise e.
Proof.
  intros H1 H2. rewrite for_each_app, H1. cbn [mbind res_bind for_each].
  by rewrite H2.
Qed.

(** X5. A ["*"] label anywhere in the sequence makes the ASG builder fail:
    the state after that label has no candidate edge for its self-loop, and
    [edges_included[0]] raises [IndexError]. *)
Theorem asg_eps_label_raises (c : collaborators) (fuel : nat) (p : params) (s0 s1 : fsa) :
  fsa_type p = "asg" → load_lemma p s0 = Ok s1 → _EPS ∈ lemma s1 →
  run c fuel p s0 = Raise IndexError.
Proof.
  intros Hty Hload Heps. unfold run, run_asg.
  rewrite Hty, bool_decide_eq_true_2, Hload by done. cbn [mbind res_bind].
  rewrite asg_chain_shape. unfold _adds_loop_edges.
  rewrite Hty, (bool_decide_eq_true_2 (_ ∨ _)) by (by left). cbn [mbind res_bind].
  cbn [num_states edges lemma set_edges final_states app].
  set (w := lemma (_check_for_repetitions_for_asg p (set_edges [] s1))).
  assert (Hw : _EPS ∈ w).
  { unfold w, _check_for_repetitions_for_asg, fold_repetitions. cbn [lemma set_lemma set_edges].
    case_bool_decide; [done|]. by apply rep_scan_keeps. }
  destruct (list_find_elem_of (λ x, x = _EPS) w _EPS Hw eq_refl) as [[j x] Hf].
  apply list_find_Some in Hf as (Hj & -> & Hbefore).
  pose proof (lookup_lt_Some _ _ _ Hj) as Hlt.
  rewrite (range_app 1 (Z.of_nat j + 1) (Z.of_nat (length w) + 1)) by lia.
  rewrite (range_cons (Z.of_nat j + 1)) by lia.
  erewrite for_each_raise; [done| |].
  - apply (asg_loops_prefix w); [done|lia|].
    intros Hin. apply list_elem_of_lookup in Hin as (i & Hi).
    apply lookup_take_Some in Hi as [Hi Hij].
    by apply (Hbefore i _EPS).
  - apply add_loop_edge_none. cbn [edges set_edges].
    rewrite filter_app, asg_chain_candidates by lia.
    replace (Z.to_nat (Z.of_nat j + 1 - 1)) with j by lia. rewrite Hj.
    rewrite decide_False by (intros H; by apply H).
    rewrite asg_loops_candidates by (rewrite length_take; lia). done.
Qed.

Lemma asg_eps_label_raises_witness :
  run (Collaborators None None) 0 (Params "asg" (LemStr "a*b") 0 27 false 6 3) fsa_init =
  Raise IndexError.
Proof.
  refine (asg_eps_label_raises (Collaborators None None) 0
            (Params "asg" (LemStr "a*b") 0 27 false 6 3) fsa_init
            (set_lemma (chars "a*b") fsa_init) eq_refl eq_refl _).
  simpl. right. left.
Defined.

(** ** The CTC graph *)

Lemma run_ctc_shape (p : params) (s0 s1 s : fsa) :
  fsa_type p = "asg" ∨ fsa_type p = "ctc" →
  load_lemma p s0 = Ok s1 → run_ctc p s0 = Ok s →
  let l := lemma s1 in
  let n := Z.of_nat (length l) in
  ∃ x loops,
    last l = Some x ∧
    Forall2 (λ q e, e_from e = q ∧ e_to e = q) (range 1 (2 * n + 4)) loops ∧
    let E := ((range 0 n ≫= skip_edges_at l) ++ (range 0 n ≫= blank_edges_at l)) ++
             [Edge (2 * n - 2) (2 * n + 1) label_blank 1 Tuple4;
              Edge (2 * n + 1) (2 * n + 2) x 1 Tuple4;
              Edge (2 * n + 2) (2 * n + 3) label_blank 1 Tuple4] ++ loops in
    s = Fsa (2 * n + 5)
          (E ++ ([2 * n; 2 * n + 3] ≫= λ f,
                   retarget (2 * n + 4) <$> filter (λ e, e_to e = f) E))
          l [2 * n; 2 * n + 3].
Proof.
  intros Hty Hload. unfold run_ctc.
  rewrite (ctc_lattice_shape p s0 s1 Hload). cbn [mbind res_bind].
  intros Hrun. set (l := lemma s1) in *. set (n := Z.of_nat (length l)) in *.
  destruct (last l) as [x|] eqn:Hlast; cycle 1.
  { apply last_None in Hlast.
    destruct (_adds_last_state_for_ctc _) as [s3| |] eqn:E; cbn [mbind res_bind] in Hrun;
      [|done..].
    by apply last_stage_raises_on_empty in E. }
  assert (Hn : 1 ≤ n).
  { unfold n. destruct l; [done|]. simpl. lia. }
  rewrite bool_decide_eq_false_2 in Hrun by lia.
  rewrite (last_stage_shape _ x) in Hrun by done.
  cbn [mbind res_bind num_states edges lemma final_states app] in Hrun.
  destruct (_adds_loop_edges p _) as [s4| |] eqn:Hloops; cbn [mbind res_bind] in Hrun;
    [|done..].
  apply (adds_loop_edges_shape _ _ _ Hty) in Hloops as (loops & -> & HF).
  cbn [num_states edges set_edges] in HF, Hrun.
  replace (2 * (n + 1) - 1 + 3) with (2 * n + 4) in * by lia.
  replace (2 * (n + 1) - 1 - 3) with (2 * n - 2) in * by lia.
  replace (2 * (n + 1) - 1 + 1) with (2 * n + 2) in * by lia.
  replace (2 * (n + 1) - 1 + 2) with (2 * n + 3) in * by lia.
  replace (2 * (n + 1) - 1) with (2 * n + 1) in * by lia.
  replace (2 * n + 4 - 1) with (2 * n + 3) in * by lia.
  exists x, loops. split; [done|]. split; [done|]. cbv zeta.
  match type of Hrun with _make_single_final_state ?t = _ => set (s5 := t) in * end.
  destruct (make_single_final_state_merges s5) as (added & Hm & Hadded).
  { simpl. intros [=]. }
  destruct Hadded as [Hadded _].
  { simpl. apply NoDup_cons. split; [|apply NoDup_singleton].
    intros ?%list_elem_of_singleton. lia. }
  { simpl. repeat constructor; lia. }
  rewrite Hm in Hrun. injection Hrun as <-.
  cbn [num_states edges final_states lemma s5 set_edges] in Hadded |- *.
  rewrite Hadded, <- !app_assoc. f_equal. lia.
Qed.

(** X6. For a label sequence of [n] labels the CTC builder returns a graph
    of [2n + 5] states whose edges all start and end at a state in
    [0, num_states); the label sequence is the loaded one, [n] is at least
    1, and [final_states] still lists the two states [2n] and [2n + 3] that
    were merged, not the new last state [2n + 4]. *)
Theorem ctc_graph_shape (c : collaborators) (fuel : nat) (p : params) (s0 s1 s : fsa) :
  fsa_type p = "ctc" → load_lemma p s0 = Ok s1 → run c fuel p s0 = Ok s →
  let n := Z.of_nat (length (lemma s1)) in
  1 ≤ n ∧ num_states s = 2 * n + 5 ∧ lemma s = lemma s1 ∧
  final_states s = [2 * n; 2 * n + 3] ∧
  Forall (edge_in_range (num_states s)) (edges s).
Proof.
  intros Hty Hload. unfold run.
  rewrite Hty, bool_decide_eq_false_2, bool_decide_eq_true_2 by done.
  intros Hrun.
  destruct (run_ctc_shape p s0 s1 s (or_intror Hty) Hload Hrun)
    as (x & loops & Hlast & HF & ->).
  set (n := Z.of_nat (length (lemma s1))) in *. cbn [num_states edges lemma final_states].
  assert (Hn : 1 ≤ n).
  { unfold n. destruct (lemma s1); [done|]. simpl. lia. }
  set (E := _ ++ _ ++ loops).
  assert (HE : ∀ e, e ∈ E → 0 ≤ e_from e < 2 * n + 4 ∧ 0 ≤ e_to e < 2 * n + 4).
  { intros e [He|[He|He]%elem_of_app]%elem_of_app.
    - pose proof (ctc_lattice_edges_bound _ _ He) as Hb. fold n in Hb.
      apply elem_of_app in He as [(i & He & Hi)%list_elem_of_bind|(i & He & Hi)%list_elem_of_bind];
        apply elem_of_range in Hi.
      + apply skip_edges_at_from in He as [? ?]. lia.
      + apply blank_edges_at_elem in He as [[? ?]|[? ?]]; lia.
    - apply elem_of_cons in He as [->|He]; [simpl; lia|].
      apply elem_of_cons in He as [->|He]; [simpl; lia|].
      apply list_elem_of_singleton in He as ->. simpl. lia.
    - destruct (loops_are_loops _ _ _ HF He) as [Hr Heq].
      apply elem_of_range in Hr. lia. }
  split; [done|]. split; [done|]. split; [done|]. split; [done|].
  apply Forall_app. split; apply Forall_forall; intros e He.
  - apply HE in He. unfold edge_in_range. lia.
  - apply elem_of_merged in He as (e0 & -> & He0 & _). apply HE in He0.
    unfold edge_in_range. simpl. lia.
Qed.

Lemma ctc_graph_shape_witness :
  let s := Fsa 7
        [Edge 0 1 label_blank 1 Tuple4; Edge 1 2 (LStr "a") 1 Tuple4;
         Edge 0 3 label_blank 1 Tuple4; Edge 3 4 (LStr "a") 1 Tuple4;
         Edge 4 5 label_blank 1 Tuple4;
         Edge 1 1 label_blank 0 (List5 None); Edge 2 2 (LStr "a") 0 (List5 None);
         Edge 3 3 label_blank 0 (List5 None); Edge 4 4 (LStr "a") 0 (List5 None);
         Edge 5 5 label_blank 0 (List5 None);
         Edge 1 6 (LStr "a") 1 Tuple4; Edge 2 6 (LStr "a") 1 Tuple4;
         Edge 4 6 label_blank 1 Tuple4; Edge 5 6 label_blank 1 Tuple4]
        [LStr "a"] [2; 5] in
  1 ≤ 1 ∧ num_states s = 7 ∧ lemma s = [LStr "a"] ∧ final_states s = [2; 5] ∧
  Forall (edge_in_range (num_states s)) (edges s).
Proof.
  refine (ctc_graph_shape (Collaborators None None) 0
            (Params "ctc" (LemStr "a") 0 27 false 6 3) fsa_init
            (set_lemma (chars "a") fsa_init) _ eq_refl eq_refl _).
  vm_compute. reflexivity.
Defined.

(** X7. The CTC builder cannot build a graph for the empty label sequence:
    [_adds_last_state_for_ctc] reads [lemma[-1]] and raises [IndexError]. *)
Theorem ctc_empty_sequence_raises (c : collaborators) (fuel : nat) (p : params) (s0 s1 : fsa) :
  fsa_type p = "ctc" → load_lemma p s0 = Ok s1 → lemma s1 = [] →
  run c fuel p s0 = Raise IndexError.
Proof.
  intros Hty Hload Hl. unfold run, run_ctc.
  rewrite Hty, bool_decide_eq_false_2, bool_decide_eq_true_2 by done.
  rewrite (ctc_lattice_shape p s0 s1 Hload). cbn [mbind res_bind].
  unfold _adds_last_state_for_ctc. cbn [lemma append_edge set_edges].
  by rewrite Hl, py_index_nil.
Qed.

Lemma ctc_empty_sequence_raises_witness :
  run (Collaborators None None) 0 (Params "ctc" (LemStr "") 0 27 true 6 3) fsa_init =
  Raise IndexError.
Proof.
  exact (ctc_empty_sequence_raises (Collaborators None None) 0
           (Params "ctc" (LemStr "") 0 27 true 6 3) fsa_init
           (set_lemma [] fsa_init) eq_refl eq_refl eq_refl).
Defined.

(** ** Node renumbering *)

Lemma elem_of_indices_where {A} (P : A → Prop) `{∀ x, Decision (P x)} (l : list A) (i : nat) :
  i ∈ indices_where P l ↔ ∃ x, l !! i = Some x ∧ P x.
Proof.
  unfold indices_where. rewrite list_elem_of_fmap. split.
  - intros ([j x] & -> & [HP Hin]%list_elem_of_filter).
    apply elem_of_lookup_imap in Hin as (k & y & [= -> ->] & Hk). eauto.
  - intros (x & Hx & HP). exists (i, x). split; [done|].
    apply list_elem_of_filter. split; [done|].
    apply elem_of_lookup_imap. eauto.
Qed.

Lemma foldl_insert_lookup (v : Z) (l : list nat) (d : gmap nat Z) (i : nat) :
  foldl (λ d pos, <[pos := v]> d) d l !! i =
  if decide (i ∈ l) then Some v else d !! i.
Proof.
  revert d. induction l as [|k l IH]; intros d; cbn [foldl].
  - by destruct (decide (i ∈ [])) as [?%elem_of_nil|].
  - rewrite IH. destruct (decide (i ∈ l)) as [Hin|Hnin].
    + rewrite decide_True; [done|]. by right.
    + destruct (decide (i = k)) as [->|Hne].
      * rewrite lookup_insert_eq, decide_True; [done|]. by left.
      * rewrite lookup_insert_ne by done. rewrite decide_False; [done|].
        by intros [?|?]%elem_of_cons.
Qed.

Lemma py_index_nat_Ok {A} (l : list A) (k : nat) (x : A) :
  py_index l (Z.of_nat k) = Ok x → l !! k = Some x.
Proof.
  unfold py_index. cbv zeta.
  rewrite (bool_decide_eq_false_2 (Z.of_nat k < 0)) by lia.
  case_bool_decide; [|done]. rewrite Nat2Z.id.
  destruct (l !! k); [|done]. by intros [= ->].
Qed.

Lemma find_node_edges_cases (node : Z) (edges : list edge) (i : nat) :
  _find_node_edges node edges !! i =
  match edges !! i with
  | Some e =>
      if decide (e_from e = node ∧ e_to e = node) then Some 2
      else if decide (e_to e = node) then Some 1
      else if decide (e_from e = node) then Some 0
      else None
  | None => None
  end.
Proof.
  unfold _find_node_edges. cbv zeta. rewrite !foldl_insert_lookup, lookup_empty.
  assert (Hin : ∀ (P : edge → Prop) `{∀ x, Decision (P x)},
            i ∈ indices_where P edges ↔
            match edges !! i with Some e => P e | None => False end).
  { intros P ?. rewrite elem_of_indices_where.
    destruct (edges !! i) as [e|]; [|by split; [intros (? & ? & _)|]].
    split; [by intros (? & [= <-] & ?)|eauto]. }
  destruct (decide (i ∈ indices_where (λ e, e_from e = node ∧ e_to e = node) edges))
    as [H2|H2]; rewrite Hin in H2;
  destruct (decide (i ∈ indices_where (λ e, e_to e = node) edges))
    as [H1|H1]; rewrite Hin in H1;
  destruct (decide (i ∈ indices_where (λ e, e_from e = node) edges))
    as [H0|H0]; rewrite Hin in H0;
  destruct (edges !! i) as [e|]; try done;
  repeat (destruct (decide _)); try done; tauto.
Qed.

(** X8. The dictionary of [_find_node_edges] has a key for exactly the edge
    indices that touch the node; its value is 2 where the edge is a
    self-loop on the node, else 1 where the node is the end, else 0 (the
    node is the start). *)
Theorem find_node_edges_lookup (node : Z) (edges : list edge) (i : nat) :
  _find_node_edges node edges !! i =
  match edges !! i with
  | Some e =>
      if decide (e_from e = node ∧ e_to e = node) then Some 2
      else if decide (e_to e = node) then Some 1
      else if decide (e_from e = node) then Some 0
      else None
  | None => None
  end.
Proof. apply find_node_edges_cases. Qed.

Lemma sort_loop_ordered_tail (fuel : nat) (idx : Z) (edges : list edge) :
  0 ≤ idx ≤ Z.of_nat (length edges) →
  (∀ i e, idx ≤ Z.of_nat i → edges !! i = Some e → edge_ordered e) →
  Z.of_nat (length edges) - idx < Z.of_nat fuel →
  sort_loop fuel idx edges = Ok edges.
Proof.
  revert idx. induction fuel as [|fuel IH]; intros idx Hidx Hord Hfuel; [lia|].
  cbn [sort_loop]. case_bool_decide as Hlt; [|done].
  destruct (py_index_nonneg edges idx) as (cur & Hcur & ->); [lia|].
  cbn [mbind res_bind].
  rewrite bool_decide_eq_false_2.
  - apply IH; [lia| |lia]. intros i e Hi. apply Hord. lia.
  - specialize (Hord (Z.to_nat idx) cur ltac:(lia) Hcur).
    unfold edge_ordered in Hord. lia.
Qed.

(** X9. [_sort_node_num] returns a list without a backward edge as it is,
    after one pass over the edges. *)
Theorem sort_node_num_keeps_ordered_edges (fuel : nat) (edges : list edge) :
  Forall edge_ordered edges → (length edges < fuel)%nat →
  _sort_node_num fuel edges = Ok edges.
Proof.
  intros Hord Hfuel. apply sort_loop_ordered_tail; [lia| |lia].
  intros i e _ Hi. by eapply Forall_lookup_1.
Qed.

Lemma sort_node_num_keeps_ordered_edges_witness :
  _sort_node_num 3 [Edge 0 1 (LStr "a") 0 (List5 None); Edge 1 1 (LStr "b") 0 Tuple4] =
  Ok [Edge 0 1 (LStr "a") 0 (List5 None); Edge 1 1 (LStr "b") 0 Tuple4].
Proof.
  apply sort_node_num_keeps_ordered_edges.
  - repeat constructor; unfold edge_ordered; simpl; lia.
  - simpl. lia.
Defined.

(** Same weights and shapes, edge by edge. *)
Lemma set_item_keeps (e e' : edge) (k v : Z) :
  set_item e k v = Ok e' → e_weight e' = e_weight e ∧ e_shape e' = e_shape e.
Proof.
  unfold set_item. destruct (e_shape e) eqn:Hs; [done|..];
    repeat case_bool_decide; try done; by intros [= <-].
Qed.

Lemma keeps_trans (l1 l2 l3 : list edge) :
  Forall2 (λ e e', e_weight e' = e_weight e ∧ e_shape e' = e_shape e) l1 l2 →
  Forall2 (λ e e', e_weight e' = e_weight e ∧ e_shape e' = e_shape e) l2 l3 →
  Forall2 (λ e e', e_weight e' = e_weight e ∧ e_shape e' = e_shape e) l1 l3.
Proof.
  intros H12. revert l3. induction H12 as [|a b l1 l2 [? ?] _ IH]; intros l3 H23.
  - by apply Forall2_nil_inv_l in H23 as ->.
  - apply Forall2_cons_inv_l in H23 as (c0 & l3' & [? ?] & H23 & ->).
    constructor; [split; congruence|by apply IH].
Qed.

Lemma assign_all_keeps (d : gmap nat Z) (v : Z) (edges edges' : list edge) :
  assign_all d v edges = Ok edges' →
  Forall2 (λ e e', e_weight e' = e_weight e ∧ e_shape e' = e_shape e) edges edges'.
Proof.
  unfold assign_all. generalize (map_to_list d). intros kvs. revert edges.
  induction kvs as [|[k x] kvs IH]; intros edges; cbn [for_each].
  - intros [= <-]. by apply Forall_Forall2_diag, Forall_forall.
  - cbn [fst snd].
    destruct (py_index edges (Z.of_nat k)) as [e| |] eqn:He; cbn [mbind res_bind]; [|done..].
    destruct (set_item e x v) as [e'| |] eqn:He'; cbn [mbind res_bind]; [|done..].
    intros Hrest%IH. apply py_index_nat_Ok in He. apply set_item_keeps in He'.
    assert (H1 : Forall2 (λ e e', e_weight e' = e_weight e ∧ e_shape e' = e_shape e)
                   edges (<[k:=e']> edges)).
    { rewrite <- (list_insert_id edges k e He) at 1.
      apply Forall2_insert; [|done]. by apply Forall_Forall2_diag, Forall_forall. }
    by eapply keeps_trans.
Qed.

Lemma sort_loop_post (fuel : nat) (idx : Z) (edges edges' : list edge) :
  0 ≤ idx → sort_loop fuel idx edges = Ok edges' →
  Forall2 (λ e e', e_weight e' = e_weight e ∧ e_shape e' = e_shape e) edges edges' ∧
  ((edges' = edges ∧ ∀ i e, idx ≤ Z.of_nat i → edges !! i = Some e → edge_ordered e) ∨
   (∀ i e, (1 ≤ i)%nat → edges' !! i = Some e → edge_ordered e)).
Proof.
  revert idx edges. induction fuel as [|fuel IH]; intros idx edges Hidx; [done|].
  cbn [sort_loop]. case_bool_decide as Hlt; cycle 1.
  { intros [= <-]. split; [by apply Forall_Forall2_diag, Forall_forall|].
    left. split; [done|]. intros i e Hi He%lookup_lt_Some. lia. }
  destruct (py_index_nonneg edges idx) as (cur & Hcur & ->); [lia|].
  cbn [mbind res_bind]. case_bool_decide as Hinv.
  - destruct (assign_all _ _ edges) as [e1| |] eqn:H1; cbn [mbind res_bind]; [|done..].
    destruct (assign_all _ _ e1) as [e2| |] eqn:H2; cbn [mbind res_bind]; [|done..].
    intros [Hk Hpost]%IH; [|lia].
    apply assign_all_keeps in H1, H2. split.
    + eapply keeps_trans; [exact H1|]. by eapply keeps_trans.
    + right. destruct Hpost as [[-> Hpost]|Hpost]; [|done].
      intros i e Hi. apply Hpost. lia.
  - intros [Hk Hpost]%IH; [|lia]. split; [done|].
    destruct Hpost as [[-> Hpost]|Hpost]; [|by right].
    left. split; [done|]. intros i e Hi He.
    destruct (decide (Z.of_nat i = idx)) as [<-|Hne].
    + rewrite Nat2Z.id in Hcur. assert (e = cur) as -> by congruence.
      unfold edge_ordered. lia.
    + apply (Hpost i); [lia|done].
Qed.

(** X10. What [_sort_node_num] guarantees when it returns: as many edges as
    it was given, each with the weight and the shape of the edge at the same
    index, and no backward edge after the first edge. *)
Theorem sort_node_num_postcondition (fuel : nat) (edges edges' : list edge) :
  _sort_node_num fuel edges = Ok edges' →
  length edges' = length edges ∧
  Forall2 (λ e e', e_weight e' = e_weight e ∧ e_shape e' = e_shape e) edges edges' ∧
  Forall edge_ordered (tail edges').
Proof.
  intros [Hk Hpost]%sort_loop_post; [|lia].
  split; [symmetry; by eapply Forall2_length|]. split; [done|].
  apply Forall_lookup_2. intros i e He. rewrite lookup_tail in He.
  destruct Hpost as [[-> Hpost]|Hpost].
  - apply (Hpost (S i)); [lia|done].
  - apply (Hpost (S i)); [lia|done].
Qed.

Lemma sort_node_num_postcondition_witness :
  let e a b l := Edge a b (LStr l) 0 (List5 (Some "")) in
  length [e 3 2 "a"; e 1 3 "b"] = length [e 1 2 "a"; e 3 1 "b"] ∧
  Forall2 (λ e e', e_weight e' = e_weight e ∧ e_shape e' = e_shape e)
    [e 1 2 "a"; e 3 1 "b"] [e 3 2 "a"; e 1 3 "b"] ∧
  Forall edge_ordered (tail [e 3 2 "a"; e 1 3 "b"]).
Proof.
  intros e.
  refine (sort_node_num_postcondition 4 [e 1 2 "a"; e 3 1 "b"] [e 3 2 "a"; e 1 3 "b"] _).
  vm_compute. reflexivity.
Defined.

Lemma assign_all_tuples (d : gmap nat Z) (v : Z) (edges : list edge) :
  Forall (λ e, e_shape e = Tuple4) edges → d ≠ ∅ →
  (∀ k, is_Some (d !! k) → is_Some (edges !! k)) →
  assign_all d v edges = Raise TypeError.
Proof.
  intros Htup Hne Hdom. unfold assign_all.
  destruct (map_to_list d) as [|[k x] kvs] eqn:Hd.
  { by apply map_to_list_empty_iff in Hd. }
  assert (Hk : d !! k = Some x).
  { apply elem_of_map_to_list. rewrite Hd. by left. }
  destruct (Hdom k) as [e He]; [eauto|].
  cbn [for_each fst snd]. rewrite (py_index_lookup _ _ _ He). cbn [mbind res_bind].
  unfold set_item. by rewrite (Forall_lookup_1 _ _ _ _ Htup He).
Qed.

Lemma sort_loop_tuples (fuel : nat) (idx : Z) (edges : list edge) :
  Forall (λ e, e_shape e = Tuple4) edges → 0 ≤ idx →
  (∃ i e, idx ≤ Z.of_nat i ∧ edges !! i = Some e ∧ inverted e) →
  Z.of_nat (length edges) - idx < Z.of_nat fuel →
  sort_loop fuel idx edges = Raise TypeError.
Proof.
  intros Htup. revert idx.
  induction fuel as [|fuel IH]; intros idx Hidx (i & e & Hi & He & Hinv) Hfuel.
  { apply lookup_lt_Some in He. lia. }
  pose proof (lookup_lt_Some _ _ _ He) as Hlen.
  cbn [sort_loop]. rewrite bool_decide_eq_true_2 by lia.
  destruct (py_index_nonneg edges idx) as (cur & Hcur & ->); [lia|].
  cbn [mbind res_bind]. case_bool_decide as Hc.
  - rewrite assign_all_tuples; [done|done| |].
    + intros Hd.
      pose proof (find_node_edges_cases (e_from cur) edges (Z.to_nat idx)) as Hl.
      rewrite Hd, lookup_empty, Hcur in Hl.
      rewrite decide_False in Hl by lia.
      rewrite decide_False in Hl by lia.
      by rewrite decide_True in Hl.
    + intros k [x Hk]. rewrite find_node_edges_cases in Hk.
      destruct (edges !! k); [eauto|done].
  - apply IH; [lia| |lia]. exists i, e. split; [|done].
    destruct (decide (Z.of_nat i = idx)) as [<-|Hne]; [|lia].
    rewrite Nat2Z.id in Hcur. assert (e = cur) as -> by congruence.
    unfold inverted in Hinv. lia.
Qed.

(** X11. [_sort_node_num] cannot renumber edges that are tuples: when some
    edge is backward and all edges are 4-tuples, the first item assignment
    raises [TypeError]. *)
Theorem sort_node_num_tuples_raise (fuel : nat) (edges : list edge) :
  Forall (λ e, e_shape e = Tuple4) edges → Exists inverted edges →
  (length edges < fuel)%nat →
  _sort_node_num fuel edges = Raise TypeError.
Proof.
  intros Htup Hex Hfuel. apply sort_loop_tuples; [done|lia| |lia].
  apply Exists_exists in Hex as (e & (i & Hi)%list_elem_of_lookup_1 & Hinv).
  exists i, e. split; [lia|done].
Qed.

Lemma sort_node_num_tuples_raise_witness :
  _sort_node_num 3 [Edge 0 1 (LStr "a") 1 Tuple4; Edge 2 1 (LStr "b") 1 Tuple4] =
  Raise TypeError.
Proof.
  apply sort_node_num_tuples_raise.
  - by repeat constructor.
  - apply Exists_cons_tl, Exists_cons_hd. unfold inverted. simpl. lia.
  - simpl. lia.
Defined.

(** ** HMM: the lemma acceptor *)

Lemma lemma_word_step_exact (k : nat) (w : label) (s : fsa) :
  lemma s !! k = Some w → is_str w →
  lemma_word_step [_SIL; _EPS] (Z.of_nat k) s =
  Ok (Fsa (num_states s + (if k is O then 4 else 2)) (edges s ++ lemma_edges_at k w)
        (lemma s) (final_states s)).
Proof.
  intros Hw Hstr. unfold lemma_word_step.
  rewrite (py_index_lookup _ _ _ Hw). cbn [mbind res_bind].
  destruct (is_str w); [|done]. destruct k as [|k].
  - simpl. unfold lemma_epsil_step, append_edge, set_edges, set_num_states. simpl.
    rewrite <- !app_assoc. simpl. do 2 f_equal. lia.
  - cbn [foldl]. unfold lemma_epsil_step.
    rewrite !(bool_decide_eq_false_2 (Z.of_nat (S k) = 0)) by lia.
    unfold append_edge, set_edges, set_num_states, lemma_edges_at.
    cbn [edges num_states lemma final_states].
    rewrite <- !app_assoc. cbn [app]. f_equal. f_equal; [lia|]. f_equal.
    repeat (f_equal; try lia).
Qed.

Lemma lemma_word_step_not_str (k : nat) (w : label) (s : fsa) :
  lemma s !! k = Some w → ¬ is_str w →
  lemma_word_step [_SIL; _EPS] (Z.of_nat k) s = Raise AssertionError.
Proof.
  intros Hw Hstr. unfold lemma_word_step.
  rewrite (py_index_lookup _ _ _ Hw). cbn [mbind res_bind].
  by destruct (is_str w).
Qed.

Lemma lemma_loop_exact (ws : list label) (s : fsa) (k : nat) :
  lemma s = ws → Forall is_str (take k ws) → (k ≤ length ws)%nat →
  for_each (lemma_word_step [_SIL; _EPS]) (range 0 (Z.of_nat k)) s =
  Ok (Fsa (num_states s + (if k is O then 0 else 2 * Z.of_nat k + 2))
        (edges s ++ concat (imap lemma_edges_at (take k ws))) ws (final_states s)).
Proof.
  intros Hl. induction k as [|k IH]; intros Hstr Hk.
  - simpl. rewrite app_nil_r, Z.add_0_r, <- Hl. by destruct s.
  - destruct (lookup_lt_is_Some_2 ws k) as [w Hw]; [lia|].
    rewrite (take_S_r _ _ _ Hw) in Hstr |- *.
    apply Forall_app in Hstr as [Hstr Hw']. apply Forall_inv in Hw'.
    replace (Z.of_nat (S k)) with (Z.of_nat k + 1) by lia.
    rewrite range_snoc, for_each_app, IH by (done || lia).
    cbn [mbind res_bind for_each].
    rewrite (lemma_word_step_exact k w); [|exact Hw|exact Hw'].
    cbn [mbind res_bind num_states edges lemma final_states].
    rewrite imap_app, concat_app, length_take, Nat.min_l by lia.
    cbn [imap concat]. rewrite Nat.add_0_r, app_nil_r, <- app_assoc.
    do 2 f_equal. destruct k; lia.
Qed.

Lemma lemma_acceptor_exact (p : params) (s0 : fsa) :
  Forall is_str (words (lemma_orig p)) →
  let ws := words (lemma_orig p) in
  _lemma_acceptor_for_hmm_fsa p s0 =
  Ok (Fsa (if ws is [] then 0 else 2 * Z.of_nat (length ws) + 2)
        (concat (imap lemma_edges_at ws)) ws (final_states s0)).
Proof.
  intros Hstr ws. unfold _lemma_acceptor_for_hmm_fsa. cbv zeta.
  match goal with |- for_each _ (range 0 (Z.of_nat (length (lemma ?s)))) _ = _ =>
    assert (Hs : s = Fsa 0 [] ws (final_states s0)) by (by destruct (lemma_orig p))
  end.
  rewrite Hs. cbn [lemma].
  rewrite (lemma_loop_exact ws) by (rewrite ?firstn_all; done).
  rewrite firstn_all. cbn [num_states edges final_states app].
  destruct ws; [done|]. cbn [length]. do 2 f_equal.
Qed.

(** X12. On a sequence of str words (the pieces of [lemma_orig.split(" ")]
    for a str) the lemma acceptor returns the chain in closed form: word [k]
    adds its edge from [2k+1] to [2k+2] and then a silence and an epsilon
    edge from [2k+2] to [2k+3], the first word also the pair from 0 to 1;
    all weights are 0. [n] words give [2n + 2] states, no word gives the
    empty graph with 0 states. *)
Theorem lemma_acceptor_closed_form (p : params) (s0 : fsa) :
  Forall is_str (words (lemma_orig p)) →
  let ws := words (lemma_orig p) in
  _lemma_acceptor_for_hmm_fsa p s0 =
  Ok (Fsa (if ws is [] then 0 else 2 * Z.of_nat (length ws) + 2)
        (concat (imap lemma_edges_at ws)) ws (final_states s0)).
Proof. apply lemma_acceptor_exact. Qed.

Lemma lemma_acceptor_closed_form_witness :
  _lemma_acceptor_for_hmm_fsa (Params "hmm" (LemStr "a cat") 2 256 false 1 3) fsa_init =
  Ok (Fsa 6
        [Edge 1 2 (LStr "a") 0 List4;
         Edge 0 1 _SIL 0 List4; Edge 2 3 _SIL 0 List4;
         Edge 0 1 _EPS 0 List4; Edge 2 3 _EPS 0 List4;
         Edge 3 4 (LStr "cat") 0 List4;
         Edge 4 5 _SIL 0 List4; Edge 4 5 _EPS 0 List4]
        [LStr "a"; LStr "cat"] []).
Proof.
  apply (lemma_acceptor_closed_form (Params "hmm" (LemStr "a cat") 2 256 false 1 3) fsa_init).
  by repeat constructor.
Defined.

Lemma split_space_aux_nonempty (s cur : string) : split_space_aux s cur ≠ [].
Proof.
  revert cur. induction s as [|ch s IH]; intros cur; simpl; [done|].
  destruct (Ascii.eqb ch " "); [done|apply IH].
Qed.

(** X13. A str [lemma_orig] never makes the lemma acceptor fail, and never
    gives the empty graph: [split(" ")] returns at least one piece (the
    empty word for the empty string), so there are at least 4 states. *)
Theorem lemma_acceptor_on_str (p : params) (s0 : fsa) (str : string) :
  lemma_orig p = LemStr str →
  ∃ s, _lemma_acceptor_for_hmm_fsa p s0 = Ok s ∧
       lemma s = LStr <$> split_space str ∧
       num_states s = 2 * Z.of_nat (length (split_space str)) + 2 ∧
       4 ≤ num_states s.
Proof.
  intros Hlo. unfold _lemma_acceptor_for_hmm_fsa. cbv zeta. rewrite Hlo.
  cbn [lemma set_lemma].
  rewrite (lemma_loop_exact (LStr <$> split_space str)); [|done| |done].
  - eexists. split; [done|]. cbn [lemma num_states set_lemma set_num_states].
    split; [done|]. rewrite length_fmap.
    pose proof (split_space_aux_nonempty str EmptyString) as Hne.
    fold (split_space str) in Hne.
    destruct (split_space str); [done|]. cbn [length]. lia.
  - rewrite firstn_all. apply Forall_fmap, Forall_forall. by intros x _.
Qed.

Lemma lemma_acceptor_on_str_witness :
  ∃ s, _lemma_acceptor_for_hmm_fsa (Params "hmm" (LemStr "") 2 256 false 1 3) fsa_init = Ok s ∧
       lemma s = LStr <$> split_space "" ∧
       num_states s = 2 * Z.of_nat (length (split_space "")) + 2 ∧
       4 ≤ num_states s.
Proof.
  exact (lemma_acceptor_on_str (Params "hmm" (LemStr "") 2 256 false 1 3) fsa_init ""
           eq_refl).
Defined.

(** X14. A word that is not a str stops the lemma acceptor with an
    [AssertionError], wherever it stands in the list. *)
Theorem lemma_acceptor_asserts_str (p : params) (s0 : fsa) (ws : list label) :
  lemma_orig p = LemList ws → ¬ Forall is_str ws →
  _lemma_acceptor_for_hmm_fsa p s0 = Raise AssertionError.
Proof.
  intros Hlo Hnot. unfold _lemma_acceptor_for_hmm_fsa. cbv zeta. rewrite Hlo.
  cbn [lemma set_lemma].
  apply not_Forall_Exists in Hnot; [|intros x; apply _].
  apply Exists_exists in Hnot as (x & Hx & Hnx).
  destruct (list_find_elem_of (λ w, ¬ is_str w) ws x Hx Hnx) as [[k w] Hf].
  apply list_find_Some in Hf as (Hk & Hw & Hbefore).
  pose proof (lookup_lt_Some _ _ _ Hk) as Hlt.
  rewrite (range_app 0 (Z.of_nat k) (Z.of_nat (length ws))) by lia.
  rewrite (range_cons (Z.of_nat k)) by lia.
  erewrite for_each_raise; [done| |].
  - apply (lemma_loop_exact ws); [done| |lia].
    apply Forall_forall. intros y (i & Hi)%list_elem_of_lookup_1.
    apply lookup_take_Some in Hi as [Hi Hik].
    destruct (decide (is_str y)) as [|Hn]; [done|]. by destruct (Hbefore i y).
  - apply (lemma_word_step_not_str k w); [exact Hk|exact Hw].
Qed.

Lemma lemma_acceptor_asserts_str_witness :
  _lemma_acceptor_for_hmm_fsa
    (Params "hmm" (LemList [LStr "a"; LInt 7]) 2 256 false 1 3) fsa_init =
  Raise AssertionError.
Proof.
  apply (lemma_acceptor_asserts_str
           (Params "hmm" (LemList [LStr "a"; LInt 7]) 2 256 false 1 3) fsa_init
           [LStr "a"; LInt 7] eq_refl).
  intros H. apply Forall_cons in H as [_ H]. apply Forall_cons in H as [H _]. done.
Defined.

(** ** Self-loops in closed form *)

Lemma loop_edge_for_ends (es : list edge) (q : Z) (lp : edge) :
  loop_edge_for es q = Some lp → e_from lp = q ∧ e_to lp = q.
Proof.
  unfold loop_edge_for. destruct (filter _ es); [done|]. by intros [= <-].
Qed.

Lemma loops_prefix_ok (s : fsa) (k : nat) (loops : list edge) :
  Forall2 (λ q lp, loop_edge_for (edges s) q = Some lp) (range 1 (Z.of_nat k + 1)) loops →
  for_each add_loop_edge (range 1 (Z.of_nat k + 1)) s =
  Ok (set_edges (edges s ++ loops) s).
Proof.
  revert loops. induction k as [|k IH]; intros loops HF.
  - apply Forall2_nil_inv_l in HF as ->. simpl. rewrite app_nil_r. by destruct s.
  - replace (Z.of_nat (S k) + 1) with (Z.of_nat k + 1 + 1) in * by lia.
    rewrite range_snoc in HF |- * by lia.
    apply Forall2_app_inv_l in HF as (l1 & l2 & H1 & H2 & ->).
    apply Forall2_cons_inv_l in H2 as (lp & l2' & Hlp & ->%Forall2_nil_inv_l & ->).
    rewrite for_each_app, (IH l1 H1). cbn [mbind res_bind for_each].
    unfold loop_edge_for in Hlp.
    destruct (filter _ (edges s)) as [|e rest] eqn:Hfil; [done|].
    injection Hlp as <-.
    rewrite (add_loop_edge_first _ _ e rest); cycle 1.
    { cbn [edges set_edges]. rewrite filter_app, Hfil.
      rewrite (filter_none _ l1); [by rewrite app_nil_r|].
      apply Forall_forall. intros lp (i & Hi)%list_elem_of_lookup_1 [Hto _].
      destruct (Forall2_lookup_r _ _ _ _ _ H1 Hi) as (q & Hq & Hlq).
      apply loop_edge_for_ends in Hlq as [_ Hlq].
      apply list_elem_of_lookup_2, elem_of_range in Hq. lia. }
    unfold append_edge, set_edges. cbn [edges num_states lemma final_states].
    by rewrite <- app_assoc.
Qed.

Lemma loops_ok (s : fsa) (n : Z) (loops : list edge) :
  Forall2 (λ q lp, loop_edge_for (edges s) q = Some lp) (range 1 n) loops →
  for_each add_loop_edge (range 1 n) s = Ok (set_edges (edges s ++ loops) s).
Proof.
  destruct (decide (n ≤ 1)) as [Hn|Hn].
  - rewrite range_empty by done. intros ->%Forall2_nil_inv_l.
    simpl. rewrite app_nil_r. by destruct s.
  - replace n with (Z.of_nat (Z.to_nat (n - 1)) + 1) by lia. apply loops_prefix_ok.
Qed.

Lemma omap_Forall2 {A B} (f : A → option B) (l : list A) :
  Forall (λ x, f x ≠ None) l → Forall2 (λ x y, f x = Some y) l (omap f l).
Proof.
  induction 1 as [|x l Hx _ IH]; [constructor|]. simpl.
  destruct (f x) as [y|] eqn:Hy; [|done]. by constructor.
Qed.

Lemma loops_fail (s : fsa) (n q : Z) :
  1 ≤ q < n → loop_edge_for (edges s) q = None →
  for_each add_loop_edge (range 1 n) s = Raise IndexError.
Proof.
  intros Hq Hnone.
  destruct (list_find_elem_of (λ q, loop_edge_for (edges s) q = None) (range 1 n) q)
    as [[i q0] Hf]; [by apply elem_of_range|done|].
  apply list_find_Some in Hf as (Hi & Hq0 & Hbefore).
  assert (Hr : 1 ≤ q0 < n) by (by eapply elem_of_range, list_elem_of_lookup_2).
  assert (Hi' : q0 = 1 + Z.of_nat i).
  { unfold range in Hi. rewrite list_lookup_fmap in Hi.
    destruct (seq 0 _ !! i) as [j|] eqn:Hj; [|done].
    apply lookup_seq in Hj as [-> _]. simpl in Hi. by injection Hi as <-. }
  rewrite (range_app 1 q0 n), (range_cons q0) by lia.
  eapply for_each_raise.
  - apply (loops_ok s q0 (omap (loop_edge_for (edges s)) (range 1 q0))).
    assert (Hall : Forall (λ q, loop_edge_for (edges s) q ≠ None) (range 1 q0)).
    { apply Forall_forall. intros q' (j & Hj)%list_elem_of_lookup_1.
      pose proof (lookup_lt_Some _ _ _ Hj) as Hlt. rewrite length_range in Hlt.
      apply (Hbefore j); [|lia].
      unfold range in Hj |- *. rewrite list_lookup_fmap in Hj |- *.
      destruct (seq 0 (Z.to_nat (q0 - 1)) !! j) as [j'|] eqn:Hj'; [|done].
      apply lookup_seq in Hj' as [-> _]. rewrite lookup_seq_lt by lia. done. }
    by apply omap_Forall2.
  - apply add_loop_edge_none. cbn [edges set_edges]. rewrite filter_app.
    rewrite (filter_none _ (omap _ _)).
    + unfold loop_edge_for in Hq0. by destruct (filter _ (edges s)).
    + apply Forall_forall. intros lp (q' & Hq' & Hlp)%list_elem_of_omap [Hto _].
      apply loop_edge_for_ends in Hlp as [_ Hlp]. apply elem_of_range in Hq'. lia.
Qed.

Lemma adds_loop_edges_unfold (p : params) (s : fsa) :
  fsa_type p = "asg" ∨ fsa_type p = "ctc" ∨ fsa_type p = "hmm" →
  _adds_loop_edges p s = for_each add_loop_edge (range 1 (countloops p s)) s.
Proof.
  intros Hty. unfold _adds_loop_edges, countloops.
  destruct Hty as [Hty|[Hty|Hty]]; rewrite Hty.
  - by rewrite bool_decide_eq_true_2, bool_decide_eq_false_2 by (done || by left).
  - by rewrite bool_decide_eq_true_2, bool_decide_eq_false_2 by (done || by right).
  - rewrite bool_decide_eq_false_2, !bool_decide_eq_true_2 by (done || by intros [|]).
    done.
Qed.

(** X15. [_adds_loop_edges] in closed form. It returns exactly when every
    state from 1 up to the bound (exclusive; [num_states], or
    [num_states - 1] for ["hmm"]) has an incoming edge not labelled ["*"];
    it then appends, in the order of the states, one self-loop per state
    with the label and the position of the first such edge (position [None]
    for an edge without a fifth item) and weight 0, and changes nothing
    else. Loops added earlier are never candidates. *)
Theorem adds_loop_edges_closed_form (p : params) (s s' : fsa) :
  fsa_type p = "asg" ∨ fsa_type p = "ctc" ∨ fsa_type p = "hmm" →
  _adds_loop_edges p s = Ok s' ↔
  ∃ loops,
    Forall2 (λ q lp, loop_edge_for (edges s) q = Some lp)
      (range 1 (countloops p s)) loops ∧
    s' = set_edges (edges s ++ loops) s.
Proof.
  intros Hty. rewrite (adds_loop_edges_unfold p s Hty). split.
  - intros Hok.
    destruct (decide (Forall (λ q, loop_edge_for (edges s) q ≠ None)
                        (range 1 (countloops p s)))) as [Hall|Hnot].
    + exists (omap (loop_edge_for (edges s)) (range 1 (countloops p s))).
      assert (HF : Forall2 (λ q lp, loop_edge_for (edges s) q = Some lp)
                     (range 1 (countloops p s))
                     (omap (loop_edge_for (edges s)) (range 1 (countloops p s)))).
      { by apply omap_Forall2. }
      split; [done|]. rewrite (loops_ok _ _ _ HF) in Hok. by injection Hok.
    + apply not_Forall_Exists in Hnot; [|intros x; apply _].
      apply Exists_exists in Hnot as (q & Hq%elem_of_range & Hnone).
      rewrite (loops_fail s _ q Hq) in Hok; [done|].
      destruct (loop_edge_for (edges s) q) eqn:E; [|done].
      exfalso. apply Hnone. simpl. by rewrite E.
  - intros (loops & HF & ->). by apply loops_ok.
Qed.

Lemma adds_loop_edges_closed_form_witness :
  let p := Params "hmm" (LemStr "a") 0 27 false 5 3 in
  let s := Fsa 3 [Edge 0 1 (LStr "a") 0 (List5 (Some "if")); Edge 1 2 _SIL 0 List4] [] [] in
  let s' := Fsa 3 [Edge 0 1 (LStr "a") 0 (List5 (Some "if")); Edge 1 2 _SIL 0 List4;
                   Edge 1 1 (LStr "a") 0 (List5 (Some "if"))] [] [] in
  _adds_loop_edges p s = Ok s' ↔
  ∃ loops,
    Forall2 (λ q lp, loop_edge_for (edges s) q = Some lp)
      (range 1 (countloops p s)) loops ∧
    s' = set_edges (edges s ++ loops) s.
Proof.
  intros p s s'. apply (adds_loop_edges_closed_form p s s'). right. by right.
Defined.

(** X16. [_adds_loop_edges] raises [IndexError] as soon as one state in its
    range has no incoming edge other than ["*"] edges: [edges_included[0]]
    is read outside the [try]. *)
Theorem adds_loop_edges_raises (p : params) (s : fsa) (q : Z) :
  fsa_type p = "asg" ∨ fsa_type p = "ctc" ∨ fsa_type p = "hmm" →
  1 ≤ q < countloops p s →
  Forall (λ e, e_to e = q → e_label e = _EPS) (edges s) →
  _adds_loop_edges p s = Raise IndexError.
Proof.
  intros Hty Hq Hno. rewrite (adds_loop_edges_unfold p s Hty).
  apply (loops_fail s _ q Hq). unfold loop_edge_for.
  rewrite filter_none; [done|]. apply Forall_forall. intros e He [Hto Hl].
  by apply Hl, (proj1 (Forall_forall _ _) Hno e He).
Qed.

Lemma adds_loop_edges_raises_witness :
  _adds_loop_edges (Params "hmm" (LemStr "") 0 27 false 5 3)
    (Fsa 4 [Edge 0 1 (LStr "a") 0 List4; Edge 1 2 _EPS 0 List4; Edge 2 3 (LStr "b") 0 List4]
       [] []) = Raise IndexError.
Proof.
  apply (adds_loop_edges_raises _ _ 2).
  - right. by right.
  - unfold countloops. simpl. lia.
  - repeat constructor; simpl; (done || lia).
Defined.

(** ** HMM: triphones *)

Lemma sil_eps_check (edges : list edge) (idxs : list nat) (cands : list edge) :
  Forall2 (λ i x, edges !! i = Some x) idxs cands →
  for_each (λ idx (_ : unit),
      e ← py_index edges (Z.of_nat idx);
      if bool_decide (e_label e = _SIL ∨ e_label e = _EPS) then Ok ()
      else Raise AssertionError) idxs () =
  if decide (Forall is_sil_eps cands) then Ok () else Raise AssertionError.
Proof.
  induction 1 as [|i x idxs cands Hi _ IH].
  - by rewrite decide_True by constructor.
  - cbn [for_each]. rewrite (py_index_lookup _ _ _ Hi). cbn [mbind res_bind].
    case_bool_decide as Hx; cbn [mbind res_bind].
    + rewrite IH. destruct (decide (Forall is_sil_eps cands)) as [Hc|Hc].
      * rewrite decide_True; [done|]. by constructor.
      * rewrite decide_False; [done|]. by intros [_ ?]%Forall_cons.
    + rewrite decide_False; [done|]. by intros [? _]%Forall_cons.
Qed.

(** X17. [_find_prev_next_edge] by cases on the edges adjacent to the
    current one (those ending where it starts for switch 0, those starting
    where it ends for switch 1): none gives the empty label, exactly one
    gives that edge's label, several give the empty label when all of them
    are silence or epsilon edges and an [AssertionError] otherwise. *)
Theorem find_prev_next_edge_cases (cur_edge : edge) (pn_switch : Z) (edges : list edge) :
  pn_switch = 0 ∨ pn_switch = 1 →
  let adjacent :=
    filter (λ e, (if bool_decide (pn_switch = 0) then e_from cur_edge else e_to cur_edge) =
                 (if bool_decide (pn_switch = 0) then e_to e else e_from e)) edges in
  _find_prev_next_edge cur_edge pn_switch edges =
  match adjacent with
  | [] => Ok (LStr "")
  | [e] => Ok (e_label e)
  | _ => if decide (Forall is_sil_eps adjacent) then Ok (LStr "")
         else Raise AssertionError
  end.
Proof.
  intros Hpn adjacent. unfold _find_prev_next_edge. cbv beta zeta.
  rewrite bool_decide_eq_true_2 by done.
  pose proof (indices_where_lookup
    (λ e, (if bool_decide (pn_switch = 0) then e_from cur_edge else e_to cur_edge) =
          (if bool_decide (pn_switch = 0) then e_to e else e_from e)) edges) as HF.
  fold adjacent in HF.
  pose proof (Forall2_length _ _ _ HF) as Hlen.
  rewrite (sil_eps_check _ _ _ HF), Hlen.
  destruct adjacent as [|e [|e' rest]].
  - apply Forall2_nil_inv_r in HF as ->. done.
  - apply Forall2_cons_inv_r in HF as (i & idxs & Hi & ->%Forall2_nil_inv_r & ->).
    cbn [length]. rewrite (bool_decide_eq_false_2 (1 < 1)%nat) by lia.
    cbn [mbind res_bind]. rewrite (bool_decide_eq_true_2 (1 = 1)%nat) by done.
    change (py_index [i] 0) with (Ok i). cbn [mbind res_bind].
    by rewrite (py_index_lookup _ _ _ Hi).
  - cbn [length]. rewrite (bool_decide_eq_true_2 (1 < _)%nat) by lia.
    destruct (decide _); cbn [mbind res_bind]; [|done].
    by rewrite (bool_decide_eq_false_2 (_ = 1)%nat) by lia.
Qed.

Lemma find_prev_next_edge_cases_witness :
  _find_prev_next_edge (Edge 1 2 (LStr "a") 0 List4) 0
    [Edge 0 1 _SIL 0 List4; Edge 0 1 _EPS 0 List4; Edge 1 2 (LStr "a") 0 List4] =
  Ok (LStr "").
Proof.
  exact (find_prev_next_edge_cases (Edge 1 2 (LStr "a") 0 List4) 0
           [Edge 0 1 _SIL 0 List4; Edge 0 1 _EPS 0 List4; Edge 1 2 (LStr "a") 0 List4]
           (or_introl eq_refl)).
Defined.

(** A loop that appends one output per input. *)
Lemma for_each_acc_rel {A B} (f : A → list B → res (list B)) (R : A → B → Prop)
    (l : list A) (acc r : list B) :
  (∀ x acc r, f x acc = Ok r → ∃ y, r = acc ++ [y] ∧ R x y) →
  for_each f l acc = Ok r → ∃ ys, r = acc ++ ys ∧ Forall2 R l ys.
Proof.
  intros Hf. revert acc. induction l as [|x l IH]; intros acc; cbn [for_each].
  - intros [= <-]. exists []. by rewrite app_nil_r.
  - destruct (f x acc) as [r1| |] eqn:Hx; cbn [mbind res_bind]; [|done..].
    apply Hf in Hx as (y & -> & Hy). intros (ys & -> & Hys)%IH.
    exists (y :: ys). rewrite <- app_assoc. split; [done|]. by constructor.
Qed.

(** X18. When the triphone acceptor returns, states, label sequence and
    final states are as before and the edges correspond one to one, in
    order, with the same endpoints and weight: a silence or epsilon edge is
    kept as it is; any other edge keeps its position item and gets a
    three-item label with its former label in the middle. *)
Theorem triphone_acceptor_relabels (s s' : fsa) :
  _triphone_acceptor_for_hmm_fsa s = Ok s' →
  num_states s' = num_states s ∧ lemma s' = lemma s ∧ final_states s' = final_states s ∧
  Forall2 (λ e e',
      same_arc e e' ∧
      (is_sil_eps e → e' = e) ∧
      (¬ is_sil_eps e →
       e_shape e' = e_shape e ∧
       ∃ left centre right,
         atom_of_label (e_label e) = Ok centre ∧
         e_label e' = LList [left; centre; right]))
    (edges s) (edges s').
Proof.
  unfold _triphone_acceptor_for_hmm_fsa.
  destruct (for_each _ (edges s) []) as [es| |] eqn:Hloop; cbn [mbind res_bind]; [|done..].
  intros [= <-]. cbn [num_states lemma final_states edges set_edges].
  split; [done|]. split; [done|]. split; [done|].
  eapply for_each_acc_rel in Hloop as (ys & -> & HF); [exact HF|].
  intros e acc r. unfold triphone_step, is_sil_eps, same_arc. case_bool_decide as Hse.
  - intros [= <-]. exists e. split; [done|]. split; [done|]. split; [done|]. done.
  - destruct (_find_prev_next_edge e 0 _) as [pl| |]; cbn [mbind res_bind]; [|done..].
    destruct (_find_prev_next_edge e 1 _) as [nl| |]; cbn [mbind res_bind]; [|done..].
    destruct (atom_of_label pl) as [a| |]; cbn [mbind res_bind]; [|done..].
    destruct (atom_of_label (e_label e)) as [b| |]; cbn [mbind res_bind]; [|done..].
    destruct (atom_of_label nl) as [d| |]; cbn [mbind res_bind]; [|done..].
    unfold e_pos. destruct (e_shape e) as [| |pos] eqn:Hsh; cbn [mbind res_bind]; [done..|].
    intros [= <-]. eexists. split; [done|]. cbn [e_from e_to e_weight e_label e_shape].
    split; [done|]. split; [done|]. intros _. split; [done|]. by exists a, b, d.
Qed.

Lemma triphone_acceptor_relabels_witness :
  let s := Fsa 3 [Edge 0 1 _SIL 0 (List5 (Some "")); Edge 1 2 (LStr "a") 0 (List5 (Some "if"))]
             [LStr "a"] [] in
  let s' := Fsa 3 [Edge 0 1 _SIL 0 (List5 (Some ""));
                   Edge 1 2 (LList [AStr "_"; AStr "a"; AStr ""]) 0 (List5 (Some "if"))]
              [LStr "a"] [] in
  num_states s' = num_states s ∧ lemma s' = lemma s ∧ final_states s' = final_states s ∧
  Forall2 (λ e e',
      same_arc e e' ∧
      (is_sil_eps e → e' = e) ∧
      (¬ is_sil_eps e →
       e_shape e' = e_shape e ∧
       ∃ left centre right,
         atom_of_label (e_label e) = Ok centre ∧
         e_label e' = LList [left; centre; right]))
    (edges s) (edges s').
Proof.
  intros s s'. apply (triphone_acceptor_relabels s s'). vm_compute. reflexivity.
Defined.

(** ** HMM: allophone states *)

Lemma count_foldl_shift (es : list edge) (a : Z) :
  foldl (λ c e, if bool_decide (e_label e ≠ _SIL ∧ e_label e ≠ _EPS) then c + 1 else c) a es =
  a + foldl (λ c e, if bool_decide (e_label e ≠ _SIL ∧ e_label e ≠ _EPS) then c + 1 else c)
        0 es.
Proof.
  revert a. induction es as [|x es IH]; intros c; cbn [foldl]; [lia|].
  rewrite (IH (if bool_decide _ then c + 1 else c)).
  rewrite (IH (if bool_decide _ then 0 + 1 else 0)).
  case_bool_decide; lia.
Qed.

Lemma count_non_sil_eps_cons (e : edge) (es : list edge) :
  _count_all_edges_non_sil_or_eps (e :: es) _SIL _EPS =
  (if bool_decide (e_label e ≠ _SIL ∧ e_label e ≠ _EPS) then 1 else 0) +
  _count_all_edges_non_sil_or_eps es _SIL _EPS.
Proof.
  unfold _count_all_edges_non_sil_or_eps. cbn [foldl].
  rewrite count_foldl_shift. case_bool_decide; lia.
Qed.

Lemma allo_state_step_counts (p : params) (e : edge) (st n : Z) (out : list edge)
    (r : Z * list edge) :
  allo_state_step p e st (n, out) = Ok r →
  ∃ x, r = (n + (if decide (st = 0 ∨ st = allo_num_states p - 1) then 1 else 0),
            out ++ [x]).
Proof.
  unfold allo_state_step.
  destruct (allo_label (e_label e) st) as [lbl| |]; cbn [mbind res_bind]; [|done..].
  destruct (e_pos e) as [pos| |]; cbn [mbind res_bind]; [|done..].
  destruct (decide (st = 0 ∨ st = allo_num_states p - 1)) as [Hst|Hst];
    repeat case_bool_decide; try (exfalso; tauto); intros [= <-];
    eexists; f_equal; lia.
Qed.

Lemma allo_state_loop (p : params) (e : edge) (l : list Z) (n n' : Z) (out out' : list edge) :
  for_each (allo_state_step p e) l (n, out) = Ok (n', out') →
  n' = n + Z.of_nat (length (filter (λ st, st = 0 ∨ st = allo_num_states p - 1) l)) ∧
  length out' = (length out + length l)%nat.
Proof.
  revert n out. induction l as [|st l IH]; intros n out; cbn [for_each].
  - intros [= <- <-]. simpl. split; lia.
  - destruct (allo_state_step p e st (n, out)) as [r| |] eqn:Hr; cbn [mbind res_bind];
      [|done..].
    apply allo_state_step_counts in Hr as (x & ->). intros [-> ->]%IH.
    rewrite filter_cons, length_app.
    destruct (decide (st = 0 ∨ st = allo_num_states p - 1)); simpl; split; lia.
Qed.

Lemma range_ends_count (k : Z) :
  2 ≤ k → length (filter (λ st, st = 0 ∨ st = k - 1) (range 0 k)) = 2%nat.
Proof.
  intros Hk. rewrite (range_cons 0 k) by lia.
  rewrite (range_app (0 + 1) (k - 1) k) by lia.
  rewrite (range_cons (k - 1) k) by lia.
  rewrite (range_empty (k - 1 + 1) k) by lia.
  rewrite filter_cons_True by (by left).
  rewrite filter_app, (filter_none _ (range _ _)).
  - by rewrite filter_cons_True by (by right).
  - apply Forall_forall. intros x Hx%elem_of_range. lia.
Qed.

Lemma allo_edge_step_counts (p : params) (e : edge) (n n' : Z) (out out' : list edge) :
  allo_edge_step p e (n, out) = Ok (n', out') →
  let c := if bool_decide (e_label e ≠ _SIL ∧ e_label e ≠ _EPS) then 1 else 0 in
  n' = n + (if bool_decide (allo_num_states p > 1) then 2 * c else 0) ∧
  Z.of_nat (length out') =
    Z.of_nat (length out) + (1 - c) +
    (if bool_decide (allo_num_states p > 1) then allo_num_states p * c else 0).
Proof.
  unfold allo_edge_step. cbn [fst snd]. case_bool_decide as Hse.
  - intros [= <- <-]. cbv zeta.
    rewrite (bool_decide_eq_false_2 (_ ∧ _)) by (destruct (decide (e_label e = _SIL)); tauto).
    rewrite length_app. simpl. case_bool_decide; split; lia.
  - cbv zeta.
    rewrite (bool_decide_eq_true_2 (_ ∧ _)) by (split; intros ?; apply Hse; tauto).
    case_bool_decide as Hk.
    + intros [-> ->]%allo_state_loop.
      rewrite range_ends_count, length_range by lia. split; lia.
    + intros [= <- <-]. split; lia.
Qed.

Lemma allo_expand_counts (p : params) (es : list edge) (n n' : Z) (out out' : list edge) :
  for_each (allo_edge_step p) es (n, out) = Ok (n', out') →
  let cnt := _count_all_edges_non_sil_or_eps es _SIL _EPS in
  n' = n + (if bool_decide (allo_num_states p > 1) then 2 * cnt else 0) ∧
  Z.of_nat (length out') =
    Z.of_nat (length out) + (Z.of_nat (length es) - cnt) +
    (if bool_decide (allo_num_states p > 1) then allo_num_states p * cnt else 0).
Proof.
  revert n out. induction es as [|e es IH]; intros n out; cbn [for_each].
  - intros [= <- <-]. unfold _count_all_edges_non_sil_or_eps. simpl.
    case_bool_decide; split; lia.
  - destruct (allo_edge_step p e (n, out)) as [[n1 out1]| |] eqn:H1; cbn [mbind res_bind];
      [|done..].
    apply allo_edge_step_counts in H1 as [-> Hl1]. intros [-> Hl]%IH.
    cbv zeta. rewrite count_non_sil_eps_cons, Hl, Hl1. cbv zeta.
    cbn [length]. case_bool_decide; case_bool_decide; split; nia.
Qed.

(** X19. When the allophone-state acceptor returns, every edge that is
    neither silence nor epsilon (counted as
    [_count_all_edges_non_sil_or_eps] counts them) has been replaced by
    [allo_num_states] sub-edges and has added two states, whatever
    [allo_num_states] above 1 is; with [allo_num_states] at most 1 these
    edges are dropped and no state is added. Silence and epsilon edges stay,
    and so do the label sequence and the final states. *)
Theorem allophone_acceptor_counts (fuel : nat) (p : params) (s s' : fsa) :
  _allophone_state_acceptor_for_hmm_fsa fuel p s = Ok s' →
  let cnt := _count_all_edges_non_sil_or_eps (edges s) _SIL _EPS in
  let k := allo_num_states p in
  num_states s' = num_states s + (if bool_decide (k > 1) then 2 * cnt else 0) ∧
  Z.of_nat (length (edges s')) =
    Z.of_nat (length (edges s)) - cnt + (if bool_decide (k > 1) then k * cnt else 0) ∧
  lemma s' = lemma s ∧ final_states s' = final_states s.
Proof.
  unfold _allophone_state_acceptor_for_hmm_fsa, allo_expand.
  destruct (for_each _ (edges s) _) as [[n out]| |] eqn:Hexp; cbn [mbind res_bind];
    [|done..].
  destruct (_sort_node_num fuel out) as [es| |] eqn:Hsort; cbn [mbind res_bind]; [|done..].
  intros [= <-]. cbn [num_states edges lemma final_states set_edges set_num_states].
  apply allo_expand_counts in Hexp as [-> Hlen]. cbv zeta in Hlen |- *.
  apply sort_loop_post in Hsort as [Hk _]; [|lia].
  apply Forall2_length in Hk. rewrite <- Hk, Hlen. simpl. repeat split; lia.
Qed.

Lemma allophone_acceptor_counts_witness :
  let s := Fsa 4 [Edge 0 1 _SIL 0 (List5 (Some ""));
                  Edge 1 2 (LList [AStr ""; AStr "a"; AStr ""]) 0 (List5 (Some "if"));
                  Edge 2 3 _EPS 0 (List5 (Some ""))] [LStr "a"] [] in
  ∃ s', _allophone_state_acceptor_for_hmm_fsa 20 (Params "hmm" (LemStr "a") 2 256 false 4 3) s
        = Ok s' ∧
        num_states s' = 4 + 2 * 1 ∧ Z.of_nat (length (edges s')) = 3 - 1 + 3 * 1.
Proof.
  intros s. eexists. split; [vm_compute; reflexivity|].
  match goal with |- num_states ?s' = _ ∧ _ =>
    destruct (allophone_acceptor_counts 20 (Params "hmm" (LemStr "a") 2 256 false 4 3) s s')
      as (H1 & H2 & _); [vm_compute; reflexivity|]
  end.
  split; [exact H1|exact H2].
Defined.

(** ** HMM: state tying *)

(** X20. When state tying returns, the state-tying file exists and the
    edges correspond one to one, in order, with the same endpoints and
    weight; every input edge had five items, every output edge is a
    4-tuple. Unless the label is ["*"], the allophone syntax built for
    the edge is a key of the table, also when [label_conversion] is off and
    the table entry is not used; the new label is the syntax string when
    [label_conversion] is off, and else the table entry (or ["*"]). *)
Theorem state_tying_keeps_arcs (c : collaborators) (p : params) (s s' : fsa) :
  _state_tying_for_hmm_fsa c p s = Ok s' →
  ∃ allo_map,
    state_tying_file c = Some allo_map ∧
    num_states s' = num_states s ∧ lemma s' = lemma s ∧
    final_states s' = final_states s ∧
    Forall2 (λ e e',
        same_arc e e' ∧ e_shape e' = Tuple4 ∧
        ∃ pos allo_syntax,
          e_shape e = List5 pos ∧
          _build_allo_syntax_for_mapping (e_label e) pos = Ok allo_syntax ∧
          (e_label e ≠ _EPS → is_Some (allo_map !! allo_syntax)) ∧
          e_label e' =
            if label_conversion p then
              if bool_decide (e_label e = _EPS) then LStr "*"
              else default (LStr "") (LInt <$> allo_map !! allo_syntax)
            else LStr allo_syntax)
      (edges s) (edges s').
Proof.
  unfold _state_tying_for_hmm_fsa, _load_state_tying_file. cbv zeta.
  destruct (state_tying_file c) as [allo_map|]; cbn [mbind res_bind]; [|done].
  destruct (for_each _ (edges s) []) as [es| |] eqn:Hloop; cbn [mbind res_bind]; [|done..].
  intros [= <-]. exists allo_map.
  cbn [num_states lemma final_states edges set_edges].
  split; [done|]. split; [done|]. split; [done|]. split; [done|].
  eapply for_each_acc_rel in Hloop as (ys & -> & HF); [exact HF|].
  intros e acc r. unfold state_tying_step, same_arc.
  destruct (e_shape e) as [| |pos] eqn:Hsh; [done..|].
  destruct (_build_allo_syntax_for_mapping (e_label e) pos) as [syn| |] eqn:Hsyn;
    cbn [mbind res_bind]; [|done..].
  case_bool_decide as Heps; cbn [mbind res_bind].
  - destruct (label_conversion p); intros [= <-]; eexists; (split; [done|]);
      cbn [e_from e_to e_weight e_label e_shape];
      (split; [done|]); (split; [done|]); exists pos, syn; by repeat split.
  - destruct (allo_map !! syn) as [k|] eqn:Hk; cbn [mbind res_bind]; [|done].
    destruct (label_conversion p); intros [= <-]; eexists; (split; [done|]);
      cbn [e_from e_to e_weight e_label e_shape];
      (split; [done|]); (split; [done|]); exists pos, syn; rewrite Hk; by repeat split.
Qed.

Lemma state_tying_keeps_arcs_witness :
  let c := Collaborators None (Some {[ "a{#+#}@i@f.0"%string := 7 ]}) in
  let p := Params "hmm" (LemStr "a") 2 256 false 6 3 in
  let s := Fsa 2 [Edge 0 1 (LList [AStr ""; AStr "a"; AStr ""; AInt 0]) 0 (List5 (Some "if"))]
             [LStr "a"] [] in
  _state_tying_for_hmm_fsa c p s =
    Ok (Fsa 2 [Edge 0 1 (LStr "a{#+#}@i@f.0") 0 Tuple4] [LStr "a"] []) ∧
  ∃ allo_map, state_tying_file c = Some allo_map.
Proof.
  intros c p s.
  assert (H : _state_tying_for_hmm_fsa c p s =
              Ok (Fsa 2 [Edge 0 1 (LStr "a{#+#}@i@f.0") 0 Tuple4] [LStr "a"] []))
    by (vm_compute; reflexivity).
  split; [exact H|].
  destruct (state_tying_keeps_arcs c p s _ H) as (allo_map & Hm & _). by exists allo_map.
Defined.

(** ** Module-level helpers *)

Lemma triphone_from_phon_prefix (word_seq : list string) (k : nat) :
  (k ≤ length word_seq)%nat →
  for_each (λ allo_index tri_seq,
      tri_l ← (if bool_decide (allo_index ≤ 0) then Ok ""%string
               else py_index word_seq (allo_index - 1));
      tri_r ← (if bool_decide (allo_index >= Z.of_nat (length word_seq) - 1) then Ok ""%string
               else py_index word_seq (allo_index + 1));
      tri_c ← py_index word_seq allo_index;
      let tri := (tri_l, tri_c, tri_r) in Ok (tri_seq ++ [tri]))
    (range 0 (Z.of_nat k)) [] =
  Ok (imap (λ i c, (match i with O => ""%string | S j => default ""%string (word_seq !! j) end,
                    c, default ""%string (word_seq !! S i)))
        (take k word_seq)).
Proof.
  induction k as [|k IH]; intros Hk; [done|].
  destruct (lookup_lt_is_Some_2 word_seq k) as [c Hc]; [lia|].
  replace (Z.of_nat (S k)) with (Z.of_nat k + 1) by lia.
  rewrite range_snoc, for_each_app, IH by lia. cbn [mbind res_bind for_each].
  rewrite (take_S_r _ _ _ Hc), imap_app, length_take, Nat.min_l by lia.
  cbn [imap]. rewrite Nat.add_0_r.
  rewrite (py_index_lookup _ _ _ Hc).
  assert (Hl : (if bool_decide (Z.of_nat k ≤ 0) then Ok ""%string
                else py_index word_seq (Z.of_nat k - 1)) =
               Ok (match k with O => ""%string | S j => default ""%string (word_seq !! j) end)).
  { destruct k as [|j]; [done|]. rewrite bool_decide_eq_false_2 by lia.
    destruct (lookup_lt_is_Some_2 word_seq j) as [x Hx]; [lia|].
    replace (Z.of_nat (S j) - 1) with (Z.of_nat j) by lia.
    by rewrite (py_index_lookup _ _ _ Hx), Hx. }
  assert (Hr : (if bool_decide (Z.of_nat k >= Z.of_nat (length word_seq) - 1) then Ok ""%string
                else py_index word_seq (Z.of_nat k + 1)) =
               Ok (default ""%string (word_seq !! S k))).
  { destruct (decide (Z.of_nat k >= Z.of_nat (length word_seq) - 1)) as [H|H];
      [rewrite (bool_decide_eq_true_2 _ H)|rewrite (bool_decide_eq_false_2 _ H)].
    - assert (Hge : (length word_seq ≤ S k)%nat) by lia.
      by rewrite (lookup_ge_None_2 word_seq (S k) Hge).
    - destruct (lookup_lt_is_Some_2 word_seq (S k)) as [x Hx]; [lia|].
      replace (Z.of_nat k + 1) with (Z.of_nat (S k)) by lia.
      by rewrite (py_index_lookup _ _ _ Hx), Hx. }
  rewrite Hl, Hr. done.
Qed.

(** X21. [_triphone_from_phon] always returns, one triple per phoneme and in
    order: the phoneme in the middle, its left neighbour (the empty string
    for the first phoneme) and its right neighbour (the empty string for the
    last one). *)
Theorem triphone_from_phon_closed_form (word_seq : list string) :
  _triphone_from_phon word_seq =
  Ok (imap (λ i c, (match i with O => ""%string | S j => default ""%string (word_seq !! j) end,
                    c, default ""%string (word_seq !! S i)))
        word_seq).
Proof.
  unfold _triphone_from_phon.
  etransitivity; [exact (triphone_from_phon_prefix word_seq (length word_seq) (le_n _))|].
  by rewrite firstn_all.
Qed.

(** X22. [_check_node_existance] answers whether some edge starts or ends
    at the node. *)
Theorem check_node_existance_spec (node_num : Z) (edges : list edge) :
  _check_node_existance node_num edges = true ↔
  ∃ e, e ∈ edges ∧ (e_from e = node_num ∨ e_to e = node_num).
Proof.
  unfold _check_node_existance. cbv zeta.
  pose proof (elem_of_indices_where (λ e, e_from e = node_num ∨ e_to e = node_num) edges)
    as Hin.
  destruct (indices_where _ edges) as [|i idxs].
  - simpl. split; [done|]. intros (e & (i & Hi)%list_elem_of_lookup_1 & He).
    exfalso. apply (not_elem_of_nil i), Hin. eauto.
  - cbn [length]. rewrite bool_decide_eq_true_2 by lia. split; [|done]. intros _.
    destruct (proj1 (Hin i)) as (e & He & HP); [by left|].
    exists e. split; [by eapply list_elem_of_lookup_2|done].
Qed.

(** X23. [_count_all_edges_non_sil_or_eps] is the number of edges whose
    label is neither of the two given labels; it lies between 0 and the
    number of edges. *)
Theorem count_all_edges_non_sil_or_eps_spec (edges : list edge) (sil eps : label) :
  _count_all_edges_non_sil_or_eps edges sil eps =
    Z.of_nat (length (filter (λ e, e_label e ≠ sil ∧ e_label e ≠ eps) edges)) ∧
  0 ≤ _count_all_edges_non_sil_or_eps edges sil eps ≤ Z.of_nat (length edges).
Proof.
  assert (H : ∀ a, foldl (λ c e, if bool_decide (e_label e ≠ sil ∧ e_label e ≠ eps)
                                 then c + 1 else c) a edges =
                   a + Z.of_nat (length (filter (λ e, e_label e ≠ sil ∧ e_label e ≠ eps)
                                           edges))).
  { induction edges as [|e es IH]; intros a; cbn [foldl]; [simpl; lia|].
    rewrite IH, filter_cons. case_bool_decide.
    - rewrite decide_True by done. simpl. lia.
    - by rewrite decide_False by done. }
  unfold _count_all_edges_non_sil_or_eps. rewrite H. split; [lia|].
  pose proof (length_filter (λ e, e_label e ≠ sil ∧ e_label e ≠ eps) edges). lia.
Qed.

(** ** HMM: the lexicon *)

Lemma find_allo_loop (lexicon : gmap string (list pron)) (l : list label)
    (acc d : gmap string (list pron)) :
  for_each (λ lemma phon_dict,
      match lemma with
      | LStr w => phons ← dict_get lexicon lemma; Ok (<[w := phons]> phon_dict)
      | _ => Raise AssertionError
      end) l acc = Ok d →
  Forall (λ x, ∃ w, x = LStr w ∧ is_Some (lexicon !! w)) l ∧
  ∀ w, d !! w = if decide (LStr w ∈ l) then lexicon !! w else acc !! w.
Proof.
  revert acc. induction l as [|x l IH]; intros acc; cbn [for_each].
  - intros [= <-]. split; [constructor|]. intros w.
    rewrite decide_False; [done|]. by intros ?%elem_of_nil.
  - destruct x as [w0| |]; [|done..]. unfold dict_get.
    destruct (lexicon !! w0) as [v|] eqn:Hv; cbn [mbind res_bind]; [|done].
    intros [HF Hd]%IH. split; [constructor; eauto|]. intros w. rewrite Hd.
    destruct (decide (LStr w ∈ l)) as [Hin|Hnin].
    + rewrite decide_True; [done|]. by right.
    + destruct (decide (w = w0)) as [->|Hne].
      * rewrite lookup_insert_eq, decide_True; [done|]. by left.
      * rewrite lookup_insert_ne by done. rewrite decide_False; [done|].
        intros [[= ?]|?]%elem_of_cons; done.
Qed.

Lemma find_allo_loop_ok (lexicon : gmap string (list pron)) (l : list label)
    (acc : gmap string (list pron)) :
  Forall (λ x, ∃ w, x = LStr w ∧ is_Some (lexicon !! w)) l →
  ∃ d, for_each (λ lemma phon_dict,
      match lemma with
      | LStr w => phons ← dict_get lexicon lemma; Ok (<[w := phons]> phon_dict)
      | _ => Raise AssertionError
      end) l acc = Ok d.
Proof.
  intros HF. revert acc. induction HF as [|x l (w & -> & [v Hv]) _ IH]; intros acc.
  - by exists acc.
  - cbn [for_each]. unfold dict_get. rewrite Hv. cbn [mbind res_bind]. apply IH.
Qed.

Lemma find_allo_loop_missing (lexicon : gmap string (list pron)) (l : list label)
    (acc : gmap string (list pron)) (w : string) :
  Forall is_str l → LStr w ∈ l → lexicon !! w = None →
  for_each (λ lemma phon_dict,
      match lemma with
      | LStr w => phons ← dict_get lexicon lemma; Ok (<[w := phons]> phon_dict)
      | _ => Raise AssertionError
      end) l acc = Raise KeyError.
Proof.
  intros Hstr Hin Hnone. revert acc.
  induction Hstr as [|x l Hx _ IH]; intros acc; [by apply elem_of_nil in Hin|].
  destruct x as [w0| |]; [|done..]. cbn [for_each]. unfold dict_get.
  destruct (lexicon !! w0) as [v|] eqn:Hv; cbn [mbind res_bind]; [|done].
  apply IH. apply elem_of_cons in Hin as [[= ->]|Hin]; [congruence|done].
Qed.

(** X24. [_find_allo_seq_in_lex] returns exactly when every word of the
    label sequence is a str with an entry in the lexicon; the dictionary it
    builds then maps each of these words, and nothing else, to the
    pronunciations the lexicon has for it. *)
Theorem find_allo_seq_in_lex_spec (lexicon : gmap string (list pron)) (s : fsa) :
  ((∃ d, _find_allo_seq_in_lex lexicon s = Ok d) ↔
   Forall (λ x, ∃ w, x = LStr w ∧ is_Some (lexicon !! w)) (lemma s)) ∧
  ∀ d, _find_allo_seq_in_lex lexicon s = Ok d →
       ∀ w, d !! w = if decide (LStr w ∈ lemma s) then lexicon !! w else None.
Proof.
  unfold _find_allo_seq_in_lex. split; [split|].
  - intros (d & Hd). by apply find_allo_loop in Hd as [HF _].
  - apply find_allo_loop_ok.
  - intros d Hd w. apply find_allo_loop in Hd as [_ Hd]. by rewrite Hd, lookup_empty.
Qed.

Lemma run_hmm_after_lemma_acceptor (c : collaborators) (fuel : nat) (p : params) (s0 : fsa) :
  fsa_type p = "hmm" → depth p >= 2 → Forall is_str (words (lemma_orig p)) →
  let ws := words (lemma_orig p) in
  let s1 := Fsa (if ws is [] then 0 else 2 * Z.of_nat (length ws) + 2)
              (concat (imap lemma_edges_at ws)) ws (final_states s0) in
  run c fuel p s0 =
  (s ← (lexicon ← _load_lexicon c;
        phon_dict ← _find_allo_seq_in_lex lexicon s1;
        _phoneme_acceptor_for_hmm_fsa fuel phon_dict s1);
   s ← (if bool_decide (depth p >= 3) then _triphone_acceptor_for_hmm_fsa s else Ok s);
   s ← (if bool_decide (depth p >= 4) then _allophone_state_acceptor_for_hmm_fsa fuel p s
        else Ok s);
   s ← (if bool_decide (depth p >= 5) then _adds_loop_edges p s else Ok s);
   if bool_decide (depth p >= 6) then _state_tying_for_hmm_fsa c p s else Ok s).
Proof.
  intros Hty Hd Hstr ws s1. unfold run, run_hmm. rewrite Hty.
  rewrite (bool_decide_eq_false_2 ("hmm" = "asg")) by done.
  rewrite (bool_decide_eq_false_2 ("hmm" = "ctc")) by done.
  rewrite (bool_decide_eq_true_2 ("hmm" = "hmm")) by done.
  rewrite (bool_decide_eq_true_2 (depth p >= 1)) by lia.
  rewrite (bool_decide_eq_true_2 (depth p >= 2)) by lia.
  rewrite (lemma_acceptor_exact p s0 Hstr). done.
Qed.

(** X25. At depth 2 or more the ["hmm"] pipeline needs the lexicon file:
    without it, [run] raises [AssertionError] once the lemma acceptor has
    run. *)
Theorem hmm_needs_lexicon_file (c : collaborators) (fuel : nat) (p : params) (s0 : fsa) :
  fsa_type p = "hmm" → depth p >= 2 → Forall is_str (words (lemma_orig p)) →
  lexicon_file c = None →
  run c fuel p s0 = Raise AssertionError.
Proof.
  intros Hty Hd Hstr Hlex. rewrite run_hmm_after_lemma_acceptor by done.
  unfold _load_lexicon. by rewrite Hlex.
Qed.

Lemma hmm_needs_lexicon_file_witness :
  run (Collaborators None None) 0 (Params "hmm" (LemStr "a cat") 2 256 false 6 3) fsa_init =
  Raise AssertionError.
Proof.
  apply hmm_needs_lexicon_file; [done|simpl; lia| |done].
  by repeat constructor.
Defined.

(** X26. At depth 2 or more a word without an entry in the lexicon makes
    [run] for ["hmm"] raise [KeyError]. *)
Theorem hmm_word_not_in_lexicon (c : collaborators) (fuel : nat) (p : params) (s0 : fsa)
    (lexicon : gmap string (list pron)) (w : string) :
  fsa_type p = "hmm" → depth p >= 2 → Forall is_str (words (lemma_orig p)) →
  lexicon_file c = Some lexicon → LStr w ∈ words (lemma_orig p) → lexicon !! w = None →
  run c fuel p s0 = Raise KeyError.
Proof.
  intros Hty Hd Hstr Hlex Hin Hnone. rewrite run_hmm_after_lemma_acceptor by done.
  unfold _load_lexicon. rewrite Hlex. cbn [mbind res_bind].
  unfold _find_allo_seq_in_lex. cbn [lemma].
  by rewrite (find_allo_loop_missing lexicon _ ∅ w).
Qed.

Lemma hmm_word_not_in_lexicon_witness :
  run (Collaborators (Some {[ "a"%string := [Pron "a" 0] ]}) None) 0
    (Params "hmm" (LemStr "a cat") 2 256 false 6 3) fsa_init =
  Raise KeyError.
Proof.
  apply (hmm_word_not_in_lexicon _ _ _ _ {[ "a"%string := [Pron "a" 0] ]} "cat");
    [done|simpl; lia| |done| |done].
  - by repeat constructor.
  - simpl. right. left.
Defined.

(** ** HMM: the phoneme acceptor *)













(** ** HMM: allophone syntax *)

(** X28. The allophone syntax of a triphone state [[l, c, r, k]] is
    [c{l+r}] with [#] for an empty context, then the position marker
    ([@i@f], [@i], [@f] or nothing), then [.k]; silence is
    [[SILENCE]{#+#}], its marker and [.0]; epsilon is ["*"] and its marker,
    without a state number. An int label is refused. *)
Theorem build_allo_syntax_format (pos : option string) :
  let marker :=
    if bool_decide (pos = Some "if"%string) then "@i@f"%string
    else if bool_decide (pos = Some "i"%string) then "@i"%string
    else if bool_decide (pos = Some "f"%string) then "@f"%string
    else ""%string in
  (∀ l c r k,
     _build_allo_syntax_for_mapping (LList [AStr l; AStr c; AStr r; AInt k]) pos =
     Ok ((c +:+ "{" +:+ (if decide (l = ""%string) then "#"%string else l) +:+ "+" +:+
          (if decide (r = ""%string) then "#"%string else r) +:+ "}") +:+
         marker +:+ "." +:+ pretty k)) ∧
  _build_allo_syntax_for_mapping _SIL pos = Ok ("[SILENCE]{#+#}" +:+ marker +:+ ".0") ∧
  _build_allo_syntax_for_mapping _EPS pos = Ok ("*" +:+ marker +:+ "") ∧
  ∀ z, _build_allo_syntax_for_mapping (LInt z) pos = Raise AssertionError.
Proof.
  intros marker. split; [|split; [|split]]; [|done..].
  intros l c r k. unfold _build_allo_syntax_for_mapping.
  cbn [is_int label_item lookup list_lookup mbind res_bind fmt_i fmt_s].
  rewrite !(bool_decide_eq_false_2 (LList _ = _)) by done. cbn [mbind res_bind].
  destruct (decide (l = ""%string)) as [->|Hl], (decide (r = ""%string)) as [->|Hr].
  - rewrite (bool_decide_eq_true_2 (_ ∧ _)) by done. reflexivity.
  - rewrite (bool_decide_eq_false_2 (_ ∧ _)) by (intros [_ [=]]; done).
    rewrite (bool_decide_eq_true_2 (AStr "" = _)) by done. reflexivity.
  - rewrite (bool_decide_eq_false_2 (_ ∧ _)) by (intros [[=] _]; done).
    rewrite (bool_decide_eq_false_2 (AStr l = _)) by (intros [=]; done).
    rewrite (bool_decide_eq_true_2 (AStr "" = _)) by done. reflexivity.
  - rewrite (bool_decide_eq_false_2 (_ ∧ _)) by (intros [[=] _]; done).
    rewrite (bool_decide_eq_false_2 (AStr l = _)) by (intros [=]; done).
    rewrite (bool_decide_eq_false_2 (AStr r = _)) by (intros [=]; done). reflexivity.
Qed.

(** ** CTC: a ["*"] label *)

Lemma skip_edges_at_label (l : list label) (i : Z) (e : edge) :
  e ∈ skip_edges_at l i → e_to e = 2 * i + 2 ∧ py_index l i = Ok (e_label e).
Proof.
  unfold skip_edges_at. destruct (py_index l i) as [cur| |]; try by intros ?%elem_of_nil.
  destruct (py_index l (i - 1)); try by intros ?%elem_of_nil.
  case_bool_decide; [|by intros ?%elem_of_nil].
  by intros ->%list_elem_of_singleton.
Qed.

Lemma blank_edges_at_label (l : list label) (i : Z) (e : edge) :
  e ∈ blank_edges_at l i →
  (e_to e = 2 * i + 1) ∨ (e_to e = 2 * i + 2 ∧ py_index l i = Ok (e_label e)).
Proof.
  unfold blank_edges_at. destruct (py_index l i) as [cur| |]; try by intros ?%elem_of_nil.
  intros [->|[->|[]%elem_of_nil]%elem_of_cons]%elem_of_cons; simpl; auto.
Qed.

(** X29. A ["*"] label anywhere in the sequence makes [run] for ["ctc"]
    raise [IndexError] too: the state reached by that label has only
    ["*"] edges coming in, so its self-loop has no label to copy. *)
Theorem ctc_eps_label_raises (c : collaborators) (fuel : nat) (p : params) (s0 s1 : fsa) :
  fsa_type p = "ctc" → load_lemma p s0 = Ok s1 → _EPS ∈ lemma s1 →
  run c fuel p s0 = Raise IndexError.
Proof.
  intros Hty Hload Heps. unfold run, run_ctc.
  rewrite Hty, bool_decide_eq_false_2, bool_decide_eq_true_2 by done.
  rewrite (ctc_lattice_shape p s0 s1 Hload). cbn [mbind res_bind].
  set (l := lemma s1) in *. set (n := Z.of_nat (length l)).
  apply list_elem_of_lookup_1 in Heps as (j & Hj).
  pose proof (lookup_lt_Some _ _ _ Hj) as Hlt.
  destruct (last l) as [x|] eqn:Hlast; [|apply last_None in Hlast; by rewrite Hlast in Hj].
  rewrite (last_stage_shape _ x) by done. cbn [mbind res_bind num_states edges].
  rewrite adds_loop_edges_unfold by (right; by left). unfold countloops.
  rewrite Hty, (bool_decide_eq_false_2 ("ctc" = "hmm")) by done. cbn [num_states].
  rewrite (loops_fail _ _ (2 * Z.of_nat j + 2)); [done|unfold n; lia|].
  unfold loop_edge_for. rewrite filter_none; [done|]. cbn [edges].
  assert (Hat : ∀ i y, 0 ≤ i → 2 * i + 2 = 2 * Z.of_nat j + 2 → py_index l i = Ok y →
                       y = _EPS).
  { intros i y Hi Heq Hy. replace i with (Z.of_nat j) in Hy by lia.
    apply py_index_nat_Ok in Hy. congruence. }
  apply Forall_forall. intros e He [Hto Hl]. apply Hl. clear Hl.
  apply elem_of_app in He as [He|He].
  - apply elem_of_app in He
      as [(i & He & Hi%elem_of_range)%list_elem_of_bind|
          (i & He & Hi%elem_of_range)%list_elem_of_bind].
    + apply skip_edges_at_label in He as [Het Hy]. apply (Hat i); [lia|lia|done].
    + apply blank_edges_at_label in He as [Het|[Het Hy]]; [lia|].
      apply (Hat i); [lia|lia|done].
  - exfalso. fold n in He.
    apply elem_of_cons in He as [->|He]; [simpl in Hto; unfold n in Hto; lia|].
    apply elem_of_cons in He as [->|He]; [simpl in Hto; unfold n in Hto; lia|].
    apply list_elem_of_singleton in He as ->. simpl in Hto. unfold n in Hto. lia.
Qed.

Lemma ctc_eps_label_raises_witness :
  run (Collaborators None None) 0 (Params "ctc" (LemStr "a*") 0 27 false 6 3) fsa_init =
  Raise IndexError.
Proof.
  refine (ctc_eps_label_raises (Collaborators None None) 0
            (Params "ctc" (LemStr "a*") 0 27 false 6 3) fsa_init
            (set_lemma (chars "a*") fsa_init) eq_refl eq_refl _).
  simpl. right. left.
Defined.
